(** * Logos library search: catalog discovery, schema inference,
      extraction, caching and querying

    A shallow embedding of the "Search Library" command:
    [resolveCatalog], [findResourceTable],
    [findColumn], [queryResources], [readCache], [writeCache],
    [loadCatalog], the [filteredResources] memo, [openResource] and
    [rebuildIndex], with the properties the specification states about
    them and further properties read off the code.

    Conventions of the embedding.
    - A JavaScript string is a [string]; a character stands for a UTF-16
      code unit below 256.  [toLowerCase] and [trim] are written out for
      those code units.
    - A JavaScript number that the code only compares ([mtimeMs]) or only
      prints (an INTEGER cell) is a [Z].  REAL cells are left out of
      [SqlValue].
    - Host functions whose result the code takes as given
      ([String.prototype.localeCompare], [path.join], [path.dirname],
      [os.homedir], [environment.supportPath], the Fuse index) are the
      fields of a [Host] record.
    - Promise-returning code is a state-and-exception monad [M] over a
      [World]: the file system answers, the cache file and the trace of
      the host calls performed so far. *)

From Stdlib Require Import List String Ascii ZArith NArith Bool Lia.
From Stdlib Require Import Permutation Sorted DecimalString.
From Stdlib Require OrderedTypeEx.
Import ListNotations.
Open Scope string_scope.

(* ================================================================= *)
(** ** JavaScript values and built-ins *)

Module Js.

(** A thrown value: a plain [Error] or a Node [ErrnoException] carrying
    a [code]. *)
Inductive Exn : Type :=
| Error (message : string)
| ErrnoException (code : string) (message : string).

(** The completion of a call: a value, or a thrown exception. *)
Inductive Result (A : Type) : Type :=
| Ok (value : A)
| Throw (e : Exn).
Arguments Ok {A} value.
Arguments Throw {A} e.

Definition bindR {A B} (r : Result A) (k : A -> Result B) : Result B :=
  match r with
  | Ok a => k a
  | Throw e => Throw e
  end.

(** [error.code], [undefined] on a plain [Error]. *)
Definition code (e : Exn) : option string :=
  match e with
  | Error _ => None
  | ErrnoException c _ => Some c
  end.

(** [error.code === c]. *)
Definition hasCode (e : Exn) (c : string) : bool :=
  match code e with
  | Some c' => c' =? c
  | None => false
  end.

(** [extractErrorMessage] applied to a thrown [Error]. *)
Definition extractErrorMessage (e : Exn) : string :=
  match e with
  | Error m => m
  | ErrnoException _ m => m
  end.

(** Truthiness of a string: every string but the empty one. *)
Definition truthy (s : string) : bool := negb (s =? "").

(** Truthiness of [string | undefined]. *)
Definition truthy_opt (o : option string) : bool :=
  match o with
  | Some s => truthy s
  | None => false
  end.

(** [String.prototype.toLowerCase] on one code unit below 256: the
    letters A-Z and the Latin-1 capitals 0xC0-0xDE (0xD7 apart) move up
    by 32. *)
Definition lowerChar (c : ascii) : ascii :=
  let n := N_of_ascii c in
  if ((65 <=? n) && (n <=? 90))%N
     || ((192 <=? n) && (n <=? 222) && negb (n =? 215))%N
  then ascii_of_N (n + 32)
  else c.

Fixpoint toLowerCase (s : string) : string :=
  match s with
  | EmptyString => EmptyString
  | String c r => String (lowerChar c) (toLowerCase r)
  end.

(** The WhiteSpace and LineTerminator code units below 256: TAB, LF, VT,
    FF, CR, SP and NBSP. *)
Definition isWhiteSpace (c : ascii) : bool :=
  existsb (N.eqb (N_of_ascii c)) [9; 10; 11; 12; 13; 32; 160]%N.

Fixpoint trimStart (s : string) : string :=
  match s with
  | EmptyString => EmptyString
  | String c r => if isWhiteSpace c then trimStart r else s
  end.

Fixpoint trimEnd (s : string) : string :=
  match s with
  | EmptyString => EmptyString
  | String c r =>
      match trimEnd r with
      | EmptyString => if isWhiteSpace c then EmptyString else String c EmptyString
      | r' => String c r'
      end
  end.

(** [String.prototype.trim]. *)
Definition trim (s : string) : string := trimEnd (trimStart s).

(** Every code unit of the string is white space. *)
Fixpoint whitespaceOnly (s : string) : bool :=
  match s with
  | EmptyString => true
  | String c r => isWhiteSpace c && whitespaceOnly r
  end.

(** [s.startsWith(p)] is [String.prefix p s]; [s.slice(1)]: *)
Definition slice1 (s : string) : string :=
  match s with
  | EmptyString => EmptyString
  | String _ r => r
  end.

(** [Array.prototype.includes] and [indexOf] on arrays of strings. *)
Definition includes (l : list string) (x : string) : bool :=
  existsb (String.eqb x) l.

Fixpoint indexOf (l : list string) (x : string) : option nat :=
  match l with
  | [] => None
  | y :: r => if y =? x then Some 0%nat else option_map S (indexOf r x)
  end.

(** [Array.prototype.slice(0, n)]. *)
Definition slice0 {A} (n : nat) (l : list A) : list A := firstn n l.

(** A [Set<string>]: its elements in insertion order, without repeats. *)
Definition StringSet := list string.

Definition Set_has (s : StringSet) (x : string) : bool := includes s x.

Definition Set_add (s : StringSet) (x : string) : StringSet :=
  if Set_has s x then s else (s ++ [x])%list.

(** [Array.prototype.sort(compareFn)].  ECMAScript requires a stable
    sort, so for a consistent comparator the result is fixed: the
    elements in comparator order, equal ones in their original order.
    Stable insertion computes it: an element goes in front of the first
    later one that it does not exceed. *)
Fixpoint sort_insert {A} (compareFn : A -> A -> Z) (x : A) (l : list A) : list A :=
  match l with
  | [] => [x]
  | y :: r =>
      if (compareFn x y <=? 0)%Z then x :: y :: r
      else y :: sort_insert compareFn x r
  end.

Fixpoint sort {A} (compareFn : A -> A -> Z) (l : list A) : list A :=
  match l with
  | [] => []
  | x :: r => sort_insert compareFn x (sort compareFn r)
  end.

(** [a] does not come after [b] under the comparator. *)
Definition precedes {A} (compareFn : A -> A -> Z) (a b : A) : Prop :=
  (compareFn a b <= 0)%Z.

(** ECMAScript defines the sorted order for a consistent comparator
    only; these are the two consequences of consistency used here. *)
Definition consistentComparator {A} (compareFn : A -> A -> Z) : Prop :=
  (forall a b, precedes compareFn a b \/ precedes compareFn b a) /\
  (forall a b c, precedes compareFn a b -> precedes compareFn b c ->
                 precedes compareFn a c).

(** A parsed JSON text, as [JSON.parse] returns it.  An object is the
    list of its own properties. *)
#[warnings="-register-all"]
Inductive Json : Type :=
| JNull
| JBool (b : bool)
| JNumber (n : Z)
| JString (s : string)
| JArray (elements : list Json)
| JObject (properties : list (string * Json)).

Fixpoint lookup (key : string) (properties : list (string * Json)) : option Json :=
  match properties with
  | [] => None
  | (k, v) :: r => if k =? key then Some v else lookup key r
  end.

(** [value.key] for one of the keys the code reads ([resources],
    [dbPath], [mtimeMs], [id], [title]): a TypeError on [null],
    [undefined] ([None]) on a missing property and on a primitive or
    array. *)
Definition getProperty (value : Json) (key : string) : Result (option Json) :=
  match value with
  | JNull => Throw (Error "Cannot read properties of null")
  | JObject properties => Ok (lookup key properties)
  | _ => Ok None
  end.

End Js.
Import Js.

(* ================================================================= *)
(** ** Types of the command *)

Record Preferences : Type := {
  catalogPath : option string
}.

Record ResourceRow : Type := {
  id : string;
  title : string;
  author : option string;
  abbrev : option string
}.

Record CachePayload : Type := {
  dbPath : string;
  mtimeMs : Z;
  resources : list Json
}.

Record CatalogInfo : Type := {
  path : string;
  info_mtimeMs : Z
}.

Record TableInfo : Type := {
  tableName : string;
  idColumn : string;
  titleColumn : string;
  authorColumn : option string;
  abbrevColumn : option string
}.

Definition CACHE_FILENAME : string := "catalog-cache.json".
Definition RESOURCE_TABLE_CANDIDATES : list string :=
  ["Resource"; "Resources"; "LibraryCatalog"; "Catalog"; "LibraryResources"].
Definition ID_COLUMN_CANDIDATES : list string :=
  ["resourceid"; "resource_id"; "res_id"; "id"].
Definition TITLE_COLUMN_CANDIDATES : list string :=
  ["title"; "name"; "displayname"; "resourcetitle"].
Definition AUTHOR_COLUMN_CANDIDATES : list string :=
  ["author"; "authors"; "creator"; "authorname"].
Definition ABBREV_COLUMN_CANDIDATES : list string :=
  ["abbreviation"; "abbrev"; "shorttitle"; "resourceabbreviation"].

(** What a resource row is once [JSON.stringify] and [JSON.parse] have
    seen it, and what the list UI holds. *)
Definition nullable (o : option string) : Json :=
  match o with
  | Some s => JString s
  | None => JNull
  end.

Definition toJson (r : ResourceRow) : Json :=
  JObject [("id", JString (id r)); ("title", JString (title r));
           ("author", nullable (author r)); ("abbrev", nullable (abbrev r))].

(* ================================================================= *)
(** ** The SQLite database behind [database.exec] *)

Module Sql.

(** A cell as sql.js hands it over: [null], a string, a number or a
    [Uint8Array]. *)
Inductive SqlValue : Type :=
| SqlNull
| SqlText (s : string)
| SqlInt (n : Z)
| SqlBlob (bytes : list N).

Record Table : Type := {
  tbl_name : string;
  tbl_columns : list string;
  tbl_rows : list (list SqlValue)
}.

Definition Database := list Table.

(** One element of the array [database.exec] returns. *)
Record QueryExecResult : Type := {
  columns : list string;
  values : list (list SqlValue)
}.

(** [String(value)] on a cell. *)
Definition String_of (v : SqlValue) : string :=
  match v with
  | SqlNull => "null"
  | SqlText s => s
  | SqlInt n => NilZero.string_of_int (Z.to_int n)
  | SqlBlob bytes =>
      String.concat "," (map (fun b => NilZero.string_of_uint (N.to_uint b)) bytes)
  end.

(** Truthiness of a cell: [null], the empty string and zero are falsy, a
    [Uint8Array] is an object. *)
Definition truthy_value (v : SqlValue) : bool :=
  match v with
  | SqlNull => false
  | SqlText s => truthy s
  | SqlInt n => negb (n =? 0)%Z
  | SqlBlob _ => true
  end.

(** [row[index]], [undefined] past the end; the code treats [undefined]
    and [null] alike wherever it reads a cell. *)
Definition cell (row : list SqlValue) (index : nat) : SqlValue :=
  nth index row SqlNull.

Definition dquote : ascii := "034"%char.

(** [quoteIdentifier]: every double quote doubled, the whole between
    double quotes. *)
Fixpoint escapeQuotes (identifier : string) : string :=
  match identifier with
  | EmptyString => EmptyString
  | String c r =>
      if Ascii.eqb c dquote then String dquote (String dquote (escapeQuotes r))
      else String c (escapeQuotes r)
  end.

Definition quoteIdentifier (identifier : string) : string :=
  String dquote (escapeQuotes identifier ++ String dquote EmptyString).

(** How SQLite reads a quoted identifier back: the body up to the
    closing quote, a doubled quote standing for one. *)
Fixpoint unquoteBody (s : string) : option string :=
  match s with
  | EmptyString => None
  | String c r =>
      if Ascii.eqb c dquote then
        match r with
        | EmptyString => Some EmptyString
        | String c' r' =>
            if Ascii.eqb c' dquote
            then option_map (String dquote) (unquoteBody r')
            else None
        end
      else option_map (String c) (unquoteBody r)
  end.

Definition unquoteIdentifier (s : string) : option string :=
  match s with
  | EmptyString => None
  | String c r => if Ascii.eqb c dquote then unquoteBody r else None
  end.

(** The three statements the command sends. *)
Inductive Statement : Type :=
| SelectTableNames
    (* SELECT name FROM sqlite_master WHERE type='table' *)
| PragmaTableInfo (table : string)
    (* PRAGMA table_info(<table>) *)
| SelectNotNull (selectColumns : list (string * string)) (table : string)
                (notNull1 notNull2 : string).
    (* SELECT <c> AS <alias>, ... FROM <table>
       WHERE <notNull1> IS NOT NULL AND <notNull2> IS NOT NULL *)

(** SQLite resolves table and column names without regard to the case
    of ASCII letters. *)
Definition foldChar (c : ascii) : ascii :=
  let n := N_of_ascii c in
  if ((65 <=? n) && (n <=? 90))%N then ascii_of_N (n + 32) else c.

Fixpoint foldCase (s : string) : string :=
  match s with
  | EmptyString => EmptyString
  | String c r => String (foldChar c) (foldCase r)
  end.

Definition sameName (a b : string) : bool := foldCase a =? foldCase b.

Definition findTable (db : Database) (name : string) : option Table :=
  find (fun t => sameName (tbl_name t) name) db.

Fixpoint columnIndex (cols : list string) (name : string) : option nat :=
  match cols with
  | [] => None
  | c :: r => if sameName c name then Some 0%nat else option_map S (columnIndex r name)
  end.

(** The rows of [PRAGMA table_info]: cid, name, type, notnull,
    dflt_value, pk. *)
Definition tableInfoRows (cols : list string) : list (list SqlValue) :=
  map (fun '(cid, name) =>
         [SqlInt (Z.of_nat cid); SqlText name; SqlText ""; SqlInt 0; SqlNull; SqlInt 0])
      (combine (seq 0 (List.length cols)) cols).

(** sql.js adds a result to the array when the statement yields its
    first row: a statement without rows contributes nothing. *)
Definition results (cols : list string) (rows : list (list SqlValue))
  : list QueryExecResult :=
  match rows with
  | [] => []
  | _ => [{| columns := cols; values := rows |}]
  end.

Fixpoint resolveColumns (cols : list string) (quoted : list string)
  : Result (list nat) :=
  match quoted with
  | [] => Ok []
  | q :: r =>
      match unquoteIdentifier q with
      | None => Throw (Error "unrecognized token")
      | Some name =>
          match columnIndex cols name with
          | None => Throw (Error ("no such column: " ++ name))
          | Some i => bindR (resolveColumns cols r) (fun rest => Ok (i :: rest))
          end
      end
  end.

Definition isNull (v : SqlValue) : bool :=
  match v with
  | SqlNull => true
  | _ => false
  end.

(** [database.exec(statement)] on a database SQLite can read.  The
    bytes of a file that is no database open without complaint and make
    the first [exec] throw: such a file is no [Database] here, it is a
    rejection of [fs_database] in the world below. *)
Definition exec (db : Database) (statement : Statement)
  : Result (list QueryExecResult) :=
  match statement with
  | SelectTableNames =>
      Ok (results ["name"] (map (fun t => [SqlText (tbl_name t)]) db))
  | PragmaTableInfo quoted =>
      match unquoteIdentifier quoted with
      | None => Throw (Error "unrecognized token")
      | Some name =>
          match findTable db name with
          | None => Ok []
          | Some t =>
              Ok (results ["cid"; "name"; "type"; "notnull"; "dflt_value"; "pk"]
                          (tableInfoRows (tbl_columns t)))
          end
      end
  | SelectNotNull selectColumns quoted notNull1 notNull2 =>
      match unquoteIdentifier quoted with
      | None => Throw (Error "unrecognized token")
      | Some name =>
          match findTable db name with
          | None => Throw (Error ("no such table: " ++ name))
          | Some t =>
              bindR (resolveColumns (tbl_columns t) (map fst selectColumns)) (fun picked =>
              bindR (resolveColumns (tbl_columns t) [notNull1; notNull2]) (fun nn =>
                let kept :=
                  filter (fun row => forallb (fun i => negb (isNull (cell row i))) nn)
                         (tbl_rows t) in
                Ok (results (map snd selectColumns)
                            (map (fun row => map (cell row) picked) kept))))
          end
      end
  end.

End Sql.
Import Sql.

(* ================================================================= *)
(** ** Host functions taken as given *)

(** One entry of the array [fuse.search] returns. *)
Record FuseResult : Type := {
  item : Json;
  refIndex : nat
}.

Record Host : Type := {
  (** [a.localeCompare(b)]: negative, zero or positive. *)
  localeCompare : string -> string -> Z;
  (** [path.join(...segments)] and [path.dirname]. *)
  path_join : list string -> string;
  path_dirname : string -> string;
  (** [os.homedir()] and [environment.supportPath]. *)
  homedir : string;
  supportPath : string;
  (** [new Fuse(resources, options).search(query)], the options and the
      threshold being part of the index. *)
  Fuse_search : list Json -> string -> list FuseResult
}.

(* ================================================================= *)
(** ** Schema inference *)

Fixpoint findColumn_from (columns lowerCaseColumns candidates : list string)
  : option string :=
  match candidates with
  | [] => None
  | candidate :: rest =>
      match indexOf lowerCaseColumns candidate with
      | Some index => nth_error columns index
      | None => findColumn_from columns lowerCaseColumns rest
      end
  end.

Definition findColumn (columns candidates : list string) : option string :=
  let lowerCaseColumns := map toLowerCase columns in
  findColumn_from columns lowerCaseColumns candidates.

(** The first loop of [findResourceTable]: the names read from
    [sqlite_master], added to a set when truthy. *)
Definition collectTableNames (tablesResult : list QueryExecResult) : StringSet :=
  fold_left
    (fun tableNames table =>
       fold_left
         (fun tableNames value =>
            if truthy_value (cell value 0)
            then Set_add tableNames (String_of (cell value 0))
            else tableNames)
         (values table) tableNames)
    tablesResult [].

(** The columns of one table, [None] when the pragma returns nothing. *)
Definition pragmaColumns (db : Database) (tableName : string)
  : Result (option (list string)) :=
  bindR (exec db (PragmaTableInfo (quoteIdentifier tableName))) (fun pragma =>
    match pragma with
    | [] => Ok None
    | first :: _ => Ok (Some (map (fun row => String_of (cell row 1)) (values first)))
    end).

(** The second loop of [findResourceTable], over [orderedTables]. *)
Fixpoint findResourceTable_from (db : Database) (tableNames : StringSet)
    (orderedTables : list string) : Result TableInfo :=
  match orderedTables with
  | [] => Throw (Error "Could not find a resource table inside catalog.db")
  | tableName :: rest =>
      if negb (Set_has tableNames tableName)
         && negb (includes RESOURCE_TABLE_CANDIDATES tableName)
      then findResourceTable_from db tableNames rest
      else
        bindR (pragmaColumns db tableName) (fun pragma =>
          match pragma with
          | None => findResourceTable_from db tableNames rest
          | Some columns =>
              let idColumn := findColumn columns ID_COLUMN_CANDIDATES in
              let titleColumn := findColumn columns TITLE_COLUMN_CANDIDATES in
              match idColumn, titleColumn with
              | Some idc, Some titlec =>
                  if negb (truthy idc) || negb (truthy titlec)
                  then findResourceTable_from db tableNames rest
                  else
                    Ok {| tableName := tableName;
                          idColumn := idc;
                          titleColumn := titlec;
                          authorColumn := findColumn columns AUTHOR_COLUMN_CANDIDATES;
                          abbrevColumn := findColumn columns ABBREV_COLUMN_CANDIDATES |}
              | _, _ => findResourceTable_from db tableNames rest
              end
          end)
  end.

Definition findResourceTable (db : Database) : Result TableInfo :=
  bindR (exec db SelectTableNames) (fun tablesResult =>
    let tableNames := collectTableNames tablesResult in
    let orderedTables := (RESOURCE_TABLE_CANDIDATES ++ tableNames)%list in
    findResourceTable_from db tableNames orderedTables).

(** A table qualifies when its pragma returns columns among which an id
    column and a title column resolve. *)
Definition qualifies (db : Database) (tableName : string) : bool :=
  match pragmaColumns db tableName with
  | Ok (Some columns) =>
      truthy_opt (findColumn columns ID_COLUMN_CANDIDATES)
      && truthy_opt (findColumn columns TITLE_COLUMN_CANDIDATES)
  | _ => false
  end.

(* ================================================================= *)
(** ** Extraction *)

(** [Partial<ResourceRow>]: every field possibly [undefined]. *)
Record PartialRow : Type := {
  p_id : option string;
  p_title : option string;
  p_author : option string;
  p_abbrev : option string
}.

Definition emptyRecord : PartialRow :=
  {| p_id := None; p_title := None; p_author := None; p_abbrev := None |}.

(** [record[key] = value]; the keys are the aliases of the query. *)
Definition setField (record : PartialRow) (key value : string) : PartialRow :=
  if key =? "id" then
    {| p_id := Some value; p_title := p_title record;
       p_author := p_author record; p_abbrev := p_abbrev record |}
  else if key =? "title" then
    {| p_id := p_id record; p_title := Some value;
       p_author := p_author record; p_abbrev := p_abbrev record |}
  else if key =? "author" then
    {| p_id := p_id record; p_title := p_title record;
       p_author := Some value; p_abbrev := p_abbrev record |}
  else if key =? "abbrev" then
    {| p_id := p_id record; p_title := p_title record;
       p_author := p_author record; p_abbrev := Some value |}
  else record.

(** The [columnNames.forEach] of one row: null cells are skipped, the
    others stored as strings. *)
Definition buildRecord (columnNames : list string) (row : list SqlValue)
  : PartialRow :=
  fold_left
    (fun record '(columnName, index) =>
       match cell row index with
       | SqlNull => record
       | value => setField record columnName (String_of value)
       end)
    (combine columnNames (seq 0 (List.length columnNames)))
    emptyRecord.

(** What one row contributes: nothing when id or title is missing or
    empty, otherwise the normalised record. *)
Definition rowRecord (columnNames : list string) (row : list SqlValue)
  : option ResourceRow :=
  let record := buildRecord columnNames row in
  match p_id record, p_title record with
  | Some i, Some t =>
      if negb (truthy i) || negb (truthy t) then None
      else Some {| id := i; title := t;
                   author := p_author record; abbrev := p_abbrev record |}
  | _, _ => None
  end.

(** The row loop of [queryResources], threading [items] and [seen]. *)
Fixpoint collectRows (columnNames : list string) (rows : list (list SqlValue))
    (items : list ResourceRow) (seen : StringSet) : list ResourceRow :=
  match rows with
  | [] => items
  | row :: rest =>
      match rowRecord columnNames row with
      | None => collectRows columnNames rest items seen
      | Some record =>
          if Set_has seen (id record)
          then collectRows columnNames rest items seen
          else collectRows columnNames rest (items ++ [record])%list
                           (Set_add seen (id record))
      end
  end.

Definition selectColumnsOf (columns : TableInfo) : list (string * string) :=
  ([(quoteIdentifier (idColumn columns), "id");
    (quoteIdentifier (titleColumn columns), "title")]
   ++ (if truthy_opt (authorColumn columns)
       then match authorColumn columns with
            | Some c => [(quoteIdentifier c, "author")]
            | None => []
            end
       else [])
   ++ (if truthy_opt (abbrevColumn columns)
       then match abbrevColumn columns with
            | Some c => [(quoteIdentifier c, "abbrev")]
            | None => []
            end
       else []))%list.

Definition queryOf (columns : TableInfo) : Statement :=
  SelectNotNull (selectColumnsOf columns)
                (quoteIdentifier (tableName columns))
                (quoteIdentifier (idColumn columns))
                (quoteIdentifier (titleColumn columns)).

Definition compareTitles (h : Host) (a b : ResourceRow) : Z :=
  localeCompare h (title a) (title b).

Definition queryResources (h : Host) (db : Database) (columns : TableInfo)
  : Result (list ResourceRow) :=
  bindR (exec db (queryOf columns)) (fun result =>
    match result with
    | [] => Ok []
    | first :: _ =>
        let columnNames := Sql.columns first in
        let items := collectRows columnNames (values first) [] [] in
        Ok (sort (compareTitles h) items)
    end).

(** The records of the rows that yield an id and a title, in row
    order. *)
Definition recordsOf (columnNames : list string) (rows : list (list SqlValue))
  : list ResourceRow :=
  flat_map (fun row => match rowRecord columnNames row with
                       | Some record => [record]
                       | None => []
                       end) rows.

(** Those of the rows the query of [queryResources] returns. *)
Definition usableRecords (db : Database) (columns : TableInfo) : list ResourceRow :=
  match exec db (queryOf columns) with
  | Ok (first :: _) => recordsOf (Sql.columns first) (values first)
  | _ => []
  end.

(** The first record carrying a given id. *)
Definition firstWithId (i : string) (records : list ResourceRow)
  : option ResourceRow :=
  find (fun r => id r =? i) records.

(** The records a [seen] set lets through, each id once. *)
Fixpoint keepFirst (seen : StringSet) (records : list ResourceRow)
  : list ResourceRow :=
  match records with
  | [] => []
  | r :: rest =>
      if Set_has seen (id r) then keepFirst seen rest
      else r :: keepFirst (Set_add seen (id r)) rest
  end.

(* ================================================================= *)
(** ** The file system, and the monad of asynchronous code *)

Record Dirent : Type := {
  name : string;
  isDirectory : bool
}.

(** What is stored at the cache path: nothing readable ([readFile]
    rejects), a text [JSON.parse] rejects, or a JSON text. *)
Inductive CacheFile : Type :=
| CacheUnreadable (e : Exn)
| CacheMalformed
| CacheJson (parsed : Json).

Definition ENOENT : Exn := ErrnoException "ENOENT" "no such file or directory".

Definition CacheMissing : CacheFile := CacheUnreadable ENOENT.

(** The host calls a run performs, in order. *)
Inductive Event : Type :=
| EvAccess (target : string)
| EvStat (target : string)
| EvReaddir (target : string)
| EvReadFile (target : string)
| EvOpenDatabase (target : string)
| EvCloseDatabase
| EvMkdir (target : string)
| EvWriteFile (target : string) (payload : CachePayload)
| EvConsoleError (message : string).

Record World : Type := {
  (** [fs.access]: [None] when it resolves, the rejection otherwise. *)
  fs_access : string -> option Exn;
  (** [fs.stat(p).mtimeMs]. *)
  fs_stat : string -> Result Z;
  (** [fs.readdir(p, { withFileTypes: true })]. *)
  fs_readdir : string -> Result (list Dirent);
  (** [getSqlInstance], [fs.readFile] of a database file and
      [new SQL.Database] of its bytes; the error is also that of the
      first statement on bytes that are no database (the [close] the
      source then still makes is not recorded). *)
  fs_database : string -> Result Database;
  (** The rejection of [fs.mkdir] / [fs.writeFile] at the cache path, if
      any. *)
  fs_mkdir : option Exn;
  fs_writeFile : option Exn;
  (** What a rejected [fs.writeFile] leaves at the cache path: the file
      as it was when the rejection came before the file was opened, a
      truncated text otherwise. *)
  fs_torn : CacheFile;
  (** The file at the cache path, the only path [readCache] and
      [writeCache] are called at. *)
  cacheFile : CacheFile;
  (** The trace, latest call last. *)
  trace : list Event
}.

Definition emit (ev : Event) (w : World) : World :=
  {| fs_access := fs_access w; fs_stat := fs_stat w; fs_readdir := fs_readdir w;
     fs_database := fs_database w; fs_mkdir := fs_mkdir w;
     fs_writeFile := fs_writeFile w; fs_torn := fs_torn w;
     cacheFile := cacheFile w;
     trace := (trace w ++ [ev])%list |}.

Definition storeCache (c : CacheFile) (w : World) : World :=
  {| fs_access := fs_access w; fs_stat := fs_stat w; fs_readdir := fs_readdir w;
     fs_database := fs_database w; fs_mkdir := fs_mkdir w;
     fs_writeFile := fs_writeFile w; fs_torn := fs_torn w;
     cacheFile := c;
     trace := trace w |}.

Definition M (A : Type) : Type := World -> Result A * World.

Definition ret {A} (a : A) : M A := fun w => (Ok a, w).

Definition throw {A} (e : Exn) : M A := fun w => (Throw e, w).

Definition bind {A B} (m : M A) (k : A -> M B) : M B :=
  fun w =>
    match m w with
    | (Ok a, w') => k a w'
    | (Throw e, w') => (Throw e, w')
    end.

(** [try { m } catch (error) { handler(error) }]. *)
Definition tryCatch {A} (m : M A) (handler : Exn -> M A) : M A :=
  fun w =>
    match m w with
    | (Ok a, w') => (Ok a, w')
    | (Throw e, w') => handler e w'
    end.

(** [try { m } finally { cleanup }], for a cleanup that does not throw. *)
Definition tryFinally {A} (m : M A) (cleanup : M unit) : M A :=
  fun w =>
    match m w with
    | (r, w') => (r, snd (cleanup w'))
    end.

(** A synchronous computation run inside asynchronous code. *)
Definition liftR {A} (r : Result A) : M A := fun w => (r, w).

Declare Scope js_scope.
Delimit Scope js_scope with js.
Notation "x <- m ;; k" := (bind m (fun x => k))
  (at level 61, m at next level, right associativity) : js_scope.
Notation "m ;; k" := (bind m (fun _ => k))
  (at level 61, right associativity) : js_scope.
Open Scope js_scope.

Definition access (target : string) : M unit :=
  fun w =>
    match fs_access w target with
    | None => (Ok tt, emit (EvAccess target) w)
    | Some e => (Throw e, emit (EvAccess target) w)
    end.

Definition stat (target : string) : M Z :=
  fun w => (fs_stat w target, emit (EvStat target) w).

Definition readdir (target : string) : M (list Dirent) :=
  fun w => (fs_readdir w target, emit (EvReaddir target) w).

Definition openDatabase (target : string) : M Database :=
  fun w => (fs_database w target, emit (EvOpenDatabase target) w).

Definition closeDatabase : M unit :=
  fun w => (Ok tt, emit EvCloseDatabase w).

Definition readCacheFile (cachePath : string) : M CacheFile :=
  fun w =>
    match cacheFile w with
    | CacheUnreadable e => (Throw e, emit (EvReadFile cachePath) w)
    | c => (Ok c, emit (EvReadFile cachePath) w)
    end.

Definition mkdir (target : string) : M unit :=
  fun w =>
    match fs_mkdir w with
    | None => (Ok tt, emit (EvMkdir target) w)
    | Some e => (Throw e, emit (EvMkdir target) w)
    end.

(** [fs.writeFile(cachePath, JSON.stringify(payload))]: what is read
    back and parsed later is the payload as JSON. *)
Definition payloadJson (payload : CachePayload) : Json :=
  JObject [("dbPath", JString (dbPath payload));
           ("mtimeMs", JNumber (mtimeMs payload));
           ("resources", JArray (resources payload))].

Definition writeFile (cachePath : string) (payload : CachePayload) : M unit :=
  fun w =>
    match fs_writeFile w with
    | None =>
        (Ok tt, storeCache (CacheJson (payloadJson payload))
                           (emit (EvWriteFile cachePath payload) w))
    | Some e =>
        (Throw e, storeCache (fs_torn w) (emit (EvWriteFile cachePath payload) w))
    end.

Definition consoleError (message : string) : M unit :=
  fun w => (Ok tt, emit (EvConsoleError message) w).

(* ================================================================= *)
(** ** Locating the catalog *)

Definition pathExists (target : string) : M bool :=
  tryCatch (access target ;; ret true)
           (fun error =>
              if hasCode error "ENOENT" then ret false else throw error).

Definition expandTilde (h : Host) (input : string) : string :=
  if negb (String.prefix "~" input) then input
  else path_join h [homedir h; slice1 input].

Definition NOT_FOUND_MESSAGE : string :=
  "catalog.db not found. Launch Logos once, then try again. You may need to grant Raycast Full Disk Access.".

Definition baseDirOf (h : Host) : string :=
  path_join h [homedir h; "Library"; "Application Support"; "Logos4"; "Data"].

(** The [for (const entry of entries)] loop of [resolveCatalog]. *)
Fixpoint scanEntries (h : Host) (baseDir : string) (entries : list Dirent)
    (candidates : list CatalogInfo) : M (list CatalogInfo) :=
  match entries with
  | [] => ret candidates
  | entry :: rest =>
      if negb (isDirectory entry) then scanEntries h baseDir rest candidates
      else
        let candidate := path_join h [baseDir; name entry; "LibraryCatalog"; "catalog.db"] in
        found <- pathExists candidate ;;
        if found then
          stats <- stat candidate ;;
          scanEntries h baseDir rest
            (candidates ++ [{| path := candidate; info_mtimeMs := stats |}])%list
        else scanEntries h baseDir rest candidates
  end.

Definition newestFirst (a b : CatalogInfo) : Z :=
  (info_mtimeMs b - info_mtimeMs a)%Z.

Definition resolveCatalog (h : Host) (preferences : Preferences) : M CatalogInfo :=
  let override := option_map trim (catalogPath preferences) in
  if truthy_opt override then
    let fullPath := expandTilde h (match override with Some o => o | None => "" end) in
    found <- pathExists fullPath ;;
    if negb found then throw (Error ("catalog.db not found at " ++ fullPath))
    else
      stats <- stat fullPath ;;
      ret {| path := fullPath; info_mtimeMs := stats |}
  else
    let baseDir := baseDirOf h in
    found <- pathExists baseDir ;;
    if negb found then throw (Error NOT_FOUND_MESSAGE)
    else
      entries <- readdir baseDir ;;
      candidates <- scanEntries h baseDir entries [] ;;
      match candidates with
      | [] => throw (Error NOT_FOUND_MESSAGE)
      | c :: _ => ret (hd c (sort newestFirst candidates))
      end.

(* ================================================================= *)
(** ** The cache *)

(** [JSON.parse] of what [readFile] returned. *)
Definition JSON_parse (contents : CacheFile) : Result Json :=
  match contents with
  | CacheJson parsed => Ok parsed
  | _ => Throw (Error "Unexpected token in JSON")
  end.

(** The shape test of [readCache]: [Array.isArray(parsed.resources)],
    [typeof parsed.dbPath === "string"] and
    [typeof parsed.mtimeMs === "number"], in that order. *)
Definition checkShape (parsed : Json) : Result (option CachePayload) :=
  bindR (getProperty parsed "resources") (fun r =>
    match r with
    | Some (JArray elements) =>
        bindR (getProperty parsed "dbPath") (fun d =>
          match d with
          | Some (JString p) =>
              bindR (getProperty parsed "mtimeMs") (fun m =>
                match m with
                | Some (JNumber n) =>
                    Ok (Some {| dbPath := p; mtimeMs := n; resources := elements |})
                | _ => Ok None
                end)
          | _ => Ok None
          end)
    | _ => Ok None
    end).

Definition readCache (cachePath : string) : M (option CachePayload) :=
  tryCatch
    (contents <- readCacheFile cachePath ;;
     parsed <- liftR (JSON_parse contents) ;;
     liftR (checkShape parsed))
    (fun error =>
       (if negb (hasCode error "ENOENT")
        then consoleError "Failed to read cache"
        else ret tt) ;;
       ret None).

Definition writeCache (h : Host) (cachePath : string) (payload : CachePayload)
  : M unit :=
  tryCatch
    (mkdir (path_dirname h cachePath) ;; writeFile cachePath payload)
    (fun error => consoleError "Failed to write cache").

(* ================================================================= *)
(** ** Loading *)

Definition readCatalogDatabase (h : Host) (dbPath : string) : M (list ResourceRow) :=
  database <- openDatabase dbPath ;;
  tryFinally
    (liftR (bindR (findResourceTable database) (fun tableInfo =>
            queryResources h database tableInfo)))
    closeDatabase.

(** What [loadCatalog] resolves to. *)
Record Catalog : Type := {
  cat_resources : list Json;
  cat_dbPath : string
}.

Definition cachePathOf (h : Host) : string :=
  path_join h [supportPath h; CACHE_FILENAME].

(** The guarded cache read of [loadCatalog]: the cached resources when
    the early [return] is taken. *)
Definition cachedResources (forceRefresh : bool) (cachePath : string)
    (catalogInfo : CatalogInfo) : M (option (list Json)) :=
  if negb forceRefresh then
    cached <- readCache cachePath ;;
    match cached with
    | Some c =>
        if (dbPath c =? path catalogInfo) && (mtimeMs c =? info_mtimeMs catalogInfo)%Z
        then ret (Some (resources c))
        else ret None
    | None => ret None
    end
  else ret None.

Definition loadCatalog (h : Host) (preferences : Preferences) (forceRefresh : bool)
  : M Catalog :=
  catalogInfo <- resolveCatalog h preferences ;;
  let cachePath := cachePathOf h in
  hit <- cachedResources forceRefresh cachePath catalogInfo ;;
  match hit with
  | Some cached =>
      ret {| cat_resources := cached; cat_dbPath := path catalogInfo |}
  | None =>
      rows <- readCatalogDatabase h (path catalogInfo) ;;
      let fresh := map toJson rows in
      writeCache h cachePath {| dbPath := path catalogInfo;
                                mtimeMs := info_mtimeMs catalogInfo;
                                resources := fresh |} ;;
      ret {| cat_resources := fresh; cat_dbPath := path catalogInfo |}
  end.

(* ================================================================= *)
(** ** Querying *)

(** The [fuse] memo: no index over an empty record set. *)
Definition fuseOf (h : Host) (resources : list Json)
  : option (string -> list FuseResult) :=
  match resources with
  | [] => None
  | _ => Some (Fuse_search h resources)
  end.

Definition PAGE_SIZE : nat := 50.

(** The [filteredResources] memo. *)
Definition filteredResources (h : Host) (resources : list Json) (searchText : string)
  : list Json :=
  match resources with
  | [] => []
  | _ =>
      let query := trim searchText in
      if negb (truthy query) then slice0 PAGE_SIZE resources
      else
        match fuseOf h resources with
        | None => []
        | Some fuse => slice0 PAGE_SIZE (map item (fuse query))
        end
  end.

(* ================================================================= *)
(** ** The command: opening a resource, rebuilding the index *)

(** [preferences.openScheme]. *)
Inductive OpenScheme : Type :=
| logosres
| logos4.

(** The desktop behind [open] and [showHUD]: the rejection of each
    call, if any.  [showToast] is taken not to reject. *)
Record Desktop : Type := {
  open_rejects : string -> option Exn;
  showHUD_rejects : string -> option Exn
}.

(** What [openResource] does to the desktop.  The message of the
    failure toast joins the cause and the list of URLs around a dash
    that lies outside the modelled code units; the toast is kept as
    its title and these two parts. *)
Inductive UiEvent : Type :=
| UiOpen (url : string)
| UiShowHUD (title : string)
| UiFailureToast (title : string) (cause : string) (tried : list string).

Definition logosResUrl (resourceId : string) : string :=
  "logosres:" ++ resourceId.

(** [encodeURIComponent] is a host function. *)
Definition logos4Url (encodeURIComponent : string -> string) (resourceId : string)
  : string :=
  "logos4:Open?resource=" ++ encodeURIComponent resourceId.

Definition primaryFirst (encodeURIComponent : string -> string)
    (openScheme : OpenScheme) (resourceId : string) : list string :=
  match openScheme with
  | logos4 => [logos4Url encodeURIComponent resourceId; logosResUrl resourceId]
  | logosres => [logosResUrl resourceId; logos4Url encodeURIComponent resourceId]
  end.

(** The [for (const url of primaryFirst)] loop: the calls made, whether
    the function returned from inside the loop, and [lastError]. *)
Fixpoint openEach (d : Desktop) (urls : list string) (lastError : option Exn)
  : list UiEvent * (bool * option Exn) :=
  match urls with
  | [] => ([], (false, lastError))
  | url :: rest =>
      match open_rejects d url with
      | Some error =>
          let '(events, outcome) := openEach d rest (Some error) in
          (UiOpen url :: events, outcome)
      | None =>
          match showHUD_rejects d "Opening in Logos" with
          | None => ([UiOpen url; UiShowHUD "Opening in Logos"], (true, lastError))
          | Some error =>
              let '(events, outcome) := openEach d rest (Some error) in
              (UiOpen url :: UiShowHUD "Opening in Logos" :: events, outcome)
          end
      end
  end.

(** [extractErrorMessage(lastError)], [lastError] possibly still
    [undefined]. *)
Definition messageOf (lastError : option Exn) : string :=
  match lastError with
  | Some error => extractErrorMessage error
  | None => "undefined"
  end.

Definition openResource (d : Desktop) (encodeURIComponent : string -> string)
    (openScheme : OpenScheme) (resourceId : string) : list UiEvent :=
  let urls := primaryFirst encodeURIComponent openScheme resourceId in
  match openEach d urls None with
  | (events, (true, _)) => events
  | (events, (false, lastError)) =>
      (events ++ [UiFailureToast "Could not open Logos" (messageOf lastError) urls])%list
  end.

(** The [State] of the command. *)
Record State : Type := {
  st_resources : list Json;
  st_dbPath : option string;
  st_isLoading : bool;
  st_error : option string
}.

Inductive ToastStyle : Type :=
| Animated
| Success
| Failure.

Record ToastView : Type := {
  toast_style : ToastStyle;
  toast_title : string;
  toast_message : option string
}.

(** The first [setState] of [rebuildIndex]. *)
Definition markLoading (forceRefresh : bool) (previous : State) : State :=
  {| st_resources := st_resources previous;
     st_dbPath := st_dbPath previous;
     st_isLoading := negb forceRefresh && (List.length (st_resources previous) =? 0)%nat;
     st_error := st_error previous |}.

(** What [rebuildIndex] leaves of the view: the state last set, the
    [isIndexing] flag, and the toast as last assigned.  The animated
    toast shown first carries a title outside the modelled code units;
    it is the toast the [try] and the [catch] then rewrite. *)
Record IndexView : Type := {
  view_state : State;
  view_isIndexing : bool;
  view_toast : option ToastView
}.

(** [rebuildIndex]: [setIsIndexing(true)], the first [setState], the
    awaited [showToast], then the [try], [catch] and [finally].
    [showToast_rejects] is the rejection of that [showToast], if any:
    it comes before the [try], so it propagates and the [finally] is
    not reached. *)
Definition rebuildIndex (h : Host) (preferences : Preferences) (forceRefresh : bool)
    (showToast_rejects : option Exn) (previous : State) (w : World)
  : Result unit * IndexView * World :=
  let loading := markLoading forceRefresh previous in
  match showToast_rejects with
  | Some error =>
      (Throw error,
       {| view_state := loading; view_isIndexing := true; view_toast := None |},
       w)
  | None =>
      match loadCatalog h preferences forceRefresh w with
      | (Ok catalog, w') =>
          (Ok tt,
           {| view_state :=
                {| st_resources := cat_resources catalog;
                   st_dbPath := Some (cat_dbPath catalog);
                   st_isLoading := false;
                   st_error := None |};
              view_isIndexing := false;
              view_toast :=
                Some {| toast_style := Success; toast_title := "Library indexed";
                        toast_message := None |} |},
           w')
      | (Throw error, w') =>
          let message := extractErrorMessage error in
          (Ok tt,
           {| view_state :=
                {| st_resources := []; st_dbPath := None; st_isLoading := false;
                   st_error := Some message |};
              view_isIndexing := false;
              view_toast :=
                Some {| toast_style := Failure; toast_title := "Indexing failed";
                        toast_message := Some message |} |},
           w')
      end
  end.

(** [showEmptyView], and the title and description of the empty view. *)
Definition showEmptyView (state : State) (isIndexing : bool) (filtered : list Json)
  : bool :=
  negb (st_isLoading state || isIndexing) && (List.length filtered =? 0)%nat.

Definition emptyViewTitle (state : State) : string :=
  if truthy_opt (st_error state) then "No resources indexed" else "No results".

Definition emptyViewDescription (state : State) : string :=
  match st_error state with
  | Some message => message
  | None => "Try a different search term or rebuild the index."
  end.

(* ================================================================= *)
(** ** Vocabulary for the further properties *)

(** The table names [findResourceTable] reads from [sqlite_master], and
    the order in which it tries tables: the known names, then the names
    present. *)
Definition tableNamesOf (db : Database) : StringSet :=
  match exec db SelectTableNames with
  | Ok tablesResult => collectTableNames tablesResult
  | Throw _ => []
  end.

Definition searchOrder (db : Database) : list string :=
  (RESOURCE_TABLE_CANDIDATES ++ tableNamesOf db)%list.

Definition NO_TABLE_MESSAGE : string :=
  "Could not find a resource table inside catalog.db".

(** A cell as text: nothing for [null], [String(value)] otherwise. *)
Definition textOf (v : SqlValue) : option string :=
  match v with
  | SqlNull => None
  | _ => Some (String_of v)
  end.

(** The text a row of a table holds in a column, if the column is
    given, exists and the cell is not null. *)
Definition fieldOf (t : Table) (row : list SqlValue) (column : option string)
  : option string :=
  match column with
  | Some c =>
      match columnIndex (tbl_columns t) c with
      | Some index => textOf (cell row index)
      | None => None
      end
  | None => None
  end.

(** What a row of the table is worth as a resource, said on its cells
    alone: the texts of its id and title cells when neither is null
    and neither text is empty, with the texts of its author and
    abbreviation cells, absent when there is no such column or the
    cell is null; nothing otherwise. *)
Definition recordOfRow (t : Table) (columns : TableInfo) (row : list SqlValue)
  : option ResourceRow :=
  match fieldOf t row (Some (idColumn columns)),
        fieldOf t row (Some (titleColumn columns)) with
  | Some idText, Some titleText =>
      if (idText =? "") || (titleText =? "") then None
      else Some {| id := idText; title := titleText;
                   author := fieldOf t row (authorColumn columns);
                   abbrev := fieldOf t row (abbrevColumn columns) |}
  | _, _ => None
  end.

(** The URL of the configured scheme, and the other one. *)
Definition preferredUrl (encodeURIComponent : string -> string)
    (openScheme : OpenScheme) (resourceId : string) : string :=
  match openScheme with
  | logos4 => logos4Url encodeURIComponent resourceId
  | logosres => logosResUrl resourceId
  end.

Definition fallbackUrl (encodeURIComponent : string -> string)
    (openScheme : OpenScheme) (resourceId : string) : string :=
  match openScheme with
  | logos4 => logosResUrl resourceId
  | logosres => logos4Url encodeURIComponent resourceId
  end.

(** The candidates a scan of the entries of the base directory finds
    in a world: for each directory entry, in order, the catalog file
    below it when it exists, with its mtime. *)
Definition catalogsBelow (h : Host) (w : World) (baseDir : string)
    (entries : list Dirent) : list CatalogInfo :=
  flat_map
    (fun entry =>
       if isDirectory entry then
         let candidate :=
           path_join h [baseDir; name entry; "LibraryCatalog"; "catalog.db"] in
         match fs_access w candidate, fs_stat w candidate with
         | None, Ok stats => [{| path := candidate; info_mtimeMs := stats |}]
         | _, _ => []
         end
       else [])
    entries.

(** The element of an optional value, as a list. *)
Definition present {A} (o : option A) : list A :=
  match o with
  | Some x => [x]
  | None => []
  end.

(** The aliases of the query of [queryResources], given whether an
    author and an abbreviation column are selected. *)
Definition aliasesOf {A B} (authorColumn : option A) (abbrevColumn : option B)
  : list string :=
  ("id" :: "title" :: map (fun _ => "author") (present authorColumn)
   ++ map (fun _ => "abbrev") (present abbrevColumn))%list.

(* ================================================================= *)
(** ** Relations between worlds *)

(** The payload a cache file holds for [readCache]: none when the file
    cannot be read, is no JSON text, or has another shape. *)
Definition payloadOf (c : CacheFile) : option CachePayload :=
  match c with
  | CacheJson parsed =>
      match checkShape parsed with
      | Ok (Some payload) => Some payload
      | _ => None
      end
  | _ => None
  end.

(** Missing, unreadable, malformed or wrong-shaped. *)
Definition unusable (c : CacheFile) : Prop := payloadOf c = None.

(** Two worlds with the same catalog files and directories; the cache
    file, the fate of cache writes and the trace may differ. *)
Definition sameDisk (w w' : World) : Prop :=
  fs_access w = fs_access w' /\ fs_stat w = fs_stat w'
  /\ fs_readdir w = fs_readdir w' /\ fs_database w = fs_database w'.

(** Two worlds with the same files, the cache file included, and the
    same rejections of cache writes. *)
Definition sameFiles (w w' : World) : Prop :=
  sameDisk w w' /\ fs_mkdir w = fs_mkdir w' /\ fs_writeFile w = fs_writeFile w'
  /\ cacheFile w = cacheFile w'.

(** A computation that writes no file. *)
Definition keepsFiles {A} (m : M A) : Prop :=
  forall w, sameFiles w (snd (m w)).

(** A computation whose result depends on the catalog files and
    directories only. *)
Definition agrees {A} (m : M A) : Prop :=
  forall w w', sameDisk w w' ->
    fst (m w) = fst (m w') /\ sameDisk (snd (m w)) (snd (m w')).

(* ================================================================= *)
(** ** Concrete installations, used to run the definitions *)

Module Sample.

(** Comparison by code units, a consistent stand-in for the collation
    order. *)
Definition codeUnitCompare (a b : string) : Z :=
  match String.compare a b with
  | Lt => (-1)%Z
  | Eq => 0%Z
  | Gt => 1%Z
  end.

Definition titleOf (j : Json) : string :=
  match getProperty j "title" with
  | Ok (Some (JString t)) => t
  | _ => ""
  end.

Definition contains (needle hay : string) : bool :=
  match String.index 0 needle hay with
  | Some _ => true
  | None => false
  end.

(** A stand-in for the index: the records whose lower-cased title
    contains the lower-cased query, in record order. *)
Definition substringSearch (records : list Json) (query : string) : list FuseResult :=
  map (fun '(i, j) => {| item := j; refIndex := i |})
      (filter (fun '(_, j) => contains (toLowerCase query) (toLowerCase (titleOf j)))
              (combine (seq 0 (List.length records)) records)).

Definition host : Host :=
  {| localeCompare := codeUnitCompare;
     path_join := String.concat "/";
     path_dirname := fun _ => "/Users/me/Library/Application Support/raycast";
     homedir := "/Users/me";
     supportPath := "/Users/me/Library/Application Support/raycast";
     Fuse_search := substringSearch |}.

(** A file system given by its files (with their mtime), its
    directories, its databases and the state of the cache; a rejected
    cache write leaves a truncated file. *)
Fixpoint assoc {A} (key : string) (l : list (string * A)) : option A :=
  match l with
  | [] => None
  | (k, v) :: r => if k =? key then Some v else assoc key r
  end.

Definition world (files : list (string * Z)) (dirs : list (string * list Dirent))
    (dbs : list (string * Database)) (cache : CacheFile)
    (mkdirError writeError : option Exn) : World :=
  {| fs_access := fun p =>
       match assoc p files, assoc p dirs with
       | None, None => Some ENOENT
       | _, _ => None
       end;
     fs_stat := fun p =>
       match assoc p files with
       | Some t => Ok t
       | None => match assoc p dirs with
                 | Some _ => Ok 0%Z
                 | None => Throw ENOENT
                 end
       end;
     fs_readdir := fun p =>
       match assoc p dirs with
       | Some entries => Ok entries
       | None => Throw ENOENT
       end;
     fs_database := fun p =>
       match assoc p dbs with
       | Some db => Ok db
       | None => Throw ENOENT
       end;
     fs_mkdir := mkdirError;
     fs_writeFile := writeError;
     fs_torn := CacheMalformed;
     cacheFile := cache;
     trace := [] |}.

(** Two qualifying tables with known names. *)
Definition twoTables : Database :=
  [ {| tbl_name := "Catalog"; tbl_columns := ["Id"; "Name"];
       tbl_rows := [[SqlInt 1; SqlText "From Catalog"]] |};
    {| tbl_name := "Resources"; tbl_columns := ["ResourceId"; "Title"];
       tbl_rows := [[SqlInt 2; SqlText "From Resources"]] |} ].

(** A library with a repeated id, an empty title, a null title, a
    numeric id and an empty blob as id. *)
Definition library : Database :=
  [ {| tbl_name := "Info"; tbl_columns := ["Version"];
       tbl_rows := [[SqlInt 7]] |};
    {| tbl_name := "Resource"; tbl_columns := ["ResourceId"; "Title"; "Author"];
       tbl_rows :=
         [ [SqlText "LLS:ROMANS"; SqlText "Romans"; SqlText "Moo"];
           [SqlText "LLS:GEN"; SqlText ""; SqlNull];
           [SqlText "LLS:GEN"; SqlText "Genesis"; SqlNull];
           [SqlText "LLS:ROMANS"; SqlText "A Second Romans"; SqlText "Schreiner"];
           [SqlInt 42; SqlText "Acts"; SqlText "Bock"];
           [SqlText "LLS:NULL"; SqlNull; SqlText "Nobody"];
           [SqlBlob []; SqlText "Blob"; SqlNull] ] |} ].

Definition baseDir : string := "/Users/me/Library/Application Support/Logos4/Data".
Definition catalogA : string := "/Users/me/Library/Application Support/Logos4/Data/a1b2/LibraryCatalog/catalog.db".
Definition catalogB : string := "/Users/me/Library/Application Support/Logos4/Data/c3d4/LibraryCatalog/catalog.db".
Definition catalogC : string := "/Users/me/Library/Application Support/Logos4/Data/e5f6/LibraryCatalog/catalog.db".
Definition catalogEmpty : string := "/Users/me/Library/Application Support/Logos4/Data/empty/LibraryCatalog/catalog.db".
Definition cachePath : string := "/Users/me/Library/Application Support/raycast/catalog-cache.json".

Definition accountFolders : list Dirent :=
  [ {| name := "a1b2"; isDirectory := true |};
    {| name := "notes.txt"; isDirectory := false |};
    {| name := "c3d4"; isDirectory := true |};
    {| name := "e5f6"; isDirectory := true |};
    {| name := "empty"; isDirectory := true |} ].

(** Three installed accounts; the two newest catalogs share their
    mtime. *)
Definition installed (cache : CacheFile) (mkdirError writeError : option Exn) : World :=
  world [(catalogA, 1000%Z); (catalogB, 2000%Z); (catalogC, 2000%Z)]
        [(baseDir, accountFolders)]
        [(catalogB, library)]
        cache mkdirError writeError.

(** The base directory is there, without any catalog below it. *)
Definition noCatalog : World :=
  world [] [(baseDir, [ {| name := "empty"; isDirectory := true |} ])] []
        CacheMissing None None.

(** Nothing is installed. *)
Definition notInstalled : World :=
  world [] [] [] CacheMissing None None.

(** A database without any table of resources. *)
Definition unrelated : Database :=
  [ {| tbl_name := "Info"; tbl_columns := ["Version"];
       tbl_rows := [[SqlInt 7]] |} ].

(** The resource table of [library]. *)
Definition resourceTable : Table :=
  {| tbl_name := "Resource"; tbl_columns := ["ResourceId"; "Title"; "Author"];
     tbl_rows :=
       [ [SqlText "LLS:ROMANS"; SqlText "Romans"; SqlText "Moo"];
         [SqlText "LLS:GEN"; SqlText ""; SqlNull];
         [SqlText "LLS:GEN"; SqlText "Genesis"; SqlNull];
         [SqlText "LLS:ROMANS"; SqlText "A Second Romans"; SqlText "Schreiner"];
         [SqlInt 42; SqlText "Acts"; SqlText "Bock"];
         [SqlText "LLS:NULL"; SqlNull; SqlText "Nobody"];
         [SqlBlob []; SqlText "Blob"; SqlNull] ] |}.

(** The schema inferred for [library], and what extraction returns. *)
Definition librarySchema : TableInfo :=
  {| tableName := "Resource"; idColumn := "ResourceId"; titleColumn := "Title";
     authorColumn := Some "Author"; abbrevColumn := None |}.

Definition extracted : list ResourceRow :=
  [ {| id := "42"; title := "Acts"; author := Some "Bock"; abbrev := None |};
    {| id := "LLS:GEN"; title := "Genesis"; author := None; abbrev := None |};
    {| id := "LLS:ROMANS"; title := "Romans"; author := Some "Moo"; abbrev := None |} ].

(** The candidates the scan of [installed] discovers, in enumeration
    order. *)
Definition discovered : list CatalogInfo :=
  [ {| path := catalogA; info_mtimeMs := 1000 |};
    {| path := catalogB; info_mtimeMs := 2000 |};
    {| path := catalogC; info_mtimeMs := 2000 |} ].

(** The newest catalog of [installed], first of the two that tie. *)
Definition newest : CatalogInfo :=
  {| path := catalogB; info_mtimeMs := 2000 |}.

(** A desktop on which only [logosres:] links open, and one on which
    nothing opens. *)
Definition onlyLogosres : Desktop :=
  {| open_rejects := fun url =>
       if String.prefix "logosres:" url then None
       else Some (Error "no application for logos4");
     showHUD_rejects := fun _ => None |}.

Definition noLogos : Desktop :=
  {| open_rejects := fun url =>
       if String.prefix "logosres:" url
       then Some (Error "no application for logosres")
       else Some (Error "no application for logos4");
     showHUD_rejects := fun _ => None |}.

Definition plain (s : string) : string := s.

Definition noOverride : Preferences := {| catalogPath := None |}.
Definition override (p : string) : Preferences := {| catalogPath := Some p |}.

Definition EACCES : Exn := ErrnoException "EACCES" "permission denied".

(** A home directory the process may not look into. *)
Definition locked : World :=
  {| fs_access := fun _ => Some EACCES;
     fs_stat := fun _ => Throw EACCES;
     fs_readdir := fun _ => Throw EACCES;
     fs_database := fun _ => Throw EACCES;
     fs_mkdir := None;
     fs_writeFile := None;
     fs_torn := CacheMalformed;
     cacheFile := CacheMissing;
     trace := [] |}.

(** A cache whose records were not produced by [queryResources]: an
    empty id and title, a repeated id, titles out of order and an
    element that is no object. *)
Definition looseRecords : list Json :=
  [ JObject [("id", JString "x"); ("title", JString "Zechariah")];
    JObject [("id", JString ""); ("title", JString "")];
    JObject [("id", JString "x"); ("title", JString "Amos")];
    JNumber 5 ].

Definition looseCache : CacheFile :=
  CacheJson (JObject [("dbPath", JString catalogB);
                      ("mtimeMs", JNumber 2000);
                      ("resources", JArray looseRecords)]).

End Sample.

(* ================================================================= *)
(** ** Facts about the built-ins *)

Section SortFacts.

Context {A : Type} (compareFn : A -> A -> Z).

Lemma sort_insert_perm (x : A) (l : list A) :
  Permutation (x :: l) (sort_insert compareFn x l).
Proof.
  induction l as [|y r IH]; simpl.
  - reflexivity.
  - destruct (compareFn x y <=? 0)%Z.
    + reflexivity.
    + rewrite perm_swap. now constructor.
Qed.

Lemma sort_perm (l : list A) : Permutation l (sort compareFn l).
Proof.
  induction l as [|x r IH]; simpl.
  - constructor.
  - rewrite <- sort_insert_perm. now constructor.
Qed.

Lemma sort_insert_sorted (x : A) (l : list A) :
  consistentComparator compareFn ->
  StronglySorted (precedes compareFn) l ->
  StronglySorted (precedes compareFn) (sort_insert compareFn x l).
Proof.
  intros [total trans]. induction l as [|y r IH]; intros sorted; simpl.
  - repeat constructor.
  - inversion sorted as [|? ? sorted_r below]; subst.
    destruct (compareFn x y <=? 0)%Z eqn:le.
    + apply Z.leb_le in le. constructor; [assumption|].
      constructor; [exact le|].
      rewrite Forall_forall in *. intros z inz.
      apply (trans x y z); [exact le | now apply below].
    + apply Z.leb_gt in le. constructor; [now apply IH|].
      apply (Permutation_Forall (sort_insert_perm x r)).
      constructor; [|assumption].
      destruct (total x y) as [xy|yx]; [unfold precedes in xy; lia | exact yx].
Qed.

Lemma sort_sorted (l : list A) :
  consistentComparator compareFn ->
  StronglySorted (precedes compareFn) (sort compareFn l).
Proof.
  intros consistent. induction l as [|x r IH]; simpl.
  - constructor.
  - now apply sort_insert_sorted.
Qed.

Lemma hd_sort_insert (d x : A) (l : list A) :
  hd d (sort_insert compareFn x l) =
  match l with
  | [] => x
  | y :: _ => if (compareFn x y <=? 0)%Z then x else y
  end.
Proof.
  destruct l as [|y r]; simpl; [reflexivity|].
  now destruct (compareFn x y <=? 0)%Z.
Qed.

Lemma sort_nil_inv (l : list A) : sort compareFn l = [] -> l = [].
Proof.
  intros e. apply Permutation_nil. rewrite <- e. symmetry. apply sort_perm.
Qed.

End SortFacts.

Lemma trimEnd_empty (s : string) : trimEnd s = "" <-> whitespaceOnly s = true.
Proof.
  induction s as [|c r IH]; simpl.
  - tauto.
  - destruct (trimEnd r) eqn:tr.
    + destruct (isWhiteSpace c); simpl.
      * rewrite <- IH. tauto.
      * split; discriminate.
    + split; [discriminate|]. intros ws.
      apply andb_true_iff in ws. destruct ws as [_ ws].
      apply IH in ws. discriminate.
Qed.

Lemma whitespaceOnly_trimStart (s : string) :
  whitespaceOnly (trimStart s) = whitespaceOnly s.
Proof.
  induction s as [|c r IH]; simpl; [reflexivity|].
  destruct (isWhiteSpace c) eqn:ws; simpl; [assumption|].
  now rewrite ws.
Qed.

Lemma trim_empty (s : string) : trim s = "" <-> whitespaceOnly s = true.
Proof.
  unfold trim. now rewrite trimEnd_empty, whitespaceOnly_trimStart.
Qed.

Lemma truthy_false (s : string) : truthy s = false <-> s = "".
Proof.
  unfold truthy. rewrite negb_false_iff. apply String.eqb_eq.
Qed.

Lemma truthy_true (s : string) : truthy s = true <-> s <> "".
Proof.
  unfold truthy. rewrite negb_true_iff. apply String.eqb_neq.
Qed.

Lemma includes_In (l : list string) (x : string) :
  includes l x = true <-> In x l.
Proof.
  unfold includes. rewrite existsb_exists. split.
  - intros [y [iny e]]. apply String.eqb_eq in e. now subst.
  - intros inx. exists x. split; [assumption | apply String.eqb_refl].
Qed.

Lemma Set_add_In (s : StringSet) (x y : string) :
  In y (Set_add s x) <-> y = x \/ In y s.
Proof.
  unfold Set_add, Set_has. destruct (includes s x) eqn:has.
  - apply includes_In in has. split; [tauto|]. intros [->|iny]; assumption.
  - rewrite in_app_iff. simpl. intuition congruence.
Qed.

Lemma Set_has_add (s : StringSet) (x y : string) :
  Set_has (Set_add s x) y = (y =? x) || Set_has s y.
Proof.
  unfold Set_has. apply eq_true_iff_eq.
  rewrite orb_true_iff, !includes_In, Set_add_In, String.eqb_eq. tauto.
Qed.

Lemma unquoteBody_escape (s : string) :
  unquoteBody (escapeQuotes s ++ String dquote EmptyString) = Some s.
Proof.
  induction s as [|c r IH]; [reflexivity|].
  cbn [escapeQuotes]. destruct (Ascii.eqb c dquote) eqn:isq.
  - apply Ascii.eqb_eq in isq. subst c.
    change (unquoteBody (String dquote (String dquote
              (escapeQuotes r ++ String dquote EmptyString))) = Some (String dquote r)).
    cbn [unquoteBody]. rewrite Ascii.eqb_refl, IH. reflexivity.
  - change (unquoteBody (String c (escapeQuotes r ++ String dquote EmptyString))
            = Some (String c r)).
    cbn [unquoteBody]. rewrite isq, IH. reflexivity.
Qed.

Lemma unquote_quote (s : string) :
  unquoteIdentifier (quoteIdentifier s) = Some s.
Proof.
  unfold unquoteIdentifier, quoteIdentifier.
  rewrite Ascii.eqb_refl. apply unquoteBody_escape.
Qed.

(* ================================================================= *)
(** ** Schema inference: the table chosen *)

Lemma map_snd_combine_seq {A} (l : list A) (start : nat) :
  map snd (combine (seq start (List.length l)) l) = l.
Proof.
  revert start. induction l as [|x r IH]; intros start; simpl.
  - reflexivity.
  - now rewrite IH.
Qed.

Lemma tableInfoRows_names (cols : list string) :
  map (fun row => String_of (cell row 1)) (tableInfoRows cols) = cols.
Proof.
  unfold tableInfoRows. rewrite map_map.
  etransitivity; [|apply (map_snd_combine_seq cols 0)].
  apply map_ext. now intros [cid name].
Qed.

(** The pragma never throws: it returns the columns of the table the
    name resolves to, and nothing when there is no such table. *)
Lemma pragmaColumns_spec (db : Database) (tableName : string) :
  pragmaColumns db tableName =
  match findTable db tableName with
  | Some t =>
      match tbl_columns t with
      | [] => Ok None
      | cols => Ok (Some cols)
      end
  | None => Ok None
  end.
Proof.
  unfold pragmaColumns, exec. rewrite unquote_quote.
  destruct (findTable db tableName) as [t|]; [|reflexivity].
  pose proof (tableInfoRows_names (tbl_columns t)) as names.
  destruct (tbl_columns t) as [|c cols]; [reflexivity|].
  simpl in *. now rewrite names.
Qed.

Lemma pragmaColumns_total (db : Database) (tableName : string) :
  exists r, pragmaColumns db tableName = Ok r.
Proof.
  rewrite pragmaColumns_spec.
  destruct (findTable db tableName) as [t|]; [|now eexists].
  destruct (tbl_columns t); now eexists.
Qed.

(** One turn of the table loop on a name that passes the guard: a
    qualifying table is returned at once, any other is passed over. *)
Lemma findResourceTable_from_step (db : Database) (tableNames : StringSet)
    (candidate : string) (rest : list string) :
  Set_has tableNames candidate || includes RESOURCE_TABLE_CANDIDATES candidate = true ->
  if qualifies db candidate
  then exists info,
      findResourceTable_from db tableNames (candidate :: rest) = Ok info
      /\ tableName info = candidate
  else findResourceTable_from db tableNames (candidate :: rest)
       = findResourceTable_from db tableNames rest.
Proof.
  intros guard. cbn [findResourceTable_from].
  replace (negb (Set_has tableNames candidate)
           && negb (includes RESOURCE_TABLE_CANDIDATES candidate)) with false
    by (rewrite <- negb_orb, guard; reflexivity).
  unfold qualifies.
  destruct (pragmaColumns_total db candidate) as [[cols|] ->]; cbn [bindR];
    [|reflexivity].
  destruct (findColumn cols ID_COLUMN_CANDIDATES) as [idc|];
    destruct (findColumn cols TITLE_COLUMN_CANDIDATES) as [titlec|];
    cbn [truthy_opt andb]; try reflexivity.
  - destruct (truthy idc); destruct (truthy titlec); cbn; try reflexivity.
    eexists. split; reflexivity.
  - destruct (truthy idc); reflexivity.
Qed.

(** What an inferred schema says about the database it came from. *)
Lemma findResourceTable_from_inv (db : Database) (tableNames : StringSet)
    (orderedTables : list string) (info : TableInfo) :
  findResourceTable_from db tableNames orderedTables = Ok info ->
  exists cols,
    pragmaColumns db (tableName info) = Ok (Some cols)
    /\ findColumn cols ID_COLUMN_CANDIDATES = Some (idColumn info)
    /\ findColumn cols TITLE_COLUMN_CANDIDATES = Some (titleColumn info)
    /\ authorColumn info = findColumn cols AUTHOR_COLUMN_CANDIDATES
    /\ abbrevColumn info = findColumn cols ABBREV_COLUMN_CANDIDATES.
Proof.
  induction orderedTables as [|name rest IH]; cbn [findResourceTable_from].
  - discriminate.
  - destruct (negb (Set_has tableNames name)
              && negb (includes RESOURCE_TABLE_CANDIDATES name)); [exact IH|].
    destruct (pragmaColumns db name) as [[cols|]|e] eqn:pragma; cbn [bindR];
      [|exact IH|discriminate].
    destruct (findColumn cols ID_COLUMN_CANDIDATES) as [idc|] eqn:fid;
      [|exact IH].
    destruct (findColumn cols TITLE_COLUMN_CANDIDATES) as [titlec|] eqn:ftitle;
      [|exact IH].
    destruct (negb (truthy idc) || negb (truthy titlec)); [exact IH|].
    intros [= <-]. exists cols.
    cbn [tableName idColumn titleColumn authorColumn abbrevColumn].
    repeat split; assumption.
Qed.

Lemma findResourceTable_inv (db : Database) (info : TableInfo) :
  findResourceTable db = Ok info ->
  exists cols,
    pragmaColumns db (tableName info) = Ok (Some cols)
    /\ findColumn cols ID_COLUMN_CANDIDATES = Some (idColumn info)
    /\ findColumn cols TITLE_COLUMN_CANDIDATES = Some (titleColumn info)
    /\ authorColumn info = findColumn cols AUTHOR_COLUMN_CANDIDATES
    /\ abbrevColumn info = findColumn cols ABBREV_COLUMN_CANDIDATES.
Proof.
  unfold findResourceTable. cbn [exec bindR].
  apply findResourceTable_from_inv.
Qed.

(** C1, as stated, fails: with qualifying tables "Resources" and
    "Catalog" and no other, inference returns "Resources", not
    "Catalog". *)
Lemma C1_picks_Resources_not_Catalog :
  qualifies Sample.twoTables "Resources" = true
  /\ qualifies Sample.twoTables "Catalog" = true
  /\ exists info,
       findResourceTable Sample.twoTables = Ok info
       /\ tableName info = "Resources"
       /\ tableName info <> "Catalog".
Proof.
  split; [reflexivity|]. split; [reflexivity|].
  eexists. split; [reflexivity|]. split; [reflexivity | discriminate].
Qed.

(** C1, amended: in every database in which the tables "Resources" and
    "Catalog" both qualify, schema inference succeeds and returns the
    table "Resource" when that one qualifies too and the table
    "Resources" otherwise, never "Catalog": in the known-table priority
    list "Resource" and "Resources" come before "Catalog". *)
Theorem C1_inference_prefers_Resources (db : Database) :
  qualifies db "Resources" = true ->
  qualifies db "Catalog" = true ->
  exists info,
    findResourceTable db = Ok info
    /\ tableName info = (if qualifies db "Resource" then "Resource" else "Resources")
    /\ tableName info <> "Catalog".
Proof.
  intros resources _.
  unfold findResourceTable. cbn [exec bindR].
  change (RESOURCE_TABLE_CANDIDATES ++ ?names)%list
    with ("Resource" :: "Resources"
          :: ["LibraryCatalog"; "Catalog"; "LibraryResources"] ++ names)%list.
  set (names := collectTableNames _).
  set (rest := (_ ++ names)%list).
  pose proof (findResourceTable_from_step db names "Resource" ("Resources" :: rest))
    as first.
  pose proof (findResourceTable_from_step db names "Resources" rest) as second.
  rewrite resources in second.
  destruct second as [info [found named]]; [apply orb_true_r|].
  destruct (qualifies db "Resource").
  - destruct first as [info' [found' named']]; [apply orb_true_r|].
    exists info'. rewrite named'. repeat split; [assumption | discriminate].
  - rewrite first by apply orb_true_r.
    exists info. rewrite named. repeat split; [assumption | discriminate].
Qed.

Lemma C1_inference_prefers_Resources_witness :
  exists info,
    findResourceTable Sample.twoTables = Ok info
    /\ tableName info
       = (if qualifies Sample.twoTables "Resource" then "Resource" else "Resources")
    /\ tableName info <> "Catalog".
Proof.
  apply (C1_inference_prefers_Resources Sample.twoTables); reflexivity.
Defined.

(* ================================================================= *)
(** ** Extraction: the records returned *)

Lemma collectRows_keepFirst (columnNames : list string)
    (rows : list (list SqlValue)) (items : list ResourceRow) (seen : StringSet) :
  collectRows columnNames rows items seen
  = (items ++ keepFirst seen (recordsOf columnNames rows))%list.
Proof.
  revert items seen. induction rows as [|row rest IH]; intros items seen.
  - simpl. now rewrite app_nil_r.
  - cbn [collectRows recordsOf flat_map].
    fold (recordsOf columnNames rest).
    destruct (rowRecord columnNames row) as [record|]; cbn [app keepFirst].
    + destruct (Set_has seen (id record)); [apply IH|].
      rewrite IH, <- app_assoc. reflexivity.
    + apply IH.
Qed.

Lemma firstWithId_cons (i : string) (x : ResourceRow) (rest : list ResourceRow) :
  firstWithId i (x :: rest) = if id x =? i then Some x else firstWithId i rest.
Proof. reflexivity. Qed.

Lemma keepFirst_In (seen : StringSet) (records : list ResourceRow) (r : ResourceRow) :
  In r (keepFirst seen records) ->
  Set_has seen (id r) = false /\ firstWithId (id r) records = Some r.
Proof.
  revert seen. induction records as [|x rest IH]; intros seen; cbn [keepFirst].
  - intros [].
  - rewrite firstWithId_cons.
    destruct (Set_has seen (id x)) eqn:has.
    + intros inr. destruct (IH _ inr) as [fresh first]. split; [assumption|].
      destruct (id x =? id r) eqn:same; [|assumption].
      apply String.eqb_eq in same. congruence.
    + intros [<-|inr].
      * now rewrite String.eqb_refl.
      * destruct (IH _ inr) as [fresh first].
        rewrite Set_has_add in fresh. apply orb_false_iff in fresh.
        destruct fresh as [other fresh]. split; [assumption|].
        rewrite String.eqb_sym, other. assumption.
Qed.

Lemma keepFirst_complete (seen : StringSet) (records : list ResourceRow)
    (i : string) (r : ResourceRow) :
  Set_has seen i = false ->
  firstWithId i records = Some r ->
  In r (keepFirst seen records).
Proof.
  revert seen. induction records as [|x rest IH]; intros seen fresh;
    cbn [keepFirst].
  - discriminate.
  - rewrite firstWithId_cons. destruct (id x =? i) eqn:same.
    + intros [= <-]. apply String.eqb_eq in same. subst i.
      rewrite fresh. now left.
    + intros first. destruct (Set_has seen (id x)); [now apply IH|].
      right. apply IH; [|assumption].
      rewrite Set_has_add, String.eqb_sym, same. assumption.
Qed.

Lemma keepFirst_NoDup (seen : StringSet) (records : list ResourceRow) :
  NoDup (map id (keepFirst seen records)).
Proof.
  revert seen. induction records as [|x rest IH]; intros seen; cbn [keepFirst].
  - constructor.
  - destruct (Set_has seen (id x)); [apply IH|].
    cbn [map]. constructor; [|apply IH].
    intros again. apply in_map_iff in again. destruct again as [r [same inr]].
    apply keepFirst_In in inr. destruct inr as [fresh _].
    rewrite Set_has_add, same, String.eqb_refl in fresh. discriminate.
Qed.

Lemma rowRecord_usable (columnNames : list string) (row : list SqlValue)
    (r : ResourceRow) :
  rowRecord columnNames row = Some r -> id r <> "" /\ title r <> "".
Proof.
  unfold rowRecord.
  destruct (p_id _) as [i|]; [|discriminate].
  destruct (p_title _) as [t|]; [|discriminate].
  destruct (truthy i) eqn:ti; destruct (truthy t) eqn:tt; cbn; try discriminate.
  intros [= <-]. cbn. now rewrite <- !truthy_true.
Qed.

Lemma recordsOf_usable (columnNames : list string) (rows : list (list SqlValue))
    (r : ResourceRow) :
  In r (recordsOf columnNames rows) -> id r <> "" /\ title r <> "".
Proof.
  unfold recordsOf. rewrite in_flat_map. intros [row [_ inr]].
  destruct (rowRecord columnNames row) as [r'|] eqn:built; [|destruct inr].
  destruct inr as [<-|[]]. eapply rowRecord_usable, built.
Qed.

(** Whatever the schema, a result of [queryResources] is a rearrangement
    of the usable records of the source rows, each id kept once. *)
Lemma queryResources_records (h : Host) (db : Database) (columns : TableInfo)
    (items : list ResourceRow) :
  queryResources h db columns = Ok items ->
  exists kept,
    kept = keepFirst [] (usableRecords db columns)
    /\ items = sort (compareTitles h) kept.
Proof.
  unfold queryResources, usableRecords.
  destruct (exec db (queryOf columns)) as [[|first rest]|e]; cbn [bindR].
  - intros [= <-]. now exists [].
  - intros [= <-]. rewrite collectRows_keepFirst. cbn [app]. now eexists.
  - discriminate.
Qed.

(** On an inferred schema the query runs. *)
Lemma findColumn_from_In (columns lowerCaseColumns candidates : list string)
    (c : string) :
  findColumn_from columns lowerCaseColumns candidates = Some c -> In c columns.
Proof.
  induction candidates as [|candidate rest IH]; cbn [findColumn_from].
  - discriminate.
  - destruct (indexOf lowerCaseColumns candidate) as [index|]; [|exact IH].
    apply nth_error_In.
Qed.

Lemma findColumn_In (columns candidates : list string) (c : string) :
  findColumn columns candidates = Some c -> In c columns.
Proof. apply findColumn_from_In. Qed.

Lemma columnIndex_In (cols : list string) (c : string) :
  In c cols -> exists i, columnIndex cols c = Some i.
Proof.
  induction cols as [|x rest IH]; [intros []|].
  intros inc. cbn [columnIndex].
  destruct (sameName x c) eqn:same; [now eexists|].
  destruct inc as [->|inc].
  - unfold sameName in same. now rewrite String.eqb_refl in same.
  - destruct (IH inc) as [i ->]. now eexists.
Qed.

Lemma resolveColumns_ok (cols : list string) (names : list string) :
  Forall (fun c => In c cols) names ->
  exists picked, resolveColumns cols (map quoteIdentifier names) = Ok picked.
Proof.
  induction 1 as [|c rest inc _ IH]; cbn [map resolveColumns].
  - now eexists.
  - rewrite unquote_quote.
    destruct (columnIndex_In cols c inc) as [i ->].
    destruct IH as [picked ->]. now eexists.
Qed.

Lemma selectColumnsOf_names (columns : TableInfo) :
  exists names,
    map fst (selectColumnsOf columns) = map quoteIdentifier names
    /\ forall c, In c names ->
         c = idColumn columns \/ c = titleColumn columns
         \/ authorColumn columns = Some c \/ abbrevColumn columns = Some c.
Proof.
  unfold selectColumnsOf.
  destruct (authorColumn columns) as [a|]; destruct (abbrevColumn columns) as [b|];
    cbn [truthy_opt];
    repeat match goal with |- context [truthy ?s] => destruct (truthy s) end;
    cbn [app map fst];
    match goal with
    | |- exists names, ?l = map quoteIdentifier names /\ _ =>
        match l with
        | [quoteIdentifier ?x; quoteIdentifier ?y] => exists [x; y]
        | [quoteIdentifier ?x; quoteIdentifier ?y; quoteIdentifier ?z] =>
            exists [x; y; z]
        | [quoteIdentifier ?x; quoteIdentifier ?y; quoteIdentifier ?z;
           quoteIdentifier ?u] => exists [x; y; z; u]
        end
    end;
    (split; [reflexivity|]); cbn [In]; intros c inc;
    repeat (destruct inc as [<-|inc]; [tauto|]); destruct inc.
Qed.

Lemma queryResources_total (h : Host) (db : Database) (columns : TableInfo) :
  findResourceTable db = Ok columns ->
  exists items, queryResources h db columns = Ok items.
Proof.
  intros inferred.
  destruct (findResourceTable_inv db columns inferred)
    as [cols [pragma [fid [ftitle [fauthor fabbrev]]]]].
  rewrite pragmaColumns_spec in pragma.
  destruct (findTable db (tableName columns)) as [t|] eqn:found; [|discriminate].
  assert (tbl_columns t = cols) as <-
    by (destruct (tbl_columns t); [discriminate | congruence]).
  apply findColumn_In in fid, ftitle.
  destruct (selectColumnsOf_names columns) as [names [quoted among]].
  destruct (resolveColumns_ok (tbl_columns t) names) as [picked selected].
  { apply Forall_forall. intros c inc.
    destruct (among c inc) as [->|[->|[isauthor|isabbrev]]]; try assumption.
    - rewrite fauthor in isauthor. eapply findColumn_In, isauthor.
    - rewrite fabbrev in isabbrev. eapply findColumn_In, isabbrev. }
  destruct (resolveColumns_ok (tbl_columns t) [idColumn columns; titleColumn columns])
    as [guards guarded].
  { repeat constructor; assumption. }
  unfold queryResources, queryOf, exec.
  rewrite unquote_quote, found, quoted, selected. cbn [bindR].
  cbn [map] in guarded. rewrite guarded. cbn [bindR].
  destruct (results _ _); now eexists.
Qed.


Lemma compareTitles_consistent (h : Host) :
  consistentComparator (localeCompare h) ->
  consistentComparator (compareTitles h).
Proof.
  intros [total trans]. split.
  - intros a b. apply total.
  - intros a b c. apply trans.
Qed.

Lemma codeUnitCompare_precedes (a b : string) :
  precedes Sample.codeUnitCompare a b <-> String.compare a b <> Gt.
Proof.
  unfold precedes, Sample.codeUnitCompare.
  destruct (String.compare a b); split; intros; try lia; try discriminate;
    congruence.
Qed.

Lemma codeUnitCompare_consistent : consistentComparator Sample.codeUnitCompare.
Proof.
  split.
  - intros a b. rewrite !codeUnitCompare_precedes.
    rewrite (String.compare_antisym b a).
    destruct (String.compare a b); cbn; [left|left|right]; discriminate.
  - intros a b c. rewrite !codeUnitCompare_precedes. intros ab bc.
    destruct (String.compare a b) eqn:cab; [| |congruence].
    + apply String.compare_eq_iff in cab. now subst b.
    + destruct (String.compare b c) eqn:cbc; [| |congruence].
      * apply String.compare_eq_iff in cbc. subst c. rewrite cab. discriminate.
      * apply OrderedTypeEx.String_as_OT.cmp_lt in cab, cbc.
        pose proof (OrderedTypeEx.String_as_OT.lt_trans _ _ _ cab cbc) as ac.
        apply OrderedTypeEx.String_as_OT.cmp_lt in ac.
        unfold OrderedTypeEx.String_as_OT.cmp in ac. rewrite ac. discriminate.
Qed.

(** C5: whenever the collation order is a consistent comparator, the
    record sequence extraction returns is sorted ascending by title
    under it: no record is followed, anywhere later in the sequence, by
    one whose title compares strictly before its own. *)
Theorem C5_records_sorted_by_title
    (h : Host) (db : Database) (columns : TableInfo) (items : list ResourceRow) :
  consistentComparator (localeCompare h) ->
  queryResources h db columns = Ok items ->
  StronglySorted (fun a b => (localeCompare h (title a) (title b) <= 0)%Z) items.
Proof.
  intros consistent returned.
  destruct (queryResources_records h db columns items returned)
    as [kept [_ ->]].
  apply (sort_sorted (compareTitles h)).
  now apply compareTitles_consistent.
Qed.

Lemma C5_records_sorted_by_title_witness :
  StronglySorted
    (fun a b => (localeCompare Sample.host (title a) (title b) <= 0)%Z)
    Sample.extracted.
Proof.
  apply (C5_records_sorted_by_title Sample.host Sample.library
           Sample.librarySchema Sample.extracted).
  - exact codeUnitCompare_consistent.
  - reflexivity.
Defined.

(* ================================================================= *)
(** ** Querying the loaded records *)

Lemma firstn_Forall {A} (P : A -> Prop) (n : nat) (l : list A) :
  Forall P l -> Forall P (firstn n l).
Proof.
  intros all. revert n. induction all as [|x r px _ IH]; intros [|n]; cbn;
    constructor; auto.
Qed.

Lemma firstn_StronglySorted {A} (R : A -> A -> Prop) (n : nat) (l : list A) :
  StronglySorted R l -> StronglySorted R (firstn n l).
Proof.
  intros sorted. revert n.
  induction sorted as [|x r _ IH below]; intros [|n]; cbn; constructor.
  - apply IH.
  - now apply firstn_Forall.
Qed.

(** C6: on a blank query (empty, or white space only) the result is the
    first 50 records in the order they are held, whatever the index
    would score, so sorted whenever the held records are; on any other
    query for which the index finds nothing the result is the empty
    sequence; and over an empty record set every query gives the empty
    sequence.  The function is total: no case raises. *)
Theorem C6_blank_query_page_and_empty_results
    (h : Host) (records : list Json) (searchText : string) :
  (whitespaceOnly searchText = true ->
   filteredResources h records searchText = firstn 50 records
   /\ forall R : Json -> Json -> Prop,
        StronglySorted R records ->
        StronglySorted R (filteredResources h records searchText))
  /\ (whitespaceOnly searchText = false ->
      Fuse_search h records (trim searchText) = [] ->
      filteredResources h records searchText = [])
  /\ filteredResources h [] searchText = [].
Proof.
  split; [|split]; [| |reflexivity].
  - intros blank. apply trim_empty in blank.
    assert (filteredResources h records searchText = firstn 50 records) as page.
    { unfold filteredResources. rewrite blank. cbn.
      destruct records; reflexivity. }
    split; [exact page|].
    intros R sorted. rewrite page. now apply firstn_StronglySorted.
  - intros filled nothing.
    assert (truthy (trim searchText) = true) as nonblank.
    { apply truthy_true. intros e. apply trim_empty in e. congruence. }
    unfold filteredResources, fuseOf. rewrite nonblank.
    destruct records; [reflexivity|]. cbn [negb]. now rewrite nothing.
Qed.

Lemma C6_blank_query_page_and_empty_results_witness :
  filteredResources Sample.host Sample.looseRecords "  "
    = firstn 50 Sample.looseRecords
  /\ filteredResources Sample.host Sample.looseRecords " qq " = []
  /\ filteredResources Sample.host [] "amos" = [].
Proof.
  split; [|split].
  - apply (C6_blank_query_page_and_empty_results
             Sample.host Sample.looseRecords "  "). reflexivity.
  - apply (C6_blank_query_page_and_empty_results
             Sample.host Sample.looseRecords " qq "); reflexivity.
  - apply (C6_blank_query_page_and_empty_results Sample.host [] "amos").
Defined.

(* ================================================================= *)
(** ** Locating the catalog *)

Lemma pathExists_found (target : string) (w : World) :
  fs_access w target = None ->
  pathExists target w = (Ok true, emit (EvAccess target) w).
Proof.
  intros there. unfold pathExists, tryCatch, bind, access. now rewrite there.
Qed.

Lemma pathExists_missing (target : string) (w : World) (e : Exn) :
  fs_access w target = Some e ->
  code e = Some "ENOENT" ->
  pathExists target w = (Ok false, emit (EvAccess target) w).
Proof.
  intros rejected enoent.
  unfold pathExists, tryCatch, bind, access, hasCode.
  now rewrite rejected, enoent.
Qed.

(** C7: when the configured override path, trimmed, is not blank and its
    expanded form does not exist, resolution throws an error whose
    message names that expanded path, and the only host call made is
    the existence test of that path: the base directory is neither
    tested nor read. *)
Theorem C7_missing_override_fails_without_scan
    (h : Host) (preferences : Preferences) (configured : string)
    (w : World) (e : Exn) :
  catalogPath preferences = Some configured ->
  trim configured <> "" ->
  fs_access w (expandTilde h (trim configured)) = Some e ->
  code e = Some "ENOENT" ->
  fst (resolveCatalog h preferences w)
    = Throw (Error ("catalog.db not found at " ++ expandTilde h (trim configured)))
  /\ trace (snd (resolveCatalog h preferences w))
     = (trace w ++ [EvAccess (expandTilde h (trim configured))])%list.
Proof.
  intros set nonblank rejected enoent.
  apply truthy_true in nonblank.
  unfold resolveCatalog. rewrite set. cbn [option_map truthy_opt].
  rewrite nonblank. unfold bind.
  rewrite (pathExists_missing _ _ _ rejected enoent). cbn. split; reflexivity.
Qed.

Lemma C7_missing_override_fails_without_scan_witness :
  fst (resolveCatalog Sample.host (Sample.override " ~/catalog.db ")
         (Sample.installed CacheMissing None None))
    = Throw (Error "catalog.db not found at /Users/me//catalog.db")
  /\ trace (snd (resolveCatalog Sample.host (Sample.override " ~/catalog.db ")
                   (Sample.installed CacheMissing None None)))
     = [EvAccess "/Users/me//catalog.db"].
Proof.
  apply (C7_missing_override_fails_without_scan
           Sample.host (Sample.override " ~/catalog.db ") " ~/catalog.db "
           (Sample.installed CacheMissing None None) ENOENT).
  - reflexivity.
  - discriminate.
  - reflexivity.
  - reflexivity.
Defined.

(** The head of the candidates sorted newest first is the first of the
    candidates that no other exceeds. *)
Lemma newestFirst_head (candidates : list CatalogInfo) (c0 : CatalogInfo) :
  candidates <> [] ->
  exists before chosen after,
    candidates = (before ++ chosen :: after)%list
    /\ hd c0 (sort newestFirst candidates) = chosen
    /\ (forall x, In x before -> (info_mtimeMs x < info_mtimeMs chosen)%Z)
    /\ (forall y, In y after -> (info_mtimeMs y <= info_mtimeMs chosen)%Z).
Proof.
  induction candidates as [|x rest IH]; [congruence|]. intros _.
  cbn [sort]. rewrite hd_sort_insert.
  destruct rest as [|y rest'].
  - exists [], x, []. cbn. repeat split; intros ? [].
  - destruct IH as [before [chosen [after [split_rest [head [older notnewer]]]]]];
      [discriminate|].
    destruct (sort newestFirst (y :: rest')) as [|s sorted] eqn:sorted_rest.
    { apply sort_nil_inv in sorted_rest. discriminate. }
    cbn [hd] in head. subst s.
    destruct (newestFirst x chosen <=? 0)%Z eqn:le.
    + apply Z.leb_le in le. unfold newestFirst in le.
      exists [], x, (y :: rest'). repeat split; [intros ? []|].
      intros z inz. rewrite split_rest in inz. apply in_app_iff in inz.
      destruct inz as [inz|[<-|inz]].
      * specialize (older z inz). lia.
      * lia.
      * specialize (notnewer z inz). lia.
    + apply Z.leb_gt in le. unfold newestFirst in le.
      exists (x :: before), chosen, after. rewrite split_rest.
      repeat split; [|assumption].
      intros z [<-|inz]; [lia | now apply older].
Qed.

(** C8: when no override is configured and the scan of the base
    directory discovers a non-empty list of candidates, the locator
    returns one of them, no candidate has a greater mtime, and every
    candidate enumerated before the returned one has a strictly smaller
    mtime: among the candidates of greatest mtime the first in
    enumeration order is returned. *)
Theorem C8_newest_catalog_first_on_ties
    (h : Host) (preferences : Preferences) (w w1 w2 w3 : World)
    (entries : list Dirent) (candidates : list CatalogInfo) :
  truthy_opt (option_map trim (catalogPath preferences)) = false ->
  pathExists (baseDirOf h) w = (Ok true, w1) ->
  readdir (baseDirOf h) w1 = (Ok entries, w2) ->
  scanEntries h (baseDirOf h) entries [] w2 = (Ok candidates, w3) ->
  candidates <> [] ->
  exists before chosen after,
    resolveCatalog h preferences w = (Ok chosen, w3)
    /\ candidates = (before ++ chosen :: after)%list
    /\ (forall x, In x before -> (info_mtimeMs x < info_mtimeMs chosen)%Z)
    /\ (forall y, In y after -> (info_mtimeMs y <= info_mtimeMs chosen)%Z).
Proof.
  intros unset exists_base listed scanned nonempty.
  unfold resolveCatalog. rewrite unset. unfold bind at 1.
  rewrite exists_base. cbn [negb]. unfold bind at 1. rewrite listed.
  unfold bind at 1. rewrite scanned.
  destruct candidates as [|c rest]; [congruence|].
  destruct (newestFirst_head (c :: rest) c nonempty)
    as [before [chosen [after [split_all [head [older notnewer]]]]]].
  exists before, chosen, after. unfold ret. rewrite head. now repeat split.
Qed.

Lemma C8_newest_catalog_first_on_ties_witness :
  exists before chosen after,
    fst (resolveCatalog Sample.host Sample.noOverride
           (Sample.installed CacheMissing None None)) = Ok chosen
    /\ Sample.discovered = (before ++ chosen :: after)%list
    /\ (forall x, In x before -> (info_mtimeMs x < info_mtimeMs chosen)%Z)
    /\ (forall y, In y after -> (info_mtimeMs y <= info_mtimeMs chosen)%Z).
Proof.
  destruct (C8_newest_catalog_first_on_ties
              Sample.host Sample.noOverride
              (Sample.installed CacheMissing None None)
              (emit (EvAccess Sample.baseDir)
                    (Sample.installed CacheMissing None None))
              (emit (EvReaddir Sample.baseDir)
                    (emit (EvAccess Sample.baseDir)
                          (Sample.installed CacheMissing None None)))
              (snd (scanEntries Sample.host Sample.baseDir Sample.accountFolders []
                      (emit (EvReaddir Sample.baseDir)
                            (emit (EvAccess Sample.baseDir)
                                  (Sample.installed CacheMissing None None)))))
              Sample.accountFolders Sample.discovered)
    as [before [chosen [after [resolved facts]]]].
  - reflexivity.
  - vm_compute. reflexivity.
  - vm_compute. reflexivity.
  - vm_compute. reflexivity.
  - discriminate.
  - exists before, chosen, after. rewrite resolved.
    split; [reflexivity | exact facts].
Defined.

(** C9, as stated, fails: with nothing installed and with a base
    directory that holds no catalog, resolution throws the same
    message, so it is false that the two messages differ. *)
Lemma C9_messages_do_not_differ :
  ~ (exists missing empty,
       fst (resolveCatalog Sample.host Sample.noOverride Sample.notInstalled)
         = Throw (Error missing)
       /\ fst (resolveCatalog Sample.host Sample.noOverride Sample.noCatalog)
          = Throw (Error empty)
       /\ missing <> empty).
Proof.
  intros [missing [empty [thrown1 [thrown2 differ]]]].
  vm_compute in thrown1, thrown2. congruence.
Qed.

(** C9, amended: when auto-discovery is used, the failure raised because
    the base installation directory is missing and the failure raised
    because the base directory exists but holds no catalog candidate
    are the same kind of error and carry the same message, the
    remediation hint [NOT_FOUND_MESSAGE]. *)
Theorem C9_one_not_found_failure
    (h : Host) (preferences : Preferences) (w w1 w' w1' w2' w3' : World)
    (entries : list Dirent) :
  truthy_opt (option_map trim (catalogPath preferences)) = false ->
  pathExists (baseDirOf h) w = (Ok false, w1) ->
  pathExists (baseDirOf h) w' = (Ok true, w1') ->
  readdir (baseDirOf h) w1' = (Ok entries, w2') ->
  scanEntries h (baseDirOf h) entries [] w2' = (Ok [], w3') ->
  fst (resolveCatalog h preferences w) = Throw (Error NOT_FOUND_MESSAGE)
  /\ fst (resolveCatalog h preferences w') = Throw (Error NOT_FOUND_MESSAGE).
Proof.
  intros unset missing exists_base listed scanned.
  unfold resolveCatalog. rewrite unset. split.
  - unfold bind. now rewrite missing.
  - unfold bind at 1. rewrite exists_base. cbn [negb].
    unfold bind at 1. rewrite listed. unfold bind. now rewrite scanned.
Qed.

Lemma C9_one_not_found_failure_witness :
  fst (resolveCatalog Sample.host Sample.noOverride Sample.notInstalled)
    = Throw (Error NOT_FOUND_MESSAGE)
  /\ fst (resolveCatalog Sample.host Sample.noOverride Sample.noCatalog)
     = Throw (Error NOT_FOUND_MESSAGE).
Proof.
  apply (C9_one_not_found_failure
           Sample.host Sample.noOverride
           Sample.notInstalled
           (emit (EvAccess Sample.baseDir) Sample.notInstalled)
           Sample.noCatalog
           (emit (EvAccess Sample.baseDir) Sample.noCatalog)
           (emit (EvReaddir Sample.baseDir)
                 (emit (EvAccess Sample.baseDir) Sample.noCatalog))
           (emit (EvAccess Sample.catalogEmpty)
                 (emit (EvReaddir Sample.baseDir)
                       (emit (EvAccess Sample.baseDir) Sample.noCatalog)))
           [ {| name := "empty"; isDirectory := true |} ]).
  - reflexivity.
  - vm_compute. reflexivity.
  - vm_compute. reflexivity.
  - vm_compute. reflexivity.
  - vm_compute. reflexivity.
Defined.

(* ================================================================= *)
(** ** Computations and the files *)

Lemma sameDisk_refl (w : World) : sameDisk w w.
Proof. repeat split. Qed.

Lemma sameDisk_sym (w w' : World) : sameDisk w w' -> sameDisk w' w.
Proof. unfold sameDisk. intuition congruence. Qed.

Lemma sameDisk_trans (w1 w2 w3 : World) :
  sameDisk w1 w2 -> sameDisk w2 w3 -> sameDisk w1 w3.
Proof. unfold sameDisk. intuition congruence. Qed.

Lemma sameFiles_refl (w : World) : sameFiles w w.
Proof. repeat split. Qed.

Lemma sameFiles_trans (w1 w2 w3 : World) :
  sameFiles w1 w2 -> sameFiles w2 w3 -> sameFiles w1 w3.
Proof. unfold sameFiles, sameDisk. intuition congruence. Qed.

Lemma sameFiles_emit (ev : Event) (w : World) : sameFiles w (emit ev w).
Proof. repeat split. Qed.

Lemma sameDisk_emit (ev ev' : Event) (w w' : World) :
  sameDisk w w' -> sameDisk (emit ev w) (emit ev' w').
Proof. intros same. exact same. Qed.

Section Combinators.

Context {A B : Type}.

Lemma keeps_ret (a : A) : keepsFiles (ret a).
Proof. intros w. apply sameFiles_refl. Qed.

Lemma keeps_throw (e : Exn) : keepsFiles (@throw A e).
Proof. intros w. apply sameFiles_refl. Qed.

Lemma keeps_liftR (r : Result A) : keepsFiles (liftR r).
Proof. intros w. apply sameFiles_refl. Qed.

Lemma keeps_bind (m : M A) (k : A -> M B) :
  keepsFiles m -> (forall a, keepsFiles (k a)) -> keepsFiles (bind m k).
Proof.
  intros km kk w. unfold bind. specialize (km w).
  destruct (m w) as [[a|e] w1]; cbn [snd] in *.
  - eapply sameFiles_trans; [exact km | apply kk].
  - exact km.
Qed.

Lemma keeps_tryCatch (m : M A) (handler : Exn -> M A) :
  keepsFiles m -> (forall e, keepsFiles (handler e)) ->
  keepsFiles (tryCatch m handler).
Proof.
  intros km kh w. unfold tryCatch. specialize (km w).
  destruct (m w) as [[a|e] w1]; cbn [snd] in *.
  - exact km.
  - eapply sameFiles_trans; [exact km | apply kh].
Qed.

Lemma keeps_tryFinally (m : M A) (cleanup : M unit) :
  keepsFiles m -> keepsFiles cleanup -> keepsFiles (tryFinally m cleanup).
Proof.
  intros km kc w. unfold tryFinally. specialize (km w).
  destruct (m w) as [r w1]; cbn [snd] in *.
  eapply sameFiles_trans; [exact km | apply kc].
Qed.

Lemma agrees_ret (a : A) : agrees (ret a).
Proof. intros w w' same. now split. Qed.

Lemma agrees_throw (e : Exn) : agrees (@throw A e).
Proof. intros w w' same. now split. Qed.

Lemma agrees_liftR (r : Result A) : agrees (liftR r).
Proof. intros w w' same. now split. Qed.

Lemma agrees_bind (m : M A) (k : A -> M B) :
  agrees m -> (forall a, agrees (k a)) -> agrees (bind m k).
Proof.
  intros am ak w w' same. unfold bind. specialize (am w w' same).
  destruct (m w) as [[a|e] w1]; destruct (m w') as [[a'|e'] w1'];
    cbn [fst snd] in *; destruct am as [same_result same1];
    try discriminate; injection same_result as <-.
  - now apply ak.
  - now split.
Qed.

Lemma agrees_tryCatch (m : M A) (handler : Exn -> M A) :
  agrees m -> (forall e, agrees (handler e)) -> agrees (tryCatch m handler).
Proof.
  intros am ah w w' same. unfold tryCatch. specialize (am w w' same).
  destruct (m w) as [[a|e] w1]; destruct (m w') as [[a'|e'] w1'];
    cbn [fst snd] in *; destruct am as [same_result same1];
    try discriminate; injection same_result as <-.
  - now split.
  - now apply ah.
Qed.

Lemma agrees_tryFinally (m : M A) (cleanup : M unit) :
  agrees m -> agrees cleanup -> agrees (tryFinally m cleanup).
Proof.
  intros am ac w w' same. unfold tryFinally. specialize (am w w' same).
  destruct (m w) as [r w1]; destruct (m w') as [r' w1'];
    cbn [fst snd] in *. destruct am as [-> same1].
  split; [reflexivity | now apply ac].
Qed.

End Combinators.

Ltac files_of_call :=
  let w := fresh "w" in
  intros w; cbv beta delta [access stat readdir openDatabase closeDatabase
                            readCacheFile mkdir consoleError];
  repeat match goal with
         | |- context [match ?x with _ => _ end] => destruct x
         end;
  apply sameFiles_emit.

Lemma keeps_access (target : string) : keepsFiles (access target).
Proof. files_of_call. Qed.

Lemma keeps_stat (target : string) : keepsFiles (stat target).
Proof. files_of_call. Qed.

Lemma keeps_readdir (target : string) : keepsFiles (readdir target).
Proof. files_of_call. Qed.

Lemma keeps_readCacheFile (cachePath : string) : keepsFiles (readCacheFile cachePath).
Proof. files_of_call. Qed.

Lemma keeps_consoleError (message : string) : keepsFiles (consoleError message).
Proof. files_of_call. Qed.

Lemma agrees_access (target : string) : agrees (access target).
Proof.
  intros w w' same. unfold access.
  destruct same as [same_access rest]. rewrite <- same_access.
  destruct (fs_access w target); (split; [reflexivity|]);
    apply sameDisk_emit; now split.
Qed.

Lemma agrees_stat (target : string) : agrees (stat target).
Proof.
  intros w w' same. unfold stat. cbn [fst snd].
  split; [|now apply sameDisk_emit].
  destruct same as [_ [same_stat _]]. now rewrite same_stat.
Qed.

Lemma agrees_readdir (target : string) : agrees (readdir target).
Proof.
  intros w w' same. unfold readdir. cbn [fst snd].
  split; [|now apply sameDisk_emit].
  destruct same as [_ [_ [same_readdir _]]]. now rewrite same_readdir.
Qed.

Lemma agrees_openDatabase (target : string) : agrees (openDatabase target).
Proof.
  intros w w' same. unfold openDatabase. cbn [fst snd].
  split; [|now apply sameDisk_emit].
  destruct same as [_ [_ [_ same_database]]]. now rewrite same_database.
Qed.

Lemma agrees_closeDatabase : agrees closeDatabase.
Proof.
  intros w w' same. unfold closeDatabase. cbn [fst snd].
  split; [reflexivity | now apply sameDisk_emit].
Qed.

Lemma keeps_pathExists (target : string) : keepsFiles (pathExists target).
Proof.
  apply keeps_tryCatch.
  - apply keeps_bind; [apply keeps_access | intros; apply keeps_ret].
  - intros e. destruct (hasCode e "ENOENT"); [apply keeps_ret | apply keeps_throw].
Qed.

Lemma agrees_pathExists (target : string) : agrees (pathExists target).
Proof.
  apply agrees_tryCatch.
  - apply agrees_bind; [apply agrees_access | intros; apply agrees_ret].
  - intros e. destruct (hasCode e "ENOENT"); [apply agrees_ret | apply agrees_throw].
Qed.

(** Both properties go through the structure of a computation. *)
Ltac keeps_step :=
  first
    [ apply keeps_ret | apply keeps_throw | apply keeps_liftR
    | apply keeps_access | apply keeps_stat | apply keeps_readdir
    | apply keeps_readCacheFile | apply keeps_consoleError
    | apply keeps_pathExists
    | apply keeps_bind | apply keeps_tryCatch | apply keeps_tryFinally
    | match goal with
      | |- forall _, _ => intro
      | |- keepsFiles (if ?b then _ else _) => destruct b
      | |- keepsFiles (match ?x with _ => _ end) => destruct x
      end ].

Ltac agrees_step :=
  first
    [ apply agrees_ret | apply agrees_throw | apply agrees_liftR
    | apply agrees_access | apply agrees_stat | apply agrees_readdir
    | apply agrees_openDatabase | apply agrees_closeDatabase
    | apply agrees_pathExists
    | apply agrees_bind | apply agrees_tryCatch | apply agrees_tryFinally
    | match goal with
      | |- forall _, _ => intro
      | |- agrees (if ?b then _ else _) => destruct b
      | |- agrees (match ?x with _ => _ end) => destruct x
      end ].

Lemma keeps_scanEntries (h : Host) (baseDir : string) (entries : list Dirent)
    (candidates : list CatalogInfo) :
  keepsFiles (scanEntries h baseDir entries candidates).
Proof.
  revert candidates. induction entries as [|entry rest IH]; intros candidates;
    cbn [scanEntries].
  - apply keeps_ret.
  - destruct (negb (isDirectory entry)); [apply IH|].
    apply keeps_bind; [apply keeps_pathExists|]. intros [|]; [|apply IH].
    apply keeps_bind; [apply keeps_stat|]. intros stats. apply IH.
Qed.

Lemma agrees_scanEntries (h : Host) (baseDir : string) (entries : list Dirent)
    (candidates : list CatalogInfo) :
  agrees (scanEntries h baseDir entries candidates).
Proof.
  revert candidates. induction entries as [|entry rest IH]; intros candidates;
    cbn [scanEntries].
  - apply agrees_ret.
  - destruct (negb (isDirectory entry)); [apply IH|].
    apply agrees_bind; [apply agrees_pathExists|]. intros [|]; [|apply IH].
    apply agrees_bind; [apply agrees_stat|]. intros stats. apply IH.
Qed.

Lemma keeps_resolveCatalog (h : Host) (preferences : Preferences) :
  keepsFiles (resolveCatalog h preferences).
Proof.
  unfold resolveCatalog.
  destruct (truthy_opt (option_map trim (catalogPath preferences))).
  - repeat keeps_step.
  - apply keeps_bind; [apply keeps_pathExists|]. intros [|]; [|apply keeps_throw].
    cbn [negb]. apply keeps_bind; [apply keeps_readdir|]. intros entries.
    apply keeps_bind; [apply keeps_scanEntries|]. intros [|c rest];
      [apply keeps_throw | apply keeps_ret].
Qed.

Lemma agrees_resolveCatalog (h : Host) (preferences : Preferences) :
  agrees (resolveCatalog h preferences).
Proof.
  unfold resolveCatalog.
  destruct (truthy_opt (option_map trim (catalogPath preferences))).
  - repeat agrees_step.
  - apply agrees_bind; [apply agrees_pathExists|]. intros [|]; [|apply agrees_throw].
    cbn [negb]. apply agrees_bind; [apply agrees_readdir|]. intros entries.
    apply agrees_bind; [apply agrees_scanEntries|]. intros [|c rest];
      [apply agrees_throw | apply agrees_ret].
Qed.

(* ================================================================= *)
(** ** The cache and the load *)

Lemma keeps_readCache (cachePath : string) : keepsFiles (readCache cachePath).
Proof. unfold readCache. repeat keeps_step. Qed.

(** [readCache] never throws: it returns the payload the file holds, or
    nothing. *)
Lemma readCache_result (cachePath : string) (w : World) :
  fst (readCache cachePath w) = Ok (payloadOf (cacheFile w)).
Proof.
  unfold readCache, tryCatch, bind, readCacheFile, liftR, payloadOf.
  destruct (cacheFile w) as [e| |parsed]; cbn [JSON_parse].
  - destruct (negb (hasCode e "ENOENT")); reflexivity.
  - reflexivity.
  - destruct (checkShape parsed) as [[payload|]|e]; try reflexivity.
    destruct (negb (hasCode e "ENOENT")); reflexivity.
Qed.

(** On a usable file the only call is the read. *)
Lemma readCache_hit_trace (cachePath : string) (w : World) (payload : CachePayload) :
  payloadOf (cacheFile w) = Some payload ->
  trace (snd (readCache cachePath w)) = (trace w ++ [EvReadFile cachePath])%list.
Proof.
  unfold readCache, tryCatch, bind, readCacheFile, liftR, payloadOf.
  destruct (cacheFile w) as [e| |parsed]; try discriminate. cbn [JSON_parse].
  destruct (checkShape parsed) as [[p|]|e]; try discriminate. reflexivity.
Qed.

(** [writeCache] never throws. *)
Lemma writeCache_result (h : Host) (cachePath : string) (payload : CachePayload)
    (w : World) :
  fst (writeCache h cachePath payload w) = Ok tt.
Proof.
  unfold writeCache, tryCatch, bind, mkdir, writeFile, consoleError.
  destruct (fs_mkdir w); [reflexivity|]. cbn [fs_writeFile emit].
  destruct (fs_writeFile w); reflexivity.
Qed.

(** A write that meets no rejection stores the payload. *)
Lemma writeCache_stores (h : Host) (cachePath : string) (payload : CachePayload)
    (w : World) :
  fs_mkdir w = None -> fs_writeFile w = None ->
  cacheFile (snd (writeCache h cachePath payload w)) = CacheJson (payloadJson payload).
Proof.
  intros made written.
  unfold writeCache, tryCatch, bind, mkdir, writeFile.
  rewrite made. cbn [fs_writeFile emit]. now rewrite written.
Qed.

(** The rows read from a database file: the result of inference and
    extraction on the database the file holds. *)
Lemma readCatalogDatabase_result (h : Host) (p : string) (w : World) :
  fst (readCatalogDatabase h p w)
  = bindR (fs_database w p) (fun database =>
      bindR (findResourceTable database) (queryResources h database)).
Proof.
  unfold readCatalogDatabase, bind, openDatabase, tryFinally, liftR.
  destruct (fs_database w p); reflexivity.
Qed.

Lemma agrees_readCatalogDatabase (h : Host) (p : string) :
  agrees (readCatalogDatabase h p).
Proof. unfold readCatalogDatabase. repeat agrees_step. Qed.

Lemma readCache_run (cachePath : string) (w : World) :
  readCache cachePath w
  = (Ok (payloadOf (cacheFile w)), snd (readCache cachePath w)).
Proof.
  pose proof (readCache_result cachePath w) as result.
  destruct (readCache cachePath w) as [r w']. cbn [fst snd] in *. now subst r.
Qed.

Lemma cachedResources_forced (cachePath : string) (info : CatalogInfo) (w : World) :
  cachedResources true cachePath info w = (Ok None, w).
Proof. reflexivity. Qed.

Lemma cachedResources_unforced (cachePath : string) (info : CatalogInfo) (w : World) :
  cachedResources false cachePath info w
  = (Ok match payloadOf (cacheFile w) with
        | Some c =>
            if (dbPath c =? path info) && (mtimeMs c =? info_mtimeMs info)%Z
            then Some (resources c) else None
        | None => None
        end,
     snd (readCache cachePath w)).
Proof.
  unfold cachedResources. cbn [negb]. unfold bind.
  rewrite readCache_run.
  destruct (payloadOf (cacheFile w)) as [c|]; [|reflexivity].
  destruct ((dbPath c =? path info) && (mtimeMs c =? info_mtimeMs info)%Z);
    reflexivity.
Qed.

Lemma loadCatalog_resolved (h : Host) (preferences : Preferences) (forceRefresh : bool)
    (w w1 : World) (info : CatalogInfo) :
  resolveCatalog h preferences w = (Ok info, w1) ->
  loadCatalog h preferences forceRefresh w
  = bind (cachedResources forceRefresh (cachePathOf h) info)
      (fun hit =>
         match hit with
         | Some cached => ret {| cat_resources := cached; cat_dbPath := path info |}
         | None =>
             rows <- readCatalogDatabase h (path info) ;;
             writeCache h (cachePathOf h)
               {| dbPath := path info; mtimeMs := info_mtimeMs info;
                  resources := map toJson rows |} ;;
             ret {| cat_resources := map toJson rows; cat_dbPath := path info |}
         end) w1.
Proof.
  intros resolved. unfold loadCatalog. unfold bind at 1. now rewrite resolved.
Qed.

Lemma loadCatalog_unresolved (h : Host) (preferences : Preferences)
    (forceRefresh : bool) (w w1 : World) (e : Exn) :
  resolveCatalog h preferences w = (Throw e, w1) ->
  loadCatalog h preferences forceRefresh w = (Throw e, w1).
Proof.
  intros failed. unfold loadCatalog. unfold bind at 1. now rewrite failed.
Qed.

Lemma loadCatalog_hit (h : Host) (preferences : Preferences) (forceRefresh : bool)
    (w w1 w2 : World) (info : CatalogInfo) (cached : list Json) :
  resolveCatalog h preferences w = (Ok info, w1) ->
  cachedResources forceRefresh (cachePathOf h) info w1 = (Ok (Some cached), w2) ->
  loadCatalog h preferences forceRefresh w
  = (Ok {| cat_resources := cached; cat_dbPath := path info |}, w2).
Proof.
  intros resolved hit. rewrite (loadCatalog_resolved _ _ _ _ _ _ resolved).
  unfold bind at 1. now rewrite hit.
Qed.

(** The path taken without a usable, fresh cache: extraction, then a
    write that cannot fail the load. *)
Lemma loadCatalog_miss (h : Host) (preferences : Preferences) (forceRefresh : bool)
    (w w1 w2 : World) (info : CatalogInfo) :
  resolveCatalog h preferences w = (Ok info, w1) ->
  cachedResources forceRefresh (cachePathOf h) info w1 = (Ok None, w2) ->
  match readCatalogDatabase h (path info) w2 with
  | (Ok rows, w3) =>
      let payload := {| dbPath := path info; mtimeMs := info_mtimeMs info;
                        resources := map toJson rows |} in
      loadCatalog h preferences forceRefresh w
      = (Ok {| cat_resources := map toJson rows; cat_dbPath := path info |},
         snd (writeCache h (cachePathOf h) payload w3))
      /\ (fs_mkdir w3 = None -> fs_writeFile w3 = None ->
          cacheFile (snd (loadCatalog h preferences forceRefresh w))
          = CacheJson (payloadJson payload))
  | (Throw e, w3) => loadCatalog h preferences forceRefresh w = (Throw e, w3)
  end.
Proof.
  intros resolved miss.
  assert (loadCatalog h preferences forceRefresh w
          = match readCatalogDatabase h (path info) w2 with
            | (Ok rows, w3) =>
                (Ok {| cat_resources := map toJson rows; cat_dbPath := path info |},
                 snd (writeCache h (cachePathOf h)
                        {| dbPath := path info; mtimeMs := info_mtimeMs info;
                           resources := map toJson rows |} w3))
            | (Throw e, w3) => (Throw e, w3)
            end) as run.
  { rewrite (loadCatalog_resolved _ _ _ _ _ _ resolved).
    unfold bind. rewrite miss.
    destruct (readCatalogDatabase h (path info) w2) as [[rows|e] w3];
      [|reflexivity].
    pose proof (writeCache_result h (cachePathOf h)
                  {| dbPath := path info; mtimeMs := info_mtimeMs info;
                     resources := map toJson rows |} w3) as ok.
    destruct (writeCache _ _ _ w3) as [r w4]. cbn [fst snd] in *. now subst r. }
  rewrite run.
  destruct (readCatalogDatabase h (path info) w2) as [[rows|e] w3];
    [|reflexivity].
  cbn zeta. split; [reflexivity|].
  intros made stored. cbn [snd]. now apply writeCache_stores.
Qed.

(** C3: once the catalog location is resolved, [loadCatalog] takes one
    of two paths.  Either the refresh is not forced and [readCache]
    returns a payload whose [dbPath] and [mtimeMs] equal those of the
    location: then the cached sequence is returned and the cache read
    is the only call made after resolution, the database being neither
    opened nor the cache written.  Or the refresh is forced, or no
    payload is readable, or its path or its mtime differs: then the
    database is read, a failure of that read is the load's failure, and
    otherwise the fresh records are returned after [writeCache] has
    been run on them (storing them when the write meets no
    rejection). *)
Theorem C3_cache_used_exactly_when_fresh
    (h : Host) (preferences : Preferences) (forceRefresh : bool)
    (w w1 : World) (info : CatalogInfo) :
  resolveCatalog h preferences w = (Ok info, w1) ->
  (forceRefresh = false
   /\ exists payload,
        fst (readCache (cachePathOf h) w1) = Ok (Some payload)
        /\ dbPath payload = path info
        /\ mtimeMs payload = info_mtimeMs info
        /\ loadCatalog h preferences forceRefresh w
           = (Ok {| cat_resources := resources payload; cat_dbPath := path info |},
              snd (readCache (cachePathOf h) w1))
        /\ trace (snd (loadCatalog h preferences forceRefresh w))
           = (trace w1 ++ [EvReadFile (cachePathOf h)])%list)
  \/
  ((forceRefresh = true
    \/ fst (readCache (cachePathOf h) w1) = Ok None
    \/ exists payload,
         fst (readCache (cachePathOf h) w1) = Ok (Some payload)
         /\ (dbPath payload <> path info \/ mtimeMs payload <> info_mtimeMs info))
   /\ match readCatalogDatabase h (path info)
              (if forceRefresh then w1 else snd (readCache (cachePathOf h) w1)) with
      | (Ok rows, w3) =>
          let payload := {| dbPath := path info; mtimeMs := info_mtimeMs info;
                            resources := map toJson rows |} in
          loadCatalog h preferences forceRefresh w
          = (Ok {| cat_resources := map toJson rows; cat_dbPath := path info |},
             snd (writeCache h (cachePathOf h) payload w3))
          /\ (fs_mkdir w3 = None -> fs_writeFile w3 = None ->
              cacheFile (snd (loadCatalog h preferences forceRefresh w))
              = CacheJson (payloadJson payload))
      | (Throw e, w3) => loadCatalog h preferences forceRefresh w = (Throw e, w3)
      end).
Proof.
  intros resolved. rewrite readCache_result.
  destruct forceRefresh.
  - right. split; [now left|].
    apply (loadCatalog_miss h preferences true w w1 w1 info resolved).
    apply cachedResources_forced.
  - pose proof (cachedResources_unforced (cachePathOf h) info w1) as read.
    destruct (payloadOf (cacheFile w1)) as [payload|] eqn:held.
    + destruct (dbPath payload =? path info) eqn:same_path;
        [destruct (mtimeMs payload =? info_mtimeMs info)%Z eqn:same_mtime|];
        cbn [andb] in read.
      * left. split; [reflexivity|]. exists payload.
        apply String.eqb_eq in same_path. apply Z.eqb_eq in same_mtime.
        pose proof (loadCatalog_hit h preferences false w w1 _ info _ resolved read)
          as hit.
        repeat split; try assumption.
        rewrite hit. cbn [snd]. now apply (readCache_hit_trace _ _ payload).
      * right. split.
        { right. right. exists payload. split; [reflexivity|]. right.
          now apply Z.eqb_neq. }
        apply (loadCatalog_miss h preferences false w w1 _ info resolved read).
      * right. split.
        { right. right. exists payload. split; [reflexivity|]. left.
          now apply String.eqb_neq. }
        apply (loadCatalog_miss h preferences false w w1 _ info resolved read).
    + right. split; [right; now left|].
      apply (loadCatalog_miss h preferences false w w1 _ info resolved read).
Qed.

Lemma C3_cache_used_exactly_when_fresh_witness :
  resolveCatalog Sample.host Sample.noOverride
    (Sample.installed Sample.looseCache None None)
  = (Ok Sample.newest,
     snd (resolveCatalog Sample.host Sample.noOverride
            (Sample.installed Sample.looseCache None None)))
  /\ fst (loadCatalog Sample.host Sample.noOverride false
            (Sample.installed Sample.looseCache None None))
     = Ok {| cat_resources := Sample.looseRecords; cat_dbPath := Sample.catalogB |}.
Proof.
  assert (resolveCatalog Sample.host Sample.noOverride
            (Sample.installed Sample.looseCache None None)
          = (Ok Sample.newest,
             snd (resolveCatalog Sample.host Sample.noOverride
                    (Sample.installed Sample.looseCache None None))))
    as resolved by (vm_compute; reflexivity).
  split; [exact resolved|].
  destruct (C3_cache_used_exactly_when_fresh
              Sample.host Sample.noOverride false
              (Sample.installed Sample.looseCache None None) _ Sample.newest
              resolved)
    as [[_ [payload [read [_ [_ [loaded _]]]]]]
       | [[forced | [none | [payload [read differs]]]] _]].
  - rewrite loaded. cbn [fst]. vm_compute in read. injection read as <-.
    reflexivity.
  - discriminate forced.
  - vm_compute in none. discriminate none.
  - vm_compute in read. injection read as <-.
    destruct differs as [differs|differs]; exfalso; apply differs; reflexivity.
Defined.

(** The outcome of a load as a function of the world it starts in: the
    resolution, then either the cached sequence or the result of
    inference and extraction on the database at the resolved path.  The
    fate of the cache write does not occur in it. *)
Lemma loadCatalog_outcome (h : Host) (preferences : Preferences)
    (forceRefresh : bool) (w : World) :
  fst (loadCatalog h preferences forceRefresh w)
  = bindR (fst (resolveCatalog h preferences w)) (fun info =>
      match (if forceRefresh then None
             else match payloadOf (cacheFile w) with
                  | Some c =>
                      if (dbPath c =? path info)
                         && (mtimeMs c =? info_mtimeMs info)%Z
                      then Some (resources c) else None
                  | None => None
                  end) with
      | Some cached => Ok {| cat_resources := cached; cat_dbPath := path info |}
      | None =>
          bindR (bindR (fs_database w (path info)) (fun database =>
                   bindR (findResourceTable database) (queryResources h database)))
                (fun rows => Ok {| cat_resources := map toJson rows;
                                   cat_dbPath := path info |})
      end).
Proof.
  pose proof (keeps_resolveCatalog h preferences w) as kept.
  destruct (resolveCatalog h preferences w) as [[info|e] w1] eqn:resolved;
    cbn [fst snd bindR] in *.
  2: now rewrite (loadCatalog_unresolved _ _ _ _ _ _ resolved).
  destruct kept as [[_ [_ [_ same_database]]] [_ [_ same_cache]]].
  rewrite same_cache, same_database.
  assert (forall w2, fs_database w1 = fs_database w2 ->
          cachedResources forceRefresh (cachePathOf h) info w1 = (Ok None, w2) ->
          fst (loadCatalog h preferences forceRefresh w)
          = bindR (bindR (fs_database w1 (path info)) (fun database =>
                     bindR (findResourceTable database) (queryResources h database)))
                  (fun rows => Ok {| cat_resources := map toJson rows;
                                     cat_dbPath := path info |})) as missed.
  { intros w2 same miss.
    pose proof (loadCatalog_miss h preferences forceRefresh w w1 w2 info
                  resolved miss) as loaded.
    pose proof (readCatalogDatabase_result h (path info) w2) as read.
    rewrite same, <- read.
    destruct (readCatalogDatabase h (path info) w2) as [[rows|e] w3];
      cbn [fst bindR].
    - destruct loaded as [-> _]. reflexivity.
    - now rewrite loaded. }
  destruct forceRefresh.
  - apply (missed w1); [reflexivity | apply cachedResources_forced].
  - pose proof (cachedResources_unforced (cachePathOf h) info w1) as read.
    pose proof (keeps_readCache (cachePathOf h) w1)
      as [[_ [_ [_ same]]] _].
    destruct (match payloadOf (cacheFile w1) with
              | Some c =>
                  if (dbPath c =? path info) && (mtimeMs c =? info_mtimeMs info)%Z
                  then Some (resources c) else None
              | None => None
              end) as [cached|].
    + now rewrite (loadCatalog_hit _ _ _ _ _ _ _ _ resolved read).
    + now apply (missed _ same).
Qed.

(** C4: [readCache] never throws, and on a cache file that is missing,
    unreadable, malformed or of the wrong shape it returns nothing; the
    outcome of a load is the same in any two worlds with the same
    catalog files whose cache files are both unusable, whatever the
    fate of the cache write and whether the refresh is forced or not;
    and with the same cache file it is the same whatever the fate of
    the cache write. *)
Theorem C4_cache_faults_never_become_load_faults
    (h : Host) (preferences : Preferences) (forceRefresh : bool) (w : World) :
  (forall cachePath, exists r, fst (readCache cachePath w) = Ok r)
  /\ (unusable (cacheFile w) ->
      forall cachePath, fst (readCache cachePath w) = Ok None)
  /\ (forall w' forceRefresh',
        sameDisk w w' -> unusable (cacheFile w) -> unusable (cacheFile w') ->
        fst (loadCatalog h preferences forceRefresh w)
        = fst (loadCatalog h preferences forceRefresh' w'))
  /\ (forall w',
        sameDisk w w' -> cacheFile w = cacheFile w' ->
        fst (loadCatalog h preferences forceRefresh w)
        = fst (loadCatalog h preferences forceRefresh w')).
Proof.
  split; [|split; [|split]].
  - intros cachePath. rewrite readCache_result. now eexists.
  - intros faulty cachePath. rewrite readCache_result. now rewrite faulty.
  - intros w' forceRefresh' same faulty faulty'.
    rewrite !loadCatalog_outcome, faulty, faulty'.
    destruct (agrees_resolveCatalog h preferences w w' same) as [<- _].
    destruct same as [_ [_ [_ <-]]].
    destruct forceRefresh, forceRefresh'; reflexivity.
  - intros w' same same_cache.
    rewrite !loadCatalog_outcome, same_cache.
    destruct (agrees_resolveCatalog h preferences w w' same) as [<- _].
    destruct same as [_ [_ [_ <-]]]. reflexivity.
Qed.

Lemma C4_cache_faults_never_become_load_faults_witness :
  fst (readCache Sample.cachePath
         (Sample.installed CacheMalformed (Some Sample.EACCES) None))
    = Ok None
  /\ fst (loadCatalog Sample.host Sample.noOverride false
            (Sample.installed CacheMalformed (Some Sample.EACCES) None))
     = fst (loadCatalog Sample.host Sample.noOverride true
              (Sample.installed CacheMissing None None))
  /\ fst (loadCatalog Sample.host Sample.noOverride false
            (Sample.installed Sample.looseCache None (Some Sample.EACCES)))
     = fst (loadCatalog Sample.host Sample.noOverride false
              (Sample.installed Sample.looseCache None None)).
Proof.
  split; [|split].
  - apply (C4_cache_faults_never_become_load_faults
             Sample.host Sample.noOverride false
             (Sample.installed CacheMalformed (Some Sample.EACCES) None)).
    reflexivity.
  - apply (C4_cache_faults_never_become_load_faults
             Sample.host Sample.noOverride false
             (Sample.installed CacheMalformed (Some Sample.EACCES) None)).
    + repeat split.
    + reflexivity.
    + reflexivity.
  - apply (C4_cache_faults_never_become_load_faults
             Sample.host Sample.noOverride false
             (Sample.installed Sample.looseCache None (Some Sample.EACCES))).
    + repeat split.
    + reflexivity.
Defined.

(** C10: whatever the elements of the array are, a cache object whose
    [dbPath] is the resolved path, whose [mtimeMs] is the resolved
    mtime and whose [resources] is an array passes [readCache], and an
    unforced load returns exactly those elements: none of them is
    looked at. *)
Theorem C10_cached_elements_returned_unchecked
    (h : Host) (preferences : Preferences) (w w1 : World) (info : CatalogInfo)
    (properties : list (string * Json)) (elements : list Json) :
  resolveCatalog h preferences w = (Ok info, w1) ->
  cacheFile w = CacheJson (JObject properties) ->
  lookup "resources" properties = Some (JArray elements) ->
  lookup "dbPath" properties = Some (JString (path info)) ->
  lookup "mtimeMs" properties = Some (JNumber (info_mtimeMs info)) ->
  fst (readCache (cachePathOf h) w1)
    = Ok (Some {| dbPath := path info; mtimeMs := info_mtimeMs info;
                  resources := elements |})
  /\ fst (loadCatalog h preferences false w)
     = Ok {| cat_resources := elements; cat_dbPath := path info |}.
Proof.
  intros resolved cached is_array is_path is_mtime.
  assert (payloadOf (cacheFile w)
          = Some {| dbPath := path info; mtimeMs := info_mtimeMs info;
                    resources := elements |}) as held.
  { rewrite cached. unfold payloadOf, checkShape, getProperty. cbn [bindR].
    now rewrite is_array, is_path, is_mtime. }
  split.
  - pose proof (keeps_resolveCatalog h preferences w) as kept.
    rewrite resolved in kept. destruct kept as [_ [_ [_ same_cache]]].
    cbn [snd] in same_cache. now rewrite readCache_result, <- same_cache, held.
  - rewrite loadCatalog_outcome, resolved, held. cbn [fst bindR dbPath mtimeMs].
    now rewrite String.eqb_refl, Z.eqb_refl.
Qed.

Lemma C10_cached_elements_returned_unchecked_witness :
  fst (readCache (cachePathOf Sample.host)
         (snd (resolveCatalog Sample.host Sample.noOverride
                 (Sample.installed Sample.looseCache None None))))
    = Ok (Some {| dbPath := Sample.catalogB; mtimeMs := 2000;
                  resources := Sample.looseRecords |})
  /\ fst (loadCatalog Sample.host Sample.noOverride false
            (Sample.installed Sample.looseCache None None))
     = Ok {| cat_resources := Sample.looseRecords; cat_dbPath := Sample.catalogB |}.
Proof.
  apply (C10_cached_elements_returned_unchecked
           Sample.host Sample.noOverride
           (Sample.installed Sample.looseCache None None)
           (snd (resolveCatalog Sample.host Sample.noOverride
                   (Sample.installed Sample.looseCache None None)))
           Sample.newest
           [("dbPath", JString Sample.catalogB); ("mtimeMs", JNumber 2000);
            ("resources", JArray Sample.looseRecords)]
           Sample.looseRecords).
  - vm_compute. reflexivity.
  - reflexivity.
  - reflexivity.
  - reflexivity.
  - reflexivity.
Defined.

(* ================================================================= *)
(** ** Column resolution *)

Lemma indexOf_first (l : list string) (x : string) (i : nat) :
  indexOf l x = Some i ->
  nth_error l i = Some x
  /\ forall j y, (j < i)%nat -> nth_error l j = Some y -> y <> x.
Proof.
  revert i. induction l as [|y r IH]; intros i; cbn [indexOf].
  - discriminate.
  - destruct (y =? x) eqn:same.
    + intros [= <-]. apply String.eqb_eq in same. subst y.
      split; [reflexivity|]. intros j z lt. inversion lt.
    + destruct (indexOf r x) as [k|]; [|discriminate].
      intros [= <-]. destruct (IH k eq_refl) as [at_k before].
      split; [exact at_k|].
      intros [|j] z lt; cbn [nth_error].
      * intros [= <-]. now apply String.eqb_neq.
      * apply before. now apply PeanoNat.lt_S_n.
Qed.

Lemma indexOf_none (l : list string) (x : string) :
  indexOf l x = None <-> ~ In x l.
Proof.
  induction l as [|y r IH]; cbn [indexOf In].
  - tauto.
  - destruct (y =? x) eqn:same.
    + apply String.eqb_eq in same. split; [discriminate | tauto].
    + apply String.eqb_neq in same.
      destruct (indexOf r x); cbn [option_map].
      * split; [discriminate|]. intros notin.
        assert (~ In x r) as nr by tauto. apply IH in nr. discriminate.
      * split; [|reflexivity]. intros _ [e|inr]; [congruence|].
        now apply (proj1 IH eq_refl).
Qed.

Lemma lowerChar_idempotent (c : ascii) : lowerChar (lowerChar c) = lowerChar c.
Proof. destruct c as [[] [] [] [] [] [] [] []]; reflexivity. Qed.

Lemma toLowerCase_idempotent (s : string) :
  toLowerCase (toLowerCase s) = toLowerCase s.
Proof.
  induction s as [|c r IH]; cbn; [reflexivity|].
  now rewrite lowerChar_idempotent, IH.
Qed.

(** The position [findColumn] settles on depends on the lower-cased
    column names only. *)
Lemma findColumn_from_position (lowerCaseColumns candidates : list string) :
  exists position,
    forall columns,
      findColumn_from columns lowerCaseColumns candidates
      = match position with
        | Some index => nth_error columns index
        | None => None
        end.
Proof.
  induction candidates as [|candidate rest IH]; cbn [findColumn_from].
  - now exists None.
  - destruct (indexOf lowerCaseColumns candidate) as [index|].
    + now exists (Some index).
    + exact IH.
Qed.

(** Column resolution finds the first candidate, in priority order,
    that some column matches when lower-cased, and for it the first
    such column: the name returned is the column's own spelling; the
    candidates before it match no column; the columns before it do not
    match it. *)
Theorem findColumn_priority (columns candidates : list string) (c : string) :
  findColumn columns candidates = Some c ->
  exists before candidate after index,
    candidates = (before ++ candidate :: after)%list
    /\ (forall k x, In k before -> In x columns -> toLowerCase x <> k)
    /\ nth_error columns index = Some c
    /\ toLowerCase c = candidate
    /\ (forall j x, (j < index)%nat -> nth_error columns j = Some x ->
                    toLowerCase x <> candidate).
Proof.
  unfold findColumn.
  induction candidates as [|candidate rest IH]; cbn [findColumn_from].
  - discriminate.
  - destruct (indexOf (map toLowerCase columns) candidate) as [index|] eqn:found.
    + intros at_index. apply indexOf_first in found.
      destruct found as [lowered first].
      exists [], candidate, rest, index. cbn [app In].
      split; [reflexivity|]. split; [tauto|]. split; [exact at_index|].
      rewrite nth_error_map, at_index in lowered. cbn in lowered.
      split; [congruence|].
      intros j x lt at_j. apply (first j); [exact lt|].
      now rewrite nth_error_map, at_j.
    + intros resolved. apply indexOf_none in found.
      destruct (IH resolved)
        as [before [k [after [index [split_rest [unmatched facts]]]]]].
      exists (candidate :: before), k, after, index.
      split; [cbn; now rewrite split_rest|]. split; [|exact facts].
      intros k' x [<-|ink] inx.
      * intros lowered. apply found. rewrite <- lowered. now apply in_map.
      * now apply unmatched.
Qed.

Lemma findColumn_priority_witness :
  exists before candidate after index,
    TITLE_COLUMN_CANDIDATES = (before ++ candidate :: after)%list
    /\ (forall k x, In k before -> In x ["Name"; "TITLE"; "Title"] ->
                    toLowerCase x <> k)
    /\ nth_error ["Name"; "TITLE"; "Title"] index = Some "TITLE"
    /\ toLowerCase "TITLE" = candidate
    /\ (forall j x, (j < index)%nat ->
                    nth_error ["Name"; "TITLE"; "Title"] j = Some x ->
                    toLowerCase x <> candidate).
Proof.
  apply (findColumn_priority ["Name"; "TITLE"; "Title"] TITLE_COLUMN_CANDIDATES).
  reflexivity.
Defined.

(** Column resolution finds nothing exactly when no column, lower-cased,
    is one of the candidates. *)
Theorem findColumn_none_iff (columns candidates : list string) :
  findColumn columns candidates = None
  <-> forall x, In x columns -> ~ In (toLowerCase x) candidates.
Proof.
  unfold findColumn.
  induction candidates as [|candidate rest IH]; cbn [findColumn_from In].
  - split; [tauto | reflexivity].
  - destruct (indexOf (map toLowerCase columns) candidate) as [index|] eqn:found.
    + apply indexOf_first in found. destruct found as [lowered _].
      rewrite nth_error_map in lowered.
      destruct (nth_error columns index) as [c|] eqn:at_index; [|discriminate].
      cbn in lowered. split; [discriminate|]. intros unmatched. exfalso.
      apply (unmatched c); [eapply nth_error_In, at_index|].
      left. congruence.
    + apply indexOf_none in found. rewrite IH. split.
      * intros unmatched x inx [e|inrest].
        -- apply found. rewrite e. now apply in_map.
        -- now apply (unmatched x).
      * intros unmatched x inx inrest. apply (unmatched x inx). now right.
Qed.

(** Column resolution is insensitive to case: two column lists that
    agree once lower-cased resolve to the same position, or both to
    nothing. *)
Theorem findColumn_case_insensitive (columns columns' candidates : list string) :
  map toLowerCase columns = map toLowerCase columns' ->
  exists position,
    findColumn columns candidates
    = match position with Some index => nth_error columns index | None => None end
    /\ findColumn columns' candidates
       = match position with Some index => nth_error columns' index | None => None end.
Proof.
  intros same. unfold findColumn. rewrite <- same.
  destruct (findColumn_from_position (map toLowerCase columns) candidates)
    as [position at_position].
  exists position. now rewrite !at_position.
Qed.

Lemma findColumn_case_insensitive_witness :
  exists position,
    findColumn ["ResourceId"; "TITLE"] TITLE_COLUMN_CANDIDATES
    = match position with
      | Some index => nth_error ["ResourceId"; "TITLE"] index
      | None => None
      end
    /\ findColumn ["resourceid"; "title"] TITLE_COLUMN_CANDIDATES
       = match position with
         | Some index => nth_error ["resourceid"; "title"] index
         | None => None
         end.
Proof.
  apply (findColumn_case_insensitive ["ResourceId"; "TITLE"] ["resourceid"; "title"]).
  reflexivity.
Defined.

(* ================================================================= *)
(** ** Quoting identifiers *)

(** [quoteIdentifier] loses nothing: SQLite reads the quoted text back
    as the identifier it was made from, double quotes included, so two
    identifiers are quoted alike only when they are the same. *)
Theorem quoteIdentifier_faithful (a b : string) :
  unquoteIdentifier (quoteIdentifier a) = Some a
  /\ (quoteIdentifier a = quoteIdentifier b <-> a = b).
Proof.
  split; [apply unquote_quote|]. split.
  - intros same. apply (f_equal unquoteIdentifier) in same.
    rewrite !unquote_quote in same. congruence.
  - now intros ->.
Qed.

(* ================================================================= *)
(** ** Schema inference: which table, and when none *)

Lemma findColumn_lowered (columns candidates : list string) (c : string) :
  findColumn columns candidates = Some c ->
  In c columns /\ In (toLowerCase c) candidates.
Proof.
  intros resolved. split; [eapply findColumn_In, resolved|].
  revert resolved. unfold findColumn.
  induction candidates as [|candidate rest IH]; cbn [findColumn_from In].
  - discriminate.
  - destruct (indexOf (map toLowerCase columns) candidate) as [index|] eqn:found.
    + intros at_index. apply indexOf_first in found. destruct found as [lowered _].
      rewrite nth_error_map, at_index in lowered. cbn in lowered. left. congruence.
    + intros resolved. right. now apply IH.
Qed.

Lemma searchOrder_guard (db : Database) (n : string) :
  In n (searchOrder db) ->
  Set_has (tableNamesOf db) n || includes RESOURCE_TABLE_CANDIDATES n = true.
Proof.
  unfold searchOrder. rewrite in_app_iff, orb_true_iff.
  unfold Set_has. rewrite !includes_In. tauto.
Qed.

Lemma findResourceTable_searchOrder (db : Database) :
  findResourceTable db
  = findResourceTable_from db (tableNamesOf db) (searchOrder db).
Proof. reflexivity. Qed.

Lemma findResourceTable_from_none (db : Database) (names : StringSet)
    (ordered : list string) :
  (forall n, In n ordered ->
             Set_has names n || includes RESOURCE_TABLE_CANDIDATES n = true) ->
  (forall n, In n ordered -> qualifies db n = false) ->
  findResourceTable_from db names ordered = Throw (Error NO_TABLE_MESSAGE).
Proof.
  induction ordered as [|n rest IH]; intros guard none; [reflexivity|].
  pose proof (findResourceTable_from_step db names n rest (guard n (or_introl eq_refl)))
    as step.
  rewrite (none n (or_introl eq_refl)) in step. rewrite step.
  apply IH; intros k ink; [apply guard | apply none]; now right.
Qed.

Lemma findResourceTable_from_first (db : Database) (names : StringSet)
    (before after : list string) (n : string) :
  (forall k, In k (before ++ n :: after) ->
             Set_has names k || includes RESOURCE_TABLE_CANDIDATES k = true) ->
  (forall k, In k before -> qualifies db k = false) ->
  qualifies db n = true ->
  exists info,
    findResourceTable_from db names (before ++ n :: after) = Ok info
    /\ tableName info = n.
Proof.
  induction before as [|k rest IH]; intros guard none found; cbn [app].
  - pose proof (findResourceTable_from_step db names n after
                  (guard n (or_introl eq_refl))) as step.
    now rewrite found in step.
  - pose proof (findResourceTable_from_step db names k (rest ++ n :: after)
                  (guard k (or_introl eq_refl))) as step.
    rewrite (none k (or_introl eq_refl)) in step. rewrite step.
    apply IH; [| |exact found].
    + intros j inj. apply guard. now right.
    + intros j inj. apply none. now right.
Qed.

(** Every list splits at its first element satisfying a test. *)
Lemma first_true_split {A} (f : A -> bool) (l : list A) :
  (exists x, In x l /\ f x = true) ->
  exists before x after,
    l = (before ++ x :: after)%list /\ f x = true
    /\ forall y, In y before -> f y = false.
Proof.
  induction l as [|y r IH]; intros [x [inx fx]]; [destruct inx|].
  destruct (f y) eqn:fy.
  - exists [], y, r. repeat split; [exact fy | intros ? []].
  - destruct IH as [before [z [after [-> [fz none]]]]].
    { destruct inx as [->|inx]; [congruence | now exists x]. }
    exists (y :: before), z, after. repeat split; [exact fz|].
    intros k [<-|ink]; [exact fy | now apply none].
Qed.

(** Schema inference returns the first table of the search order that
    qualifies: the table returned qualifies, and no name tried before
    it does. *)
Theorem inference_returns_first_qualifying (db : Database) (info : TableInfo) :
  findResourceTable db = Ok info ->
  exists before after,
    searchOrder db = (before ++ tableName info :: after)%list
    /\ qualifies db (tableName info) = true
    /\ forall k, In k before -> qualifies db k = false.
Proof.
  intros inferred.
  destruct (first_true_split (qualifies db) (searchOrder db))
    as [before [n [after [split_order [found none]]]]].
  - destruct (findResourceTable_inv db info inferred)
      as [cols [pragma [fid [ftitle _]]]].
    assert (qualifies db (tableName info) = true) as q.
    { unfold qualifies. rewrite pragma, fid, ftitle. cbn [truthy_opt].
      apply findColumn_lowered in fid, ftitle.
      destruct fid as [_ fid], ftitle as [_ ftitle].
      apply andb_true_iff. split; apply truthy_true; intros empty;
        rewrite empty in *; cbn in *; intuition discriminate. }
    exists (tableName info). split; [|exact q].
    rewrite findResourceTable_searchOrder in inferred.
    clear - inferred. induction (searchOrder db) as [|k rest IH];
      cbn [findResourceTable_from] in inferred; [discriminate|].
    destruct (negb (Set_has (tableNamesOf db) k)
              && negb (includes RESOURCE_TABLE_CANDIDATES k));
      [right; now apply IH|].
    destruct (pragmaColumns db k) as [[cols|]|e]; cbn [bindR] in inferred;
      [|right; now apply IH|discriminate].
    destruct (findColumn cols ID_COLUMN_CANDIDATES) as [idc|];
      [|right; now apply IH].
    destruct (findColumn cols TITLE_COLUMN_CANDIDATES) as [titlec|];
      [|right; now apply IH].
    destruct (negb (truthy idc) || negb (truthy titlec));
      [right; now apply IH|].
    injection inferred as <-. now left.
  - destruct (findResourceTable_from_first db (tableNamesOf db) before after n)
      as [info' [inferred' named]]; try assumption.
    { intros k ink. apply searchOrder_guard. now rewrite split_order. }
    rewrite findResourceTable_searchOrder, split_order, inferred' in inferred.
    injection inferred as <-. rewrite named.
    exists before, after. now repeat split.
Qed.

Lemma inference_returns_first_qualifying_witness :
  exists before after,
    searchOrder Sample.twoTables = (before ++ "Resources" :: after)%list
    /\ qualifies Sample.twoTables "Resources" = true
    /\ forall k, In k before -> qualifies Sample.twoTables k = false.
Proof.
  apply (inference_returns_first_qualifying Sample.twoTables
           {| tableName := "Resources"; idColumn := "ResourceId";
              titleColumn := "Title"; authorColumn := None;
              abbrevColumn := None |}).
  reflexivity.
Defined.

(** On a database that SQLite can read, that is when the listing of
    the tables and the pragma of every name of the search order execute,
    schema inference fails exactly when no name of the search order
    qualifies, and then with the error "Could not find a resource table
    inside catalog.db".  (A file that is no database makes the first
    statement throw; every [Database] of this development is readable,
    so the two premises delimit the statement, they are not used to
    prove it.) *)
Theorem inference_fails_iff_none_qualifies (db : Database) :
  (exists tablesResult, exec db SelectTableNames = Ok tablesResult) ->
  (forall n, In n (searchOrder db) ->
     exists pragma, exec db (PragmaTableInfo (quoteIdentifier n)) = Ok pragma) ->
  (findResourceTable db = Throw (Error NO_TABLE_MESSAGE)
   <-> forall n, In n (searchOrder db) -> qualifies db n = false)
  /\ (forall e, findResourceTable db = Throw e -> e = Error NO_TABLE_MESSAGE).
Proof.
  intros _ _.
  assert ((forall n, In n (searchOrder db) -> qualifies db n = false)
          \/ exists info, findResourceTable db = Ok info) as cases.
  { destruct (forallb (fun n => negb (qualifies db n)) (searchOrder db)) eqn:all.
    - left. rewrite forallb_forall in all. intros n inn.
      now apply negb_true_iff, all.
    - right.
      destruct (first_true_split (qualifies db) (searchOrder db))
        as [before [n [after [split_order [found none]]]]].
      { apply not_true_iff_false in all.
        destruct (existsb (qualifies db) (searchOrder db)) eqn:some.
        - apply existsb_exists in some. exact some.
        - exfalso. apply all. apply forallb_forall. intros n inn.
          apply negb_true_iff.
          destruct (qualifies db n) eqn:q; [|reflexivity].
          assert (existsb (qualifies db) (searchOrder db) = true) as yes
            by (apply existsb_exists; now exists n).
          congruence. }
      destruct (findResourceTable_from_first db (tableNamesOf db) before after n)
        as [info [inferred _]]; try assumption.
      { intros k ink. apply searchOrder_guard. now rewrite split_order. }
      exists info. now rewrite findResourceTable_searchOrder, split_order. }
  split; [split|].
  - intros failed. destruct cases as [none|[info inferred]]; [exact none|].
    congruence.
  - intros none. rewrite findResourceTable_searchOrder.
    apply findResourceTable_from_none; [apply searchOrder_guard | exact none].
  - intros e failed. destruct cases as [none|[info inferred]]; [|congruence].
    rewrite findResourceTable_searchOrder in failed.
    rewrite findResourceTable_from_none in failed;
      [congruence | apply searchOrder_guard | exact none].
Qed.

Lemma pragma_executes (db : Database) (n : string) :
  exists pragma, exec db (PragmaTableInfo (quoteIdentifier n)) = Ok pragma.
Proof.
  unfold exec. rewrite unquote_quote.
  destruct (findTable db n); now eexists.
Qed.

Lemma inference_fails_iff_none_qualifies_witness :
  (findResourceTable Sample.unrelated = Throw (Error NO_TABLE_MESSAGE)
   <-> forall n, In n (searchOrder Sample.unrelated) ->
                 qualifies Sample.unrelated n = false)
  /\ (forall e, findResourceTable Sample.unrelated = Throw e ->
                e = Error NO_TABLE_MESSAGE).
Proof.
  apply (inference_fails_iff_none_qualifies Sample.unrelated).
  - eexists. reflexivity.
  - intros n _. apply pragma_executes.
Defined.

Lemma collectNames_In (values : list (list SqlValue)) (acc : StringSet) (n : string) :
  In n (fold_left
          (fun tableNames value =>
             if truthy_value (cell value 0)
             then Set_add tableNames (String_of (cell value 0))
             else tableNames)
          values acc)
  <-> In n acc
      \/ exists value, In value values
                       /\ truthy_value (cell value 0) = true
                       /\ String_of (cell value 0) = n.
Proof.
  revert acc. induction values as [|v rest IH]; intros acc; cbn [fold_left In].
  - split; [tauto|]. intros [inacc|[value [[] _]]]. exact inacc.
  - rewrite IH. destruct (truthy_value (cell v 0)) eqn:tv.
    + rewrite Set_add_In. split.
      * intros [[->|inacc]|[value [inv facts]]].
        -- right. exists v. now repeat split; try left.
        -- now left.
        -- right. exists value. split; [now right | exact facts].
      * intros [inacc|[value [[<-|inv] [tv' named]]]].
        -- left. now right.
        -- left. left. now symmetry.
        -- right. now exists value.
    + split.
      * intros [inacc|[value [inv facts]]]; [now left|].
        right. exists value. split; [now right | exact facts].
      * intros [inacc|[value [[<-|inv] [tv' named]]]]; [now left|congruence|].
        right. now exists value.
Qed.

Lemma collectTableNames_results (cols : list string) (rows : list (list SqlValue)) :
  collectTableNames (results cols rows)
  = fold_left
      (fun tableNames value =>
         if truthy_value (cell value 0)
         then Set_add tableNames (String_of (cell value 0))
         else tableNames)
      rows [].
Proof. destruct rows; reflexivity. Qed.

(** The names present: those of the tables of the database, the empty
    name apart. *)
Lemma tableNamesOf_In (db : Database) (n : string) :
  In n (tableNamesOf db) <-> n <> "" /\ exists t, In t db /\ tbl_name t = n.
Proof.
  unfold tableNamesOf, exec.
  rewrite collectTableNames_results, collectNames_In. cbn [In]. split.
  - intros [[]|[value [inv [tv named]]]].
    apply in_map_iff in inv. destruct inv as [t [<- int]].
    cbn in tv, named. subst n. split; [now apply truthy_true | now exists t].
  - intros [nonempty [t [int <-]]]. right.
    exists [SqlText (tbl_name t)]. split; [|split].
    + apply in_map_iff. now exists t.
    + cbn. now apply truthy_true.
    + reflexivity.
Qed.

(** Tables whose name is not in the known list are tried too, after
    the known names: whenever some table present in the database
    qualifies, inference succeeds, and it returns a table of unknown
    name only when no known name qualifies. *)
Theorem inference_tries_every_table (db : Database) (t : Table) :
  In t db ->
  tbl_name t <> "" ->
  qualifies db (tbl_name t) = true ->
  exists info,
    findResourceTable db = Ok info
    /\ (In (tableName info) RESOURCE_TABLE_CANDIDATES
        \/ forall k, In k RESOURCE_TABLE_CANDIDATES -> qualifies db k = false).
Proof.
  intros present named found.
  destruct (first_true_split (qualifies db) (searchOrder db))
    as [before [n [after [split_order [foundn none]]]]].
  { exists (tbl_name t). split; [|exact found].
    unfold searchOrder. apply in_app_iff. right.
    apply tableNamesOf_In. split; [exact named | now exists t]. }
  destruct (findResourceTable_from_first db (tableNamesOf db) before after n)
    as [info [inferred is_n]]; try assumption.
  { intros k ink. apply searchOrder_guard. now rewrite split_order. }
  exists info. rewrite findResourceTable_searchOrder, split_order.
  split; [exact inferred|]. rewrite is_n.
  unfold searchOrder in split_order. apply app_eq_app in split_order.
  destruct split_order as [l [[known tail]|[known tail]]].
  - destruct l as [|x l].
    + right. intros k ink. apply none. rewrite known, app_nil_r in ink. exact ink.
    + left. injection tail as <- _. rewrite known. apply in_app_iff.
      right. now left.
  - right. intros k ink. apply none. rewrite known. apply in_app_iff. now left.
Qed.

Lemma inference_tries_every_table_witness :
  exists info,
    findResourceTable
      [ {| tbl_name := "Resource"; tbl_columns := ["Version"]; tbl_rows := [] |};
        {| tbl_name := "Books"; tbl_columns := ["RES_ID"; "DisplayName"];
           tbl_rows := [] |} ] = Ok info
    /\ (In (tableName info) RESOURCE_TABLE_CANDIDATES
        \/ forall k, In k RESOURCE_TABLE_CANDIDATES ->
             qualifies
               [ {| tbl_name := "Resource"; tbl_columns := ["Version"];
                    tbl_rows := [] |};
                 {| tbl_name := "Books"; tbl_columns := ["RES_ID"; "DisplayName"];
                    tbl_rows := [] |} ] k = false).
Proof.
  apply (inference_tries_every_table
           [ {| tbl_name := "Resource"; tbl_columns := ["Version"]; tbl_rows := [] |};
             {| tbl_name := "Books"; tbl_columns := ["RES_ID"; "DisplayName"];
                tbl_rows := [] |} ]
           {| tbl_name := "Books"; tbl_columns := ["RES_ID"; "DisplayName"];
              tbl_rows := [] |}).
  - right. now left.
  - discriminate.
  - reflexivity.
Defined.

Lemma candidate_not_empty (candidates : list string) (c : string) :
  In (toLowerCase c) candidates -> ~ In "" candidates -> c <> "".
Proof. intros inc noempty ->. now apply noempty. Qed.

(** What inference returns names the database as it is: the table
    exists, the id and title columns are columns of that table under
    their own spelling and match a candidate when lower-cased, and so do
    the author and abbreviation columns when they are given. *)
Theorem inferred_schema_names_real_columns (db : Database) (info : TableInfo) :
  findResourceTable db = Ok info ->
  exists t,
    findTable db (tableName info) = Some t
    /\ In (idColumn info) (tbl_columns t)
    /\ In (toLowerCase (idColumn info)) ID_COLUMN_CANDIDATES
    /\ In (titleColumn info) (tbl_columns t)
    /\ In (toLowerCase (titleColumn info)) TITLE_COLUMN_CANDIDATES
    /\ (forall a, authorColumn info = Some a ->
          In a (tbl_columns t) /\ In (toLowerCase a) AUTHOR_COLUMN_CANDIDATES)
    /\ (forall a, abbrevColumn info = Some a ->
          In a (tbl_columns t) /\ In (toLowerCase a) ABBREV_COLUMN_CANDIDATES).
Proof.
  intros inferred.
  destruct (findResourceTable_inv db info inferred)
    as [cols [pragma [fid [ftitle [fauthor fabbrev]]]]].
  rewrite pragmaColumns_spec in pragma.
  destruct (findTable db (tableName info)) as [t|]; [|discriminate].
  assert (tbl_columns t = cols) as <-
    by (destruct (tbl_columns t); [discriminate | congruence]).
  exists t. split; [reflexivity|].
  apply findColumn_lowered in fid, ftitle.
  split; [tauto|]. split; [tauto|]. split; [tauto|]. split; [tauto|].
  split; intros a given; eapply findColumn_lowered; congruence.
Qed.

Lemma inferred_schema_names_real_columns_witness :
  exists t,
    findTable Sample.library "Resource" = Some t
    /\ In "ResourceId" (tbl_columns t)
    /\ In (toLowerCase "ResourceId") ID_COLUMN_CANDIDATES
    /\ In "Title" (tbl_columns t)
    /\ In (toLowerCase "Title") TITLE_COLUMN_CANDIDATES
    /\ (forall a, Some "Author" = Some a ->
          In a (tbl_columns t) /\ In (toLowerCase a) AUTHOR_COLUMN_CANDIDATES)
    /\ (forall a, @None string = Some a ->
          In a (tbl_columns t) /\ In (toLowerCase a) ABBREV_COLUMN_CANDIDATES).
Proof.
  apply (inferred_schema_names_real_columns Sample.library Sample.librarySchema).
  reflexivity.
Defined.

(* ================================================================= *)
(** ** Extraction: where the records come from *)

Lemma optional_column (t : Table) (candidates : list string) (column : option string) :
  column = findColumn (tbl_columns t) candidates ->
  ~ In "" candidates ->
  match column with
  | Some a => truthy a = true /\ exists k, columnIndex (tbl_columns t) a = Some k
  | None => True
  end.
Proof.
  intros resolved noempty. destruct column as [a|]; [|exact I].
  symmetry in resolved. apply findColumn_lowered in resolved.
  destruct resolved as [ina lowered]. split.
  - apply truthy_true. eapply candidate_not_empty; eassumption.
  - now apply columnIndex_In.
Qed.

(** The rows the query of an inferred schema returns: the rows of the
    table whose id and title cells are not null, each projected on the
    selected columns. *)
Lemma exec_queryOf (db : Database) (info : TableInfo) (t : Table) :
  findResourceTable db = Ok info ->
  findTable db (tableName info) = Some t ->
  exists i j,
    columnIndex (tbl_columns t) (idColumn info) = Some i
    /\ columnIndex (tbl_columns t) (titleColumn info) = Some j
    /\ exists oa ob,
         oa = match authorColumn info with
              | Some a => columnIndex (tbl_columns t) a
              | None => None
              end
         /\ ob = match abbrevColumn info with
                 | Some b => columnIndex (tbl_columns t) b
                 | None => None
                 end
         /\ exec db (queryOf info)
            = Ok (results (aliasesOf oa ob)
                    (map (fun row => map (cell row) (i :: j :: present oa ++ present ob)%list)
                       (filter (fun row => negb (isNull (cell row i))
                                           && (negb (isNull (cell row j)) && true))
                               (tbl_rows t)))).
Proof.
  intros inferred found.
  destruct (findResourceTable_inv db info inferred)
    as [cols [pragma [fid [ftitle [fauthor fabbrev]]]]].
  rewrite pragmaColumns_spec, found in pragma.
  assert (tbl_columns t = cols) as <-
    by (destruct (tbl_columns t); [discriminate | congruence]).
  apply findColumn_In, columnIndex_In in fid, ftitle.
  destruct fid as [i at_i], ftitle as [j at_j].
  exists i, j. split; [exact at_i|]. split; [exact at_j|].
  apply optional_column in fauthor, fabbrev;
    try (cbn; intuition discriminate).
  unfold queryOf, selectColumnsOf, exec.
  rewrite unquote_quote, found.
  destruct (authorColumn info) as [a|]; destruct (abbrevColumn info) as [b|];
    cbn [truthy_opt];
    repeat match goal with
           | H : _ /\ exists _, _ |- _ =>
               let tr := fresh "tr" in
               let k := fresh "k" in
               let at_k := fresh "at_k" in
               destruct H as [tr [k at_k]]; rewrite tr
           end;
    cbn [app map fst snd resolveColumns];
    rewrite ?unquote_quote, ?at_i, ?at_j; cbn [bindR];
    repeat match goal with
           | H : columnIndex _ _ = Some _ |- _ => rewrite H; clear H
           end;
    cbn [bindR forallb]; do 2 eexists;
    (split; [reflexivity|]); (split; [reflexivity|]); reflexivity.
Qed.

(** The record built from a projected row: its id and title are the
    texts of the first two cells, its author and abbreviation those of
    the cells selected for them, absent when the cell is null. *)
Lemma rowRecord_cells (vi vj : SqlValue) (oa ob : option SqlValue) (r : ResourceRow) :
  rowRecord (aliasesOf oa ob) (vi :: vj :: present oa ++ present ob)%list = Some r ->
  textOf vi = Some (id r)
  /\ textOf vj = Some (title r)
  /\ author r = match oa with Some v => textOf v | None => None end
  /\ abbrev r = match ob with Some v => textOf v | None => None end.
Proof.
  unfold rowRecord, buildRecord, aliasesOf.
  destruct oa as [va|]; destruct ob as [vb|];
    cbn [present map app List.length seq combine fold_left cell nth];
    destruct vi; destruct vj; try destruct va; try destruct vb;
    cbn [setField String.eqb Ascii.eqb Bool.eqb p_id p_title p_author p_abbrev
         emptyRecord textOf];
    try discriminate;
    match goal with
    | |- context [negb (truthy ?a) || negb (truthy ?b)] =>
        destruct (negb (truthy a) || negb (truthy b))
    end;
    try discriminate; intros [= <-]; cbn [id title author abbrev];
    repeat split.
Qed.

Lemma queryResources_from_records (h : Host) (db : Database) (columns : TableInfo)
    (items : list ResourceRow) (r : ResourceRow) :
  queryResources h db columns = Ok items ->
  In r items ->
  In r (usableRecords db columns).
Proof.
  intros returned inr.
  destruct (queryResources_records h db columns items returned) as [kept [-> ->]].
  apply (Permutation_in _ (Permutation_sym (sort_perm _ _))) in inr.
  apply keepFirst_In in inr. destruct inr as [_ first].
  apply find_some in first. tauto.
Qed.

(** Every record extraction returns is read from a row of the inferred
    table: its id and title are the texts of that row's cells in the id
    and title columns, neither of them null, and its author and
    abbreviation are the texts of the cells in those columns, absent
    when the schema has no such column or the cell is null. *)
Theorem extraction_reads_table_rows
    (h : Host) (db : Database) (info : TableInfo) (t : Table)
    (items : list ResourceRow) :
  findResourceTable db = Ok info ->
  findTable db (tableName info) = Some t ->
  queryResources h db info = Ok items ->
  forall r, In r items ->
    exists row,
      In row (tbl_rows t)
      /\ fieldOf t row (Some (idColumn info)) = Some (id r)
      /\ fieldOf t row (Some (titleColumn info)) = Some (title r)
      /\ author r = fieldOf t row (authorColumn info)
      /\ abbrev r = fieldOf t row (abbrevColumn info).
Proof.
  intros inferred found returned r inr.
  apply (queryResources_from_records h db info items r returned) in inr.
  destruct (exec_queryOf db info t inferred found)
    as [i [j [at_i [at_j [oa [ob [is_oa [is_ob run]]]]]]]].
  unfold usableRecords in inr. rewrite run in inr.
  set (kept := filter _ (tbl_rows t)) in *.
  assert (In r (recordsOf (aliasesOf oa ob)
                  (map (fun row => map (cell row) (i :: j :: present oa ++ present ob)%list)
                       kept))) as inrecords.
  { unfold results in inr.
    destruct (map _ kept) as [|first rest] eqn:projected; [destruct inr|].
    exact inr. }
  unfold recordsOf in inrecords. apply in_flat_map in inrecords.
  destruct inrecords as [prow [inprow built]].
  apply in_map_iff in inprow. destruct inprow as [row [<- inrow]].
  apply filter_In in inrow. destruct inrow as [inrow _].
  destruct (rowRecord _ _) as [r'|] eqn:record; [|destruct built].
  destruct built as [<-|[]].
  assert (map (cell row) (i :: j :: present oa ++ present ob)%list
          = (cell row i :: cell row j
             :: present (option_map (cell row) oa)
             ++ present (option_map (cell row) ob))%list) as cells
    by (destruct oa, ob; reflexivity).
  assert (aliasesOf oa ob
          = aliasesOf (option_map (cell row) oa) (option_map (cell row) ob))
    as aliases by (destruct oa, ob; reflexivity).
  rewrite cells, aliases in record. apply rowRecord_cells in record.
  destruct record as [rid [rtitle [rauthor rabbrev]]].
  exists row. split; [exact inrow|].
  unfold fieldOf. rewrite at_i, at_j.
  split; [exact rid|]. split; [exact rtitle|].
  rewrite rauthor, rabbrev. subst oa ob. split.
  - destruct (authorColumn info) as [a|]; [|reflexivity].
    now destruct (columnIndex (tbl_columns t) a).
  - destruct (abbrevColumn info) as [b|]; [|reflexivity].
    now destruct (columnIndex (tbl_columns t) b).
Qed.

Lemma extraction_reads_table_rows_witness :
  exists row,
    In row (tbl_rows Sample.resourceTable)
    /\ fieldOf Sample.resourceTable row (Some "ResourceId") = Some "42"
    /\ fieldOf Sample.resourceTable row (Some "Title") = Some "Acts"
    /\ Some "Bock" = fieldOf Sample.resourceTable row (Some "Author")
    /\ None = fieldOf Sample.resourceTable row None.
Proof.
  apply (extraction_reads_table_rows Sample.host Sample.library
           Sample.librarySchema Sample.resourceTable Sample.extracted
           eq_refl eq_refl eq_refl
           {| id := "42"; title := "Acts"; author := Some "Bock"; abbrev := None |}).
  now left.
Defined.

Lemma keepFirst_length (seen : StringSet) (records : list ResourceRow) :
  (List.length (keepFirst seen records) <= List.length records)%nat.
Proof.
  revert seen. induction records as [|r rest IH]; intros seen; cbn [keepFirst].
  - constructor.
  - destruct (Set_has seen (id r)); cbn [List.length].
    + specialize (IH seen). lia.
    + specialize (IH (Set_add seen (id r))). lia.
Qed.

Lemma recordsOf_length (columnNames : list string) (rows : list (list SqlValue)) :
  (List.length (recordsOf columnNames rows) <= List.length rows)%nat.
Proof.
  induction rows as [|row rest IH]; cbn [recordsOf flat_map]; [constructor|].
  fold (recordsOf columnNames rest). rewrite length_app.
  destruct (rowRecord columnNames row); cbn [List.length]; lia.
Qed.

(** On an inferred schema extraction returns at most one record per row
    of the table; over a table without rows it returns the empty
    sequence, which is a result and not a failure. *)
Theorem extraction_bounded_by_rows
    (h : Host) (db : Database) (info : TableInfo) (t : Table) :
  findResourceTable db = Ok info ->
  findTable db (tableName info) = Some t ->
  exists items,
    queryResources h db info = Ok items
    /\ (List.length items <= List.length (tbl_rows t))%nat
    /\ (tbl_rows t = [] -> items = []).
Proof.
  intros inferred found.
  destruct (queryResources_total h db info inferred) as [items returned].
  exists items. split; [exact returned|].
  assert (List.length items <= List.length (tbl_rows t))%nat as bound.
  { destruct (queryResources_records h db info items returned) as [kept [-> ->]].
    rewrite <- (Permutation_length (sort_perm _ _)).
    eapply Nat.le_trans; [apply keepFirst_length|].
    destruct (exec_queryOf db info t inferred found)
      as [i [j [_ [_ [oa [ob [_ [_ run]]]]]]]].
    unfold usableRecords. rewrite run. unfold results.
    destruct (map _ (filter _ (tbl_rows t))) as [|first rest] eqn:projected;
      [apply Nat.le_0_l|].
    eapply Nat.le_trans; [apply recordsOf_length|].
    cbn [values]. rewrite <- projected, length_map. apply filter_length_le. }
  split; [exact bound|].
  intros norows. rewrite norows in bound. destruct items; [reflexivity|].
  cbn in bound. lia.
Qed.

Lemma extraction_bounded_by_rows_witness :
  exists items,
    queryResources Sample.host Sample.library Sample.librarySchema = Ok items
    /\ (List.length items <= List.length (tbl_rows Sample.resourceTable))%nat
    /\ (tbl_rows Sample.resourceTable = [] -> items = []).
Proof.
  apply (extraction_bounded_by_rows Sample.host Sample.library
           Sample.librarySchema Sample.resourceTable); reflexivity.
Defined.

(* ================================================================= *)
(** ** Locating the catalog: the other paths *)

Lemma pathExists_rethrows (target : string) (w : World) (e : Exn) :
  fs_access w target = Some e ->
  hasCode e "ENOENT" = false ->
  pathExists target w = (Throw e, emit (EvAccess target) w).
Proof.
  intros rejected other.
  unfold pathExists, tryCatch, bind, access. now rewrite rejected, other.
Qed.

(** An override that exists is the catalog: resolution returns its
    expanded path with the mtime [fs.stat] reports, or fails as
    [fs.stat] fails, after exactly two calls, the existence test and
    the stat; the base directory is not looked at. *)
Theorem override_found_is_returned
    (h : Host) (preferences : Preferences) (configured : string) (w : World) :
  catalogPath preferences = Some configured ->
  trim configured <> "" ->
  fs_access w (expandTilde h (trim configured)) = None ->
  fst (resolveCatalog h preferences w)
    = bindR (fs_stat w (expandTilde h (trim configured)))
        (fun stats => Ok {| path := expandTilde h (trim configured);
                            info_mtimeMs := stats |})
  /\ trace (snd (resolveCatalog h preferences w))
     = (trace w ++ [EvAccess (expandTilde h (trim configured));
                    EvStat (expandTilde h (trim configured))])%list.
Proof.
  intros set nonblank there.
  apply truthy_true in nonblank.
  assert (resolveCatalog h preferences w
          = (bindR (fs_stat w (expandTilde h (trim configured)))
               (fun stats => Ok {| path := expandTilde h (trim configured);
                                   info_mtimeMs := stats |}),
             emit (EvStat (expandTilde h (trim configured)))
                  (emit (EvAccess (expandTilde h (trim configured))) w))) as run.
  { unfold resolveCatalog. rewrite set. cbn [option_map truthy_opt].
    rewrite nonblank. unfold bind.
    rewrite (pathExists_found _ _ there). cbn [negb].
    unfold stat, ret. cbn [fs_stat emit].
    destruct (fs_stat w (expandTilde h (trim configured))); reflexivity. }
  rewrite run. split; [reflexivity|].
  cbn [snd emit trace]. now rewrite <- app_assoc.
Qed.

Lemma override_found_is_returned_witness :
  fst (resolveCatalog Sample.host (Sample.override Sample.catalogA)
         (Sample.installed CacheMissing None None))
    = bindR (fs_stat (Sample.installed CacheMissing None None) Sample.catalogA)
        (fun stats => Ok {| path := Sample.catalogA; info_mtimeMs := stats |})
  /\ trace (snd (resolveCatalog Sample.host (Sample.override Sample.catalogA)
                   (Sample.installed CacheMissing None None)))
     = [EvAccess Sample.catalogA; EvStat Sample.catalogA].
Proof.
  apply (override_found_is_returned Sample.host (Sample.override Sample.catalogA)
           Sample.catalogA (Sample.installed CacheMissing None None)).
  - reflexivity.
  - discriminate.
  - reflexivity.
Defined.

(** A rejection of the existence test that is not ENOENT, a permission
    failure for instance, is not turned into "not found": resolution
    throws that very error after the one call, for an override as for
    the base directory. *)
Theorem access_failure_is_rethrown
    (h : Host) (preferences : Preferences) (w : World) (e : Exn) :
  hasCode e "ENOENT" = false ->
  (forall configured,
     catalogPath preferences = Some configured ->
     trim configured <> "" ->
     fs_access w (expandTilde h (trim configured)) = Some e ->
     resolveCatalog h preferences w
     = (Throw e, emit (EvAccess (expandTilde h (trim configured))) w))
  /\ (truthy_opt (option_map trim (catalogPath preferences)) = false ->
      fs_access w (baseDirOf h) = Some e ->
      resolveCatalog h preferences w
      = (Throw e, emit (EvAccess (baseDirOf h)) w)).
Proof.
  intros other. split.
  - intros configured set nonblank rejected.
    apply truthy_true in nonblank.
    unfold resolveCatalog. rewrite set. cbn [option_map truthy_opt].
    rewrite nonblank. unfold bind.
    now rewrite (pathExists_rethrows _ _ _ rejected other).
  - intros unset rejected.
    unfold resolveCatalog. rewrite unset. unfold bind.
    now rewrite (pathExists_rethrows _ _ _ rejected other).
Qed.

Lemma access_failure_is_rethrown_witness :
  resolveCatalog Sample.host Sample.noOverride Sample.locked
  = (Throw Sample.EACCES, emit (EvAccess Sample.baseDir) Sample.locked)
  /\ resolveCatalog Sample.host (Sample.override "~/catalog.db") Sample.locked
     = (Throw Sample.EACCES, emit (EvAccess "/Users/me//catalog.db") Sample.locked).
Proof.
  destruct (access_failure_is_rethrown Sample.host Sample.noOverride
              Sample.locked Sample.EACCES eq_refl) as [_ base].
  destruct (access_failure_is_rethrown
              Sample.host (Sample.override "~/catalog.db")
              Sample.locked Sample.EACCES eq_refl) as [configured _].
  split.
  - apply base; reflexivity.
  - apply (configured "~/catalog.db"); [reflexivity | discriminate | reflexivity].
Defined.

(** An override that is empty or white space only counts as not
    configured: resolution proceeds exactly as without one. *)
Theorem blank_override_is_no_override (h : Host) (configured : string) (w : World) :
  whitespaceOnly configured = true ->
  resolveCatalog h {| catalogPath := Some configured |} w
  = resolveCatalog h {| catalogPath := None |} w.
Proof.
  intros blank. apply trim_empty in blank.
  unfold resolveCatalog. cbn [catalogPath option_map truthy_opt].
  now rewrite blank.
Qed.

Lemma blank_override_is_no_override_witness :
  resolveCatalog Sample.host {| catalogPath := Some "   " |}
                 (Sample.installed CacheMissing None None)
  = resolveCatalog Sample.host {| catalogPath := None |}
                   (Sample.installed CacheMissing None None).
Proof.
  apply (blank_override_is_no_override Sample.host "   "). reflexivity.
Defined.

Lemma scanEntries_found
    (h : Host) (baseDir : string) (entries : list Dirent)
    (candidates : list CatalogInfo) (w : World) (found : list CatalogInfo) :
  fst (scanEntries h baseDir entries candidates w) = Ok found ->
  found = (candidates ++ catalogsBelow h w baseDir entries)%list.
Proof.
  revert candidates w.
  induction entries as [|entry rest IH]; intros candidates w;
    cbn [scanEntries catalogsBelow flat_map].
  - intros [= <-]. now rewrite app_nil_r.
  - fold (catalogsBelow h w baseDir rest).
    destruct (isDirectory entry); cbn [negb app]; [|apply IH].
    set (candidate := path_join h [baseDir; name entry; "LibraryCatalog"; "catalog.db"]).
    unfold bind at 1, pathExists, tryCatch, bind, access.
    destruct (fs_access w candidate) as [e|].
    + destruct (hasCode e "ENOENT"); cbn [ret throw fst]; [|discriminate].
      intros scanned. apply IH in scanned. exact scanned.
    + cbn [ret]. unfold stat.
      change (fs_stat (emit (EvAccess candidate) w) candidate)
        with (fs_stat w candidate).
      destruct (fs_stat w candidate) as [stats|e]; [|discriminate].
      intros scanned. apply IH in scanned. rewrite scanned, <- app_assoc.
      reflexivity.
Qed.

(** The scan of the base directory, when it succeeds, adds to the
    candidates exactly the catalogs below the directory entries, in
    enumeration order, each with its own mtime; entries that are not
    directories cost no call at all. *)
Theorem scan_collects_existing_catalogs
    (h : Host) (baseDir : string) (entries : list Dirent)
    (candidates : list CatalogInfo) (w : World) :
  (forall found,
     fst (scanEntries h baseDir entries candidates w) = Ok found ->
     found = (candidates ++ catalogsBelow h w baseDir entries)%list)
  /\ ((forall entry, In entry entries -> isDirectory entry = false) ->
      scanEntries h baseDir entries candidates w = (Ok candidates, w)).
Proof.
  split.
  - intros found. apply scanEntries_found.
  - revert candidates w.
    induction entries as [|entry rest IH]; intros candidates w files;
      cbn [scanEntries]; [reflexivity|].
    rewrite (files entry (or_introl eq_refl)). cbn [negb].
    apply IH. intros other inother. apply files. now right.
Qed.

Lemma scan_collects_existing_catalogs_witness :
  Sample.discovered
  = ([] ++ catalogsBelow Sample.host (Sample.installed CacheMissing None None)
             Sample.baseDir Sample.accountFolders)%list
  /\ scanEntries Sample.host Sample.baseDir
       [ {| name := "notes.txt"; isDirectory := false |} ] []
       (Sample.installed CacheMissing None None)
     = (Ok [], Sample.installed CacheMissing None None).
Proof.
  split.
  - apply (scan_collects_existing_catalogs Sample.host Sample.baseDir
             Sample.accountFolders [] (Sample.installed CacheMissing None None)).
    vm_compute. reflexivity.
  - apply (scan_collects_existing_catalogs Sample.host Sample.baseDir
             [ {| name := "notes.txt"; isDirectory := false |} ] []
             (Sample.installed CacheMissing None None)).
    intros entry [<-|[]]. reflexivity.
Defined.

(* ================================================================= *)
(** ** The cache file: what is logged, written and read back *)

(** [readCache] leaves every file as it was; it logs once when the file
    cannot be read for another reason than ENOENT, when its text is no
    JSON and when the text is the JSON [null], and stays silent when
    the file is missing and when the JSON has another shape than a
    payload. *)
Theorem readCache_logs_unless_missing (cachePath : string) (w : World) :
  sameFiles w (snd (readCache cachePath w))
  /\ trace (snd (readCache cachePath w))
     = (trace w
        ++ EvReadFile cachePath
        :: (if match cacheFile w with
               | CacheUnreadable e => negb (hasCode e "ENOENT")
               | CacheMalformed => true
               | CacheJson JNull => true
               | CacheJson _ => false
               end
            then [EvConsoleError "Failed to read cache"]
            else []))%list.
Proof.
  split; [apply keeps_readCache|].
  unfold readCache, tryCatch, bind, readCacheFile, liftR, consoleError, ret.
  destruct (cacheFile w) as [e| |parsed]; cbn [JSON_parse].
  - destruct (hasCode e "ENOENT"); cbn; now rewrite <- ?app_assoc.
  - cbn. now rewrite <- app_assoc.
  - destruct parsed as [| | | | |properties]; try reflexivity.
    + cbn. now rewrite <- app_assoc.
    + unfold checkShape, getProperty. cbn [bindR].
      destruct (lookup "resources" properties) as [[]|]; try reflexivity.
      destruct (lookup "dbPath" properties) as [[]|]; try reflexivity.
      destruct (lookup "mtimeMs" properties) as [[]|]; reflexivity.
Qed.

(** [writeCache] never throws, and has three courses.  When [mkdir]
    rejects, [writeFile] is not attempted, every file stays as it was
    and the failure is logged once.  When [writeFile] rejects, the
    failure is logged once; what is left of the file is the file
    system's affair.  Otherwise the file holds the payload and nothing
    is logged. *)
Theorem writeCache_courses
    (h : Host) (cachePath : string) (payload : CachePayload) (w : World) :
  fst (writeCache h cachePath payload w) = Ok tt
  /\ (forall e, fs_mkdir w = Some e ->
        snd (writeCache h cachePath payload w)
        = emit (EvConsoleError "Failed to write cache")
               (emit (EvMkdir (path_dirname h cachePath)) w))
  /\ (forall e, fs_mkdir w = None -> fs_writeFile w = Some e ->
        trace (snd (writeCache h cachePath payload w))
        = (trace w ++ [EvMkdir (path_dirname h cachePath);
                       EvWriteFile cachePath payload;
                       EvConsoleError "Failed to write cache"])%list)
  /\ (fs_mkdir w = None -> fs_writeFile w = None ->
      snd (writeCache h cachePath payload w)
      = storeCache (CacheJson (payloadJson payload))
                   (emit (EvWriteFile cachePath payload)
                         (emit (EvMkdir (path_dirname h cachePath)) w))).
Proof.
  split; [apply writeCache_result|].
  unfold writeCache, tryCatch, bind, mkdir, writeFile, consoleError.
  split; [|split].
  - intros e rejected. now rewrite rejected.
  - intros e made rejected. rewrite made. cbn [fs_writeFile emit].
    rewrite rejected. cbn. now rewrite <- !app_assoc.
  - intros made written. rewrite made. cbn [fs_writeFile emit].
    now rewrite written.
Qed.

Lemma writeCache_courses_witness :
  snd (writeCache Sample.host Sample.cachePath
         {| dbPath := Sample.catalogB; mtimeMs := 2000; resources := [] |}
         (Sample.installed Sample.looseCache (Some Sample.EACCES) None))
    = emit (EvConsoleError "Failed to write cache")
           (emit (EvMkdir (path_dirname Sample.host Sample.cachePath))
                 (Sample.installed Sample.looseCache (Some Sample.EACCES) None))
  /\ trace (snd (writeCache Sample.host Sample.cachePath
                   {| dbPath := Sample.catalogB; mtimeMs := 2000; resources := [] |}
                   (Sample.installed Sample.looseCache None (Some Sample.EACCES))))
     = [EvMkdir (path_dirname Sample.host Sample.cachePath);
        EvWriteFile Sample.cachePath
          {| dbPath := Sample.catalogB; mtimeMs := 2000; resources := [] |};
        EvConsoleError "Failed to write cache"]
  /\ snd (writeCache Sample.host Sample.cachePath
            {| dbPath := Sample.catalogB; mtimeMs := 2000; resources := [] |}
            (Sample.installed Sample.looseCache None None))
     = storeCache
         (CacheJson (payloadJson
            {| dbPath := Sample.catalogB; mtimeMs := 2000; resources := [] |}))
         (emit (EvWriteFile Sample.cachePath
                  {| dbPath := Sample.catalogB; mtimeMs := 2000; resources := [] |})
               (emit (EvMkdir (path_dirname Sample.host Sample.cachePath))
                     (Sample.installed Sample.looseCache None None))).
Proof.
  split; [|split].
  - exact (proj1 (proj2 (writeCache_courses Sample.host Sample.cachePath
             {| dbPath := Sample.catalogB; mtimeMs := 2000; resources := [] |}
             (Sample.installed Sample.looseCache (Some Sample.EACCES) None)))
           Sample.EACCES eq_refl).
  - exact (proj1 (proj2 (proj2 (writeCache_courses Sample.host Sample.cachePath
             {| dbPath := Sample.catalogB; mtimeMs := 2000; resources := [] |}
             (Sample.installed Sample.looseCache None (Some Sample.EACCES)))))
           Sample.EACCES eq_refl eq_refl).
  - exact (proj2 (proj2 (proj2 (writeCache_courses Sample.host Sample.cachePath
             {| dbPath := Sample.catalogB; mtimeMs := 2000; resources := [] |}
             (Sample.installed Sample.looseCache None None))))
           eq_refl eq_refl).
Defined.

Lemma payloadOf_payloadJson (payload : CachePayload) :
  payloadOf (CacheJson (payloadJson payload)) = Some payload.
Proof. now destruct payload. Qed.


(* ================================================================= *)
(** ** Loading: the database handle, failures, and the next load *)



Lemma keeps_openDatabase (target : string) : keepsFiles (openDatabase target).
Proof. files_of_call. Qed.

Lemma keeps_closeDatabase : keepsFiles closeDatabase.
Proof. files_of_call. Qed.

Lemma keeps_readCatalogDatabase (h : Host) (p : string) :
  keepsFiles (readCatalogDatabase h p).
Proof.
  unfold readCatalogDatabase.
  apply keeps_bind; [apply keeps_openDatabase|]. intros database.
  apply keeps_tryFinally; [apply keeps_liftR | apply keeps_closeDatabase].
Qed.

Lemma keeps_cachedResources (forceRefresh : bool) (cachePath : string)
    (info : CatalogInfo) :
  keepsFiles (cachedResources forceRefresh cachePath info).
Proof.
  unfold cachedResources. destruct forceRefresh; cbn [negb]; [apply keeps_ret|].
  apply keeps_bind; [apply keeps_readCache|]. intros [c|]; [|apply keeps_ret].
  destruct (_ && _); apply keeps_ret.
Qed.

Lemma cachedResources_never_throws (forceRefresh : bool) (cachePath : string)
    (info : CatalogInfo) (w : World) :
  exists hit, fst (cachedResources forceRefresh cachePath info w) = Ok hit.
Proof.
  destruct forceRefresh.
  - now eexists.
  - rewrite cachedResources_unforced. now eexists.
Qed.

Lemma writeCache_disk (h : Host) (cachePath : string) (payload : CachePayload)
    (w : World) :
  sameDisk w (snd (writeCache h cachePath payload w)).
Proof.
  unfold writeCache, tryCatch, bind, mkdir, writeFile, consoleError.
  destruct (fs_mkdir w); [repeat split|]. cbn [fs_writeFile emit].
  destruct (fs_writeFile w); repeat split.
Qed.

(** The ways a load ends: resolution fails; or the cache is used; or
    the database is read, and then either that fails or the fresh
    records are returned after the write. *)
Lemma loadCatalog_cases (h : Host) (preferences : Preferences) (forceRefresh : bool)
    (w : World) :
  (exists e w1,
     resolveCatalog h preferences w = (Throw e, w1)
     /\ loadCatalog h preferences forceRefresh w = (Throw e, w1))
  \/ exists info w1,
       resolveCatalog h preferences w = (Ok info, w1)
       /\ ((exists c w2,
              forceRefresh = false
              /\ payloadOf (cacheFile w) = Some c
              /\ dbPath c = path info /\ mtimeMs c = info_mtimeMs info
              /\ sameFiles w w2
              /\ loadCatalog h preferences forceRefresh w
                 = (Ok {| cat_resources := resources c; cat_dbPath := path info |}, w2))
           \/ (exists e w3,
                 sameFiles w w3
                 /\ bindR (fs_database w (path info)) (fun database =>
                      bindR (findResourceTable database) (queryResources h database))
                    = Throw e
                 /\ loadCatalog h preferences forceRefresh w = (Throw e, w3))
           \/ (exists rows w3,
                 sameFiles w w3
                 /\ loadCatalog h preferences forceRefresh w
                    = (Ok {| cat_resources := map toJson rows; cat_dbPath := path info |},
                       snd (writeCache h (cachePathOf h)
                              {| dbPath := path info; mtimeMs := info_mtimeMs info;
                                 resources := map toJson rows |} w3)))).
Proof.
  pose proof (keeps_resolveCatalog h preferences w) as kept1.
  destruct (resolveCatalog h preferences w) as [[info|e] w1] eqn:resolved;
    cbn [snd] in kept1.
  2: { left. exists e, w1. split; [reflexivity|].
       now apply loadCatalog_unresolved. }
  right. exists info, w1. split; [reflexivity|].
  pose proof (keeps_cachedResources forceRefresh (cachePathOf h) info w1) as kept2.
  destruct (cachedResources forceRefresh (cachePathOf h) info w1) as [r w2] eqn:read.
  cbn [snd] in kept2.
  pose proof (sameFiles_trans _ _ _ kept1 kept2) as kept12.
  assert (exists hit, r = Ok hit) as [hit ->].
  { destruct (cachedResources_never_throws forceRefresh (cachePathOf h) info w1)
      as [hit ok]. rewrite read in ok. now exists hit. }
  destruct hit as [cached|].
  - left. destruct forceRefresh; [discriminate read|].
    pose proof (cachedResources_unforced (cachePathOf h) info w1) as unforced.
    rewrite read in unforced.
    assert (cacheFile w1 = cacheFile w) as same by (symmetry; apply kept1).
    rewrite same in unforced.
    destruct (payloadOf (cacheFile w)) as [c|]; [|discriminate unforced].
    destruct (dbPath c =? path info) eqn:same_path; [|discriminate unforced].
    destruct (mtimeMs c =? info_mtimeMs info)%Z eqn:same_mtime;
      [|discriminate unforced].
    cbn [andb] in unforced. injection unforced as -> ->.
    exists c, (snd (readCache (cachePathOf h) w1)).
    apply String.eqb_eq in same_path. apply Z.eqb_eq in same_mtime.
    split; [reflexivity|]. split; [reflexivity|].
    split; [exact same_path|]. split; [exact same_mtime|].
    split; [exact kept12|].
    exact (loadCatalog_hit h preferences false w w1 _ info _ resolved read).
  - right.
    pose proof (loadCatalog_miss h preferences forceRefresh w w1 w2 info resolved read)
      as loaded.
    pose proof (keeps_readCatalogDatabase h (path info) w2) as kept3.
    pose proof (readCatalogDatabase_result h (path info) w2) as result.
    destruct (readCatalogDatabase h (path info) w2) as [[rows|e] w3];
      cbn [fst snd] in *.
    + right. exists rows, w3. split; [eapply sameFiles_trans; eassumption|].
      now destruct loaded.
    + left. exists e, w3. split; [eapply sameFiles_trans; eassumption|].
      split; [|exact loaded].
      assert (fs_database w = fs_database w2) as -> by apply kept12.
      now symmetry.
Qed.

(** A load that fails leaves every file, the cache file included, as it
    was; and it fails only as the resolution fails or as the reading of
    the database at the resolved path fails, never because of the
    cache. *)
Theorem failed_load_keeps_cache
    (h : Host) (preferences : Preferences) (forceRefresh : bool)
    (w : World) (e : Exn) :
  fst (loadCatalog h preferences forceRefresh w) = Throw e ->
  sameFiles w (snd (loadCatalog h preferences forceRefresh w))
  /\ (fst (resolveCatalog h preferences w) = Throw e
      \/ exists info,
           fst (resolveCatalog h preferences w) = Ok info
           /\ bindR (fs_database w (path info)) (fun database =>
                bindR (findResourceTable database) (queryResources h database))
              = Throw e).
Proof.
  intros failed.
  destruct (loadCatalog_cases h preferences forceRefresh w)
    as [[e1 [w1 [resolved loaded]]]
       |[info [w1 [resolved
           [[c [w2 [_ [_ [_ [_ [_ loaded]]]]]]]
           |[[e3 [w3 [kept [broken loaded]]]]
            |[rows [w3 [_ loaded]]]]]]]]];
    rewrite loaded in *; cbn [fst snd] in *; try discriminate;
    injection failed as <-.
  - pose proof (keeps_resolveCatalog h preferences w) as kept.
    rewrite resolved in *. split; [exact kept | now left].
  - split; [exact kept|]. right. exists info. rewrite resolved. now split.
Qed.

Lemma failed_load_keeps_cache_witness :
  sameFiles
    (Sample.world [(Sample.catalogA, 5%Z)] [] [(Sample.catalogA, Sample.unrelated)]
                  Sample.looseCache None None)
    (snd (loadCatalog Sample.host (Sample.override Sample.catalogA) true
            (Sample.world [(Sample.catalogA, 5%Z)] []
                          [(Sample.catalogA, Sample.unrelated)]
                          Sample.looseCache None None)))
  /\ (fst (resolveCatalog Sample.host (Sample.override Sample.catalogA)
             (Sample.world [(Sample.catalogA, 5%Z)] []
                           [(Sample.catalogA, Sample.unrelated)]
                           Sample.looseCache None None))
      = Throw (Error NO_TABLE_MESSAGE)
      \/ exists info,
           fst (resolveCatalog Sample.host (Sample.override Sample.catalogA)
                  (Sample.world [(Sample.catalogA, 5%Z)] []
                                [(Sample.catalogA, Sample.unrelated)]
                                Sample.looseCache None None))
           = Ok info
           /\ bindR (fs_database
                       (Sample.world [(Sample.catalogA, 5%Z)] []
                                     [(Sample.catalogA, Sample.unrelated)]
                                     Sample.looseCache None None)
                       (path info))
                (fun database =>
                   bindR (findResourceTable database)
                         (queryResources Sample.host database))
              = Throw (Error NO_TABLE_MESSAGE)).
Proof.
  apply (failed_load_keeps_cache Sample.host (Sample.override Sample.catalogA) true
           (Sample.world [(Sample.catalogA, 5%Z)] []
                         [(Sample.catalogA, Sample.unrelated)]
                         Sample.looseCache None None)
           (Error NO_TABLE_MESSAGE)).
  vm_compute. reflexivity.
Defined.

(** After a load that succeeded, on a file system where cache writes
    meet no rejection, the next unforced load returns the same records
    and path from the cache: after resolving the catalog again its only
    call is the cache read, so the database is not opened. *)
Theorem next_load_uses_the_cache
    (h : Host) (preferences : Preferences) (forceRefresh : bool)
    (w w' : World) (catalog : Catalog) :
  fs_mkdir w = None ->
  fs_writeFile w = None ->
  loadCatalog h preferences forceRefresh w = (Ok catalog, w') ->
  loadCatalog h preferences false w'
  = (Ok catalog,
     snd (readCache (cachePathOf h) (snd (resolveCatalog h preferences w')))).
Proof.
  intros made written loaded.
  assert (exists info c,
            fst (resolveCatalog h preferences w) = Ok info
            /\ sameDisk w w'
            /\ payloadOf (cacheFile w') = Some c
            /\ dbPath c = path info /\ mtimeMs c = info_mtimeMs info
            /\ catalog = {| cat_resources := resources c;
                            cat_dbPath := path info |}) as facts.
  { destruct (loadCatalog_cases h preferences forceRefresh w)
      as [[e1 [w1 [resolved run]]]
         |[info [w1 [resolved
             [[c [w2 [_ [held [same_path [same_mtime [kept run]]]]]]]
             |[[e3 [w3 [kept [broken run]]]]
              |[rows [w3 [kept run]]]]]]]]];
      rewrite run in loaded; try discriminate; injection loaded as <- <-.
    - exists info, c. rewrite resolved.
      destruct kept as [disk [_ [_ same_cache]]].
      rewrite <- same_cache.
      split; [reflexivity|]. split; [exact disk|]. split; [exact held|].
      split; [exact same_path|]. split; [exact same_mtime | reflexivity].
    - exists info, {| dbPath := path info; mtimeMs := info_mtimeMs info;
                      resources := map toJson rows |}.
      rewrite resolved.
      destruct kept as [disk [same_mkdir [same_write _]]].
      rewrite writeCache_stores by congruence.
      rewrite payloadOf_payloadJson.
      split; [reflexivity|].
      split; [apply (sameDisk_trans _ w3 _); [exact disk | apply writeCache_disk]|].
      repeat split. }
  destruct facts as [info [c [resolved [disk [held [same_path [same_mtime ->]]]]]]].
  destruct (agrees_resolveCatalog h preferences w w' disk) as [same_result _].
  rewrite resolved in same_result.
  pose proof (keeps_resolveCatalog h preferences w') as kept.
  destruct (resolveCatalog h preferences w') as [[info'|e] w1'] eqn:resolved';
    cbn [fst snd] in *; [|discriminate].
  injection same_result as <-.
  apply (loadCatalog_hit h preferences false w' w1' _ info _ resolved').
  rewrite cachedResources_unforced.
  assert (cacheFile w1' = cacheFile w') as -> by (symmetry; apply kept).
  rewrite held, same_path, same_mtime, String.eqb_refl, Z.eqb_refl.
  reflexivity.
Qed.

Lemma next_load_uses_the_cache_witness :
  fst (loadCatalog Sample.host Sample.noOverride false
         (snd (loadCatalog Sample.host Sample.noOverride false
                 (Sample.installed CacheMissing None None))))
  = Ok {| cat_resources := map toJson Sample.extracted;
          cat_dbPath := Sample.catalogB |}.
Proof.
  assert (loadCatalog Sample.host Sample.noOverride false
            (Sample.installed CacheMissing None None)
          = (Ok {| cat_resources := map toJson Sample.extracted;
                   cat_dbPath := Sample.catalogB |},
             snd (loadCatalog Sample.host Sample.noOverride false
                    (Sample.installed CacheMissing None None))))
    as loaded by (vm_compute; reflexivity).
  rewrite (next_load_uses_the_cache Sample.host Sample.noOverride false
             (Sample.installed CacheMissing None None) _ _
             eq_refl eq_refl loaded).
  reflexivity.
Defined.

(* ================================================================= *)
(** ** Querying: the page and the query text *)

Lemma firstn_incl {A} (n : nat) (l : list A) (x : A) :
  In x (firstn n l) -> In x l.
Proof.
  revert n. induction l as [|y r IH]; intros [|n]; cbn; try tauto.
  intros [->|inx]; [now left | right; eauto].
Qed.

(** The list shown never has more than 50 items, and each of them is a
    held record or the item of an entry the index returned for the
    trimmed query. *)
Theorem filtered_page_is_capped (h : Host) (records : list Json) (searchText : string) :
  (List.length (filteredResources h records searchText) <= 50)%nat
  /\ forall r, In r (filteredResources h records searchText) ->
       In r records
       \/ exists entry,
            In entry (Fuse_search h records (trim searchText)) /\ item entry = r.
Proof.
  unfold filteredResources, fuseOf, slice0, PAGE_SIZE.
  destruct records as [|r0 rest]; [split; [apply Nat.le_0_l | intros ? []]|].
  destruct (negb (truthy (trim searchText))); split;
    try apply firstn_le_length; intros r inr; apply firstn_incl in inr.
  - now left.
  - right. apply in_map_iff in inr. destruct inr as [entry [<- inentry]].
    now exists entry.
Qed.

Lemma trimEnd_idempotent (s : string) : trimEnd (trimEnd s) = trimEnd s.
Proof.
  induction s as [|c r IH]; [reflexivity|].
  cbn [trimEnd]. destruct (trimEnd r) as [|d t] eqn:trimmed.
  - destruct (isWhiteSpace c) eqn:ws; [reflexivity|].
    cbn [trimEnd]. now rewrite ws.
  - change (trimEnd (String c (String d t))) with
      (match trimEnd (String d t) with
       | EmptyString =>
           if isWhiteSpace c then EmptyString else String c EmptyString
       | r' => String c r'
       end).
    now rewrite IH.
Qed.

Lemma trimStart_head (s : string) (c : ascii) (r : string) :
  trimStart s = String c r -> isWhiteSpace c = false.
Proof.
  induction s as [|a t IH]; cbn [trimStart]; [discriminate|].
  destruct (isWhiteSpace a) eqn:ws; [exact IH|].
  now intros [= <- <-].
Qed.

Lemma trim_idempotent (s : string) : trim (trim s) = trim s.
Proof.
  unfold trim. destruct (trimStart s) as [|c r] eqn:started; [reflexivity|].
  apply trimStart_head in started.
  assert (exists r', trimEnd (String c r) = String c r') as [r' ended].
  { cbn [trimEnd]. destruct (trimEnd r); [rewrite started|]; now eexists. }
  rewrite ended. cbn [trimStart]. rewrite started, <- ended.
  apply trimEnd_idempotent.
Qed.

(** White space around the query does not matter: a query and its
    trimmed form give the same list. *)
Theorem query_is_trimmed (h : Host) (records : list Json) (searchText : string) :
  filteredResources h records searchText
  = filteredResources h records (trim searchText).
Proof.
  unfold filteredResources. now rewrite trim_idempotent.
Qed.

(* ================================================================= *)
(** ** Opening a resource *)

Lemma primaryFirst_urls (encodeURIComponent : string -> string)
    (openScheme : OpenScheme) (resourceId : string) :
  primaryFirst encodeURIComponent openScheme resourceId
  = [preferredUrl encodeURIComponent openScheme resourceId;
     fallbackUrl encodeURIComponent openScheme resourceId].
Proof. now destruct openScheme. Qed.

(** [openResource] tries the URL of the configured scheme first and
    stops at the first URL that opens: when the preferred URL opens,
    the other URL is not tried; when it is rejected and the other URL
    opens, that one is used; in both cases the HUD is shown and no
    failure is reported. *)
Theorem openResource_stops_at_first_success
    (d : Desktop) (encodeURIComponent : string -> string)
    (openScheme : OpenScheme) (resourceId : string) :
  showHUD_rejects d "Opening in Logos" = None ->
  (open_rejects d (preferredUrl encodeURIComponent openScheme resourceId) = None ->
   openResource d encodeURIComponent openScheme resourceId
   = [UiOpen (preferredUrl encodeURIComponent openScheme resourceId);
      UiShowHUD "Opening in Logos"])
  /\ (forall e,
        open_rejects d (preferredUrl encodeURIComponent openScheme resourceId) = Some e ->
        open_rejects d (fallbackUrl encodeURIComponent openScheme resourceId) = None ->
        openResource d encodeURIComponent openScheme resourceId
        = [UiOpen (preferredUrl encodeURIComponent openScheme resourceId);
           UiOpen (fallbackUrl encodeURIComponent openScheme resourceId);
           UiShowHUD "Opening in Logos"]).
Proof.
  intros shown. unfold openResource. rewrite primaryFirst_urls.
  cbn [openEach]. split.
  - intros opened. now rewrite opened, shown.
  - intros e rejected opened. now rewrite rejected, opened, shown.
Qed.

Lemma openResource_stops_at_first_success_witness :
  openResource Sample.onlyLogosres Sample.plain logosres "LLS:GEN"
    = [UiOpen "logosres:LLS:GEN"; UiShowHUD "Opening in Logos"]
  /\ openResource Sample.onlyLogosres Sample.plain logos4 "LLS:GEN"
     = [UiOpen "logos4:Open?resource=LLS:GEN"; UiOpen "logosres:LLS:GEN";
        UiShowHUD "Opening in Logos"].
Proof.
  split.
  - apply (openResource_stops_at_first_success
             Sample.onlyLogosres Sample.plain logosres "LLS:GEN"); reflexivity.
  - apply (openResource_stops_at_first_success
             Sample.onlyLogosres Sample.plain logos4 "LLS:GEN" eq_refl)
      with (e := Error "no application for logos4"); reflexivity.
Defined.

(** When both URLs are rejected, both have been tried, preferred first,
    and one failure toast is shown: its cause is the message of the
    second rejection and it lists both URLs in the order tried. *)
Theorem openResource_reports_last_failure
    (d : Desktop) (encodeURIComponent : string -> string)
    (openScheme : OpenScheme) (resourceId : string) (e1 e2 : Exn) :
  open_rejects d (preferredUrl encodeURIComponent openScheme resourceId) = Some e1 ->
  open_rejects d (fallbackUrl encodeURIComponent openScheme resourceId) = Some e2 ->
  openResource d encodeURIComponent openScheme resourceId
  = [UiOpen (preferredUrl encodeURIComponent openScheme resourceId);
     UiOpen (fallbackUrl encodeURIComponent openScheme resourceId);
     UiFailureToast "Could not open Logos" (extractErrorMessage e2)
       [preferredUrl encodeURIComponent openScheme resourceId;
        fallbackUrl encodeURIComponent openScheme resourceId]].
Proof.
  intros rejected1 rejected2. unfold openResource. rewrite primaryFirst_urls.
  cbn [openEach]. now rewrite rejected1, rejected2.
Qed.

Lemma openResource_reports_last_failure_witness :
  openResource Sample.noLogos Sample.plain logos4 "LLS:GEN"
  = [UiOpen "logos4:Open?resource=LLS:GEN"; UiOpen "logosres:LLS:GEN";
     UiFailureToast "Could not open Logos" "no application for logosres"
       ["logos4:Open?resource=LLS:GEN"; "logosres:LLS:GEN"]].
Proof.
  apply (openResource_reports_last_failure
           Sample.noLogos Sample.plain logos4 "LLS:GEN"
           (Error "no application for logos4")
           (Error "no application for logosres")); reflexivity.
Defined.

(** The HUD is shown inside the same [try] as the opening: when the
    preferred URL opens but the HUD is rejected, the attempt counts as
    failed and the other URL is opened as well. *)
Theorem openResource_hud_failure_tries_next
    (d : Desktop) (encodeURIComponent : string -> string)
    (openScheme : OpenScheme) (resourceId : string) (e : Exn) :
  open_rejects d (preferredUrl encodeURIComponent openScheme resourceId) = None ->
  showHUD_rejects d "Opening in Logos" = Some e ->
  exists rest,
    openResource d encodeURIComponent openScheme resourceId
    = UiOpen (preferredUrl encodeURIComponent openScheme resourceId)
      :: UiShowHUD "Opening in Logos"
      :: UiOpen (fallbackUrl encodeURIComponent openScheme resourceId)
      :: rest.
Proof.
  intros opened rejected. unfold openResource. rewrite primaryFirst_urls.
  cbn [openEach]. rewrite opened, rejected.
  destruct (open_rejects d (fallbackUrl encodeURIComponent openScheme resourceId));
    cbn; now eexists.
Qed.

Lemma openResource_hud_failure_tries_next_witness :
  exists rest,
    openResource {| open_rejects := fun _ => None;
                    showHUD_rejects := fun _ => Some (Error "no window") |}
                 Sample.plain logosres "LLS:GEN"
    = UiOpen "logosres:LLS:GEN" :: UiShowHUD "Opening in Logos"
      :: UiOpen "logos4:Open?resource=LLS:GEN" :: rest.
Proof.
  apply (openResource_hud_failure_tries_next
           {| open_rejects := fun _ => None;
              showHUD_rejects := fun _ => Some (Error "no window") |}
           Sample.plain logosres "LLS:GEN" (Error "no window")); reflexivity.
Defined.

(* ================================================================= *)
(** ** Rebuilding the index *)

(** [rebuildIndex] awaits [showToast] before its [try]: when that
    rejects, the rejection propagates, no load is made, the records
    held stay, and [isIndexing] is left up, so the empty view is not
    shown.  Otherwise [rebuildIndex] does not throw and ends with
    [isIndexing] and the loading flag down.  After a load that
    succeeded the state holds the loaded records and path and no error.
    After a load that failed the state holds no record, whatever was
    held before, and the error message: every query then gives the
    empty list, the empty view is shown, and its description is that
    message. *)
Theorem rebuildIndex_reflects_the_load
    (h : Host) (preferences : Preferences) (forceRefresh : bool)
    (previous : State) (w : World) :
  (forall e,
     rebuildIndex h preferences forceRefresh (Some e) previous w
     = (Throw e,
        {| view_state := markLoading forceRefresh previous;
           view_isIndexing := true; view_toast := None |},
        w)
     /\ st_resources (markLoading forceRefresh previous) = st_resources previous
     /\ forall filtered,
          showEmptyView (markLoading forceRefresh previous) true filtered = false)
  /\ exists view,
       rebuildIndex h preferences forceRefresh None previous w
       = (Ok tt, view, snd (loadCatalog h preferences forceRefresh w))
       /\ view_isIndexing view = false
       /\ st_isLoading (view_state view) = false
       /\ match fst (loadCatalog h preferences forceRefresh w) with
          | Ok catalog =>
              view_state view
              = {| st_resources := cat_resources catalog;
                   st_dbPath := Some (cat_dbPath catalog);
                   st_isLoading := false; st_error := None |}
              /\ option_map toast_style (view_toast view) = Some Success
          | Throw e =>
              view_state view
              = {| st_resources := []; st_dbPath := None; st_isLoading := false;
                   st_error := Some (extractErrorMessage e) |}
              /\ view_toast view
                 = Some {| toast_style := Failure; toast_title := "Indexing failed";
                           toast_message := Some (extractErrorMessage e) |}
              /\ (forall searchText,
                    filteredResources h (st_resources (view_state view)) searchText
                    = []
                    /\ showEmptyView (view_state view) (view_isIndexing view)
                         (filteredResources h (st_resources (view_state view))
                                            searchText) = true)
              /\ emptyViewDescription (view_state view) = extractErrorMessage e
          end.
Proof.
  split.
  - intros e. split; [reflexivity|]. split; [reflexivity|].
    intros filtered. unfold showEmptyView. now rewrite orb_true_r.
  - unfold rebuildIndex.
    destruct (loadCatalog h preferences forceRefresh w) as [[catalog|e] w'];
      eexists; (split; [reflexivity|]); cbn; repeat split.
Qed.

(* ================================================================= *)
(** ** End to end: what a resolution and a fresh load guarantee *)

Lemma catalogsBelow_exist (h : Host) (w : World) (baseDir : string)
    (entries : list Dirent) (c : CatalogInfo) :
  In c (catalogsBelow h w baseDir entries) ->
  fs_access w (path c) = None /\ fs_stat w (path c) = Ok (info_mtimeMs c)
  /\ exists entry,
       In entry entries /\ isDirectory entry = true
       /\ path c = path_join h [baseDir; name entry; "LibraryCatalog"; "catalog.db"].
Proof.
  unfold catalogsBelow. rewrite in_flat_map. intros [entry [inentry inc]].
  destruct (isDirectory entry) eqn:dir; [|destruct inc].
  destruct (fs_access w _) eqn:there; [destruct inc|].
  destruct (fs_stat w _) as [stats|e] eqn:stated; [|destruct inc].
  destruct inc as [<-|[]]. cbn [path info_mtimeMs].
  split; [exact there|]. split; [exact stated|]. now exists entry.
Qed.

(** Whatever resolution returns exists: the existence test of the
    returned path succeeded and the returned mtime is the one
    [fs.stat] reports for that path; without an override the path is
    the catalog file below a directory entry of the base directory. *)
Theorem resolved_catalog_exists
    (h : Host) (preferences : Preferences) (w : World) (chosen : CatalogInfo) :
  fst (resolveCatalog h preferences w) = Ok chosen ->
  fs_access w (path chosen) = None
  /\ fs_stat w (path chosen) = Ok (info_mtimeMs chosen)
  /\ (truthy_opt (option_map trim (catalogPath preferences)) = false ->
      exists entries entry,
        fs_readdir w (baseDirOf h) = Ok entries
        /\ In entry entries /\ isDirectory entry = true
        /\ path chosen
           = path_join h [baseDirOf h; name entry; "LibraryCatalog"; "catalog.db"]).
Proof.
  unfold resolveCatalog.
  destruct (truthy_opt (option_map trim (catalogPath preferences))).
  - set (fullPath := expandTilde h _).
    unfold bind, pathExists, tryCatch, bind, access, stat, ret, throw.
    destruct (fs_access w fullPath) as [e|] eqn:there.
    + destruct (hasCode e "ENOENT"); discriminate.
    + cbn [negb fs_stat emit fst].
      destruct (fs_stat w fullPath) as [stats|e] eqn:stated; [|discriminate].
      intros [= <-]. cbn [path info_mtimeMs]. now repeat split.
  - set (baseDir := baseDirOf h).
    unfold bind at 1, pathExists, tryCatch, bind, access, ret, throw.
    destruct (fs_access w baseDir) as [e|].
    + destruct (hasCode e "ENOENT"); discriminate.
    + cbn [negb]. unfold readdir. cbn [fs_readdir emit].
      destruct (fs_readdir w baseDir) as [entries|e] eqn:listed; [|discriminate].
      pose proof (scanEntries_found h baseDir entries []
                    (emit (EvReaddir baseDir) (emit (EvAccess baseDir) w))) as scanned.
      destruct (scanEntries h baseDir entries [] _) as [[candidates|e] w3];
        [|discriminate].
      specialize (scanned candidates eq_refl). cbn [app] in scanned.
      destruct candidates as [|c rest]; [discriminate|].
      cbn [fst]. intros [= <-].
      assert (In (hd c (sort newestFirst (c :: rest))) (c :: rest)) as inchosen.
      { apply (Permutation_in _ (Permutation_sym (sort_perm newestFirst (c :: rest)))).
        destruct (sort newestFirst (c :: rest)) as [|s sorted] eqn:sorted_all.
        - apply sort_nil_inv in sorted_all. discriminate.
        - now left. }
      set (chosen := hd c (sort newestFirst (c :: rest))) in *.
      assert (In chosen
                (catalogsBelow h (emit (EvReaddir baseDir) (emit (EvAccess baseDir) w))
                               baseDir entries)) as below
        by (rewrite <- scanned; exact inchosen).
      apply catalogsBelow_exist in below.
      destruct below as [there [stated [entry facts]]].
      split; [exact there|]. split; [exact stated|].
      intros _. now exists entries, entry.
Qed.

Lemma resolved_catalog_exists_witness :
  fs_access (Sample.installed CacheMissing None None) (path Sample.newest) = None
  /\ fs_stat (Sample.installed CacheMissing None None) (path Sample.newest)
     = Ok (info_mtimeMs Sample.newest)
  /\ (truthy_opt (option_map trim (catalogPath Sample.noOverride)) = false ->
      exists entries entry,
        fs_readdir (Sample.installed CacheMissing None None) (baseDirOf Sample.host)
        = Ok entries
        /\ In entry entries /\ isDirectory entry = true
        /\ path Sample.newest
           = path_join Sample.host
               [baseDirOf Sample.host; name entry; "LibraryCatalog"; "catalog.db"]).
Proof.
  apply (resolved_catalog_exists Sample.host Sample.noOverride
           (Sample.installed CacheMissing None None) Sample.newest).
  vm_compute. reflexivity.
Defined.

Lemma queryResources_wellformed (h : Host) (db : Database) (columns : TableInfo)
    (items : list ResourceRow) :
  queryResources h db columns = Ok items ->
  NoDup (map id items)
  /\ (forall r, In r items -> id r <> "" /\ title r <> "")
  /\ (consistentComparator (localeCompare h) ->
      StronglySorted (fun a b => (localeCompare h (title a) (title b) <= 0)%Z) items).
Proof.
  intros returned. split; [|split].
  - destruct (queryResources_records h db columns items returned) as [kept [-> ->]].
    eapply Permutation_NoDup; [apply Permutation_map, sort_perm|].
    apply keepFirst_NoDup.
  - intros r inr.
    apply (queryResources_from_records h db columns items r returned) in inr.
    unfold usableRecords in inr.
    destruct (exec db (queryOf columns)) as [[|first rest]|e]; try destruct inr.
    eapply recordsOf_usable. apply inr.
  - intros consistent.
    destruct (queryResources_records h db columns items returned) as [kept [_ ->]].
    apply (sort_sorted (compareTitles h)). now apply compareTitles_consistent.
Qed.

(** A forced load returns what it extracts and nothing else: when it
    succeeds, the catalog resolved, the database at its path was
    opened, a schema was inferred from it and the records returned are
    exactly those [queryResources] extracts from that database, in
    that order, under the resolved path; they have pairwise distinct
    ids, non-empty ids and titles, and are sorted by title when the
    collation order is a consistent comparator; and the load returns
    the same in every world with the same catalog files, whatever its
    cache file holds and whatever becomes of its cache writes. *)
Theorem forced_load_returns_wellformed_records
    (h : Host) (preferences : Preferences) (w : World) (catalog : Catalog) :
  fst (loadCatalog h preferences true w) = Ok catalog ->
  exists info database columns items,
    fst (resolveCatalog h preferences w) = Ok info
    /\ fs_database w (path info) = Ok database
    /\ findResourceTable database = Ok columns
    /\ queryResources h database columns = Ok items
    /\ catalog = {| cat_resources := map toJson items; cat_dbPath := path info |}
    /\ NoDup (map id items)
    /\ (forall r, In r items -> id r <> "" /\ title r <> "")
    /\ (consistentComparator (localeCompare h) ->
        StronglySorted (fun a b => (localeCompare h (title a) (title b) <= 0)%Z)
                       items)
    /\ (forall w', sameDisk w w' ->
          fst (loadCatalog h preferences true w') = Ok catalog).
Proof.
  intros loaded.
  assert (forall w', sameDisk w w' ->
          fst (loadCatalog h preferences true w') = Ok catalog) as anywhere.
  { intros w' same. rewrite <- loaded, !loadCatalog_outcome.
    destruct (agrees_resolveCatalog h preferences w w' same) as [<- _].
    destruct same as [_ [_ [_ <-]]]. reflexivity. }
  rewrite loadCatalog_outcome in loaded.
  destruct (fst (resolveCatalog h preferences w)) as [info|e]; [|discriminate].
  cbn [bindR] in loaded.
  destruct (fs_database w (path info)) as [database|e] eqn:opened; [|discriminate].
  cbn [bindR] in loaded.
  destruct (findResourceTable database) as [columns|e] eqn:inferred;
    [|discriminate].
  cbn [bindR] in loaded.
  destruct (queryResources h database columns) as [items|e] eqn:returned;
    [|discriminate].
  cbn [bindR] in loaded. injection loaded as <-.
  exists info, database, columns, items.
  destruct (queryResources_wellformed h database columns items returned)
    as [distinct [usable sorted]].
  split; [reflexivity|]. split; [exact opened|]. split; [exact inferred|].
  split; [exact returned|]. split; [reflexivity|]. split; [exact distinct|].
  split; [exact usable|]. split; [exact sorted | exact anywhere].
Qed.

Lemma forced_load_returns_wellformed_records_witness :
  exists info database columns items,
    fst (resolveCatalog Sample.host Sample.noOverride
           (Sample.installed Sample.looseCache None None)) = Ok info
    /\ fs_database (Sample.installed Sample.looseCache None None) (path info)
       = Ok database
    /\ findResourceTable database = Ok columns
    /\ queryResources Sample.host database columns = Ok items
    /\ {| cat_resources := map toJson Sample.extracted;
          cat_dbPath := Sample.catalogB |}
       = {| cat_resources := map toJson items; cat_dbPath := path info |}
    /\ NoDup (map id items)
    /\ (forall r, In r items -> id r <> "" /\ title r <> "")
    /\ (consistentComparator (localeCompare Sample.host) ->
        StronglySorted
          (fun a b => (localeCompare Sample.host (title a) (title b) <= 0)%Z) items)
    /\ (forall w', sameDisk (Sample.installed Sample.looseCache None None) w' ->
          fst (loadCatalog Sample.host Sample.noOverride true w')
          = Ok {| cat_resources := map toJson Sample.extracted;
                  cat_dbPath := Sample.catalogB |}).
Proof.
  apply (forced_load_returns_wellformed_records Sample.host Sample.noOverride
           (Sample.installed Sample.looseCache None None)
           {| cat_resources := map toJson Sample.extracted;
              cat_dbPath := Sample.catalogB |}).
  vm_compute. reflexivity.
Defined.

(* ================================================================= *)
(** ** Extraction: which rows are kept *)

(** The record the row loop builds from a projected row, in full. *)
Lemma rowRecord_exact (vi vj : SqlValue) (oa ob : option SqlValue) :
  rowRecord (aliasesOf oa ob) (vi :: vj :: present oa ++ present ob)%list
  = match textOf vi, textOf vj with
    | Some idText, Some titleText =>
        if (idText =? "") || (titleText =? "") then None
        else Some {| id := idText; title := titleText;
                     author := match oa with Some v => textOf v | None => None end;
                     abbrev := match ob with Some v => textOf v | None => None end |}
    | _, _ => None
    end.
Proof.
  unfold rowRecord, buildRecord, aliasesOf, truthy.
  destruct oa as [va|]; destruct ob as [vb|];
    cbn [present map app List.length seq combine fold_left cell nth];
    destruct vi; destruct vj; try destruct va; try destruct vb;
    cbn [setField String.eqb Ascii.eqb Bool.eqb p_id p_title p_author p_abbrev
         emptyRecord textOf];
    rewrite ?negb_involutive; reflexivity.
Qed.

Lemma fieldOf_index (t : Table) (row : list SqlValue) (column : option string) :
  fieldOf t row column
  = match match column with
          | Some c => columnIndex (tbl_columns t) c
          | None => None
          end with
    | Some k => textOf (cell row k)
    | None => None
    end.
Proof.
  destruct column as [c|]; [|reflexivity]. cbn [fieldOf].
  now destruct (columnIndex (tbl_columns t) c).
Qed.

(** A row the query returns builds the record its cells are worth; a
    row the query filters out is worth none. *)
Lemma projected_record (t : Table) (columns : TableInfo) (i j : nat)
    (row : list SqlValue) :
  columnIndex (tbl_columns t) (idColumn columns) = Some i ->
  columnIndex (tbl_columns t) (titleColumn columns) = Some j ->
  (if negb (isNull (cell row i)) && (negb (isNull (cell row j)) && true)
   then
     present
       (rowRecord
          (aliasesOf
             (match authorColumn columns with
              | Some a => columnIndex (tbl_columns t) a
              | None => None
              end)
             (match abbrevColumn columns with
              | Some b => columnIndex (tbl_columns t) b
              | None => None
              end))
          (map (cell row)
             (i :: j
              :: present (match authorColumn columns with
                          | Some a => columnIndex (tbl_columns t) a
                          | None => None
                          end)
              ++ present (match abbrevColumn columns with
                          | Some b => columnIndex (tbl_columns t) b
                          | None => None
                          end))%list))
   else [])
  = present (recordOfRow t columns row).
Proof.
  intros at_i at_j.
  unfold recordOfRow.
  rewrite (fieldOf_index t row (authorColumn columns)),
          (fieldOf_index t row (abbrevColumn columns)).
  cbn [fieldOf]. rewrite at_i, at_j.
  set (oa := match authorColumn columns with
             | Some a => columnIndex (tbl_columns t) a
             | None => None
             end).
  set (ob := match abbrevColumn columns with
             | Some b => columnIndex (tbl_columns t) b
             | None => None
             end).
  assert (map (cell row) (i :: j :: present oa ++ present ob)%list
          = (cell row i :: cell row j
             :: present (option_map (cell row) oa)
             ++ present (option_map (cell row) ob))%list) as cells
    by (destruct oa, ob; reflexivity).
  assert (aliasesOf oa ob
          = aliasesOf (option_map (cell row) oa) (option_map (cell row) ob))
    as aliases by (destruct oa, ob; reflexivity).
  rewrite cells, aliases, rowRecord_exact.
  destruct (cell row i); destruct (cell row j); cbn [isNull negb andb textOf present];
    try reflexivity;
    destruct oa, ob; reflexivity.
Qed.

Lemma recordsOf_filter_map {Row} (columnNames : list string)
    (project : Row -> list SqlValue) (keep : Row -> bool)
    (worth : Row -> option ResourceRow) (rows : list Row) :
  (forall row,
     (if keep row then present (rowRecord columnNames (project row)) else [])
     = present (worth row)) ->
  recordsOf columnNames (map project (filter keep rows))
  = flat_map (fun row => present (worth row)) rows.
Proof.
  intros each. induction rows as [|row rest IH]; [reflexivity|].
  cbn [filter flat_map]. rewrite <- (each row), <- IH.
  now destruct (keep row).
Qed.

Lemma recordsOf_rows (t : Table) (columns : TableInfo) (i j : nat)
    (rows : list (list SqlValue)) :
  columnIndex (tbl_columns t) (idColumn columns) = Some i ->
  columnIndex (tbl_columns t) (titleColumn columns) = Some j ->
  recordsOf
    (aliasesOf
       (match authorColumn columns with
        | Some a => columnIndex (tbl_columns t) a
        | None => None
        end)
       (match abbrevColumn columns with
        | Some b => columnIndex (tbl_columns t) b
        | None => None
        end))
    (map (fun row =>
            map (cell row)
              (i :: j
               :: present (match authorColumn columns with
                           | Some a => columnIndex (tbl_columns t) a
                           | None => None
                           end)
               ++ present (match abbrevColumn columns with
                           | Some b => columnIndex (tbl_columns t) b
                           | None => None
                           end))%list)
       (filter (fun row => negb (isNull (cell row i))
                           && (negb (isNull (cell row j)) && true))
               rows))
  = flat_map (fun row => present (recordOfRow t columns row)) rows.
Proof.
  intros at_i at_j.
  apply (recordsOf_filter_map _ _ _ (recordOfRow t columns)).
  intros row. exact (projected_record t columns i j row at_i at_j).
Qed.

(** The usable records of the query of an inferred schema are what the
    rows of the table are worth, in row order. *)
Lemma usableRecords_rows (db : Database) (columns : TableInfo) (t : Table) :
  findResourceTable db = Ok columns ->
  findTable db (tableName columns) = Some t ->
  usableRecords db columns
  = flat_map (fun row => present (recordOfRow t columns row)) (tbl_rows t).
Proof.
  intros inferred found.
  destruct (exec_queryOf db columns t inferred found)
    as [i [j [at_i [at_j [oa [ob [-> [-> run]]]]]]]].
  rewrite <- (recordsOf_rows t columns i j (tbl_rows t) at_i at_j).
  unfold usableRecords. rewrite run. unfold results.
  now destruct (map _ (filter _ (tbl_rows t))).
Qed.

(** The first record with a given id among what the rows are worth is
    the record of the first row worth a record with that id. *)
Lemma firstWithId_rows {Row} (worth : Row -> option ResourceRow) (rows : list Row)
    (i : string) (r : ResourceRow) :
  firstWithId i (flat_map (fun row => present (worth row)) rows) = Some r
  <-> exists before row after,
        rows = (before ++ row :: after)%list
        /\ worth row = Some r /\ id r = i
        /\ forall earlier r', In earlier before -> worth earlier = Some r' ->
                              id r' <> i.
Proof.
  induction rows as [|x rest IH]; cbn [flat_map].
  - split; [discriminate|]. intros [[|? ?] [row [after [e _]]]]; discriminate.
  - assert ((exists before row after,
               rest = (before ++ row :: after)%list
               /\ worth row = Some r /\ id r = i
               /\ forall earlier r', In earlier before -> worth earlier = Some r' ->
                                     id r' <> i)
            -> forall r0, worth x = Some r0 -> id r0 <> i
            -> exists before row after,
                 x :: rest = (before ++ row :: after)%list
                 /\ worth row = Some r /\ id r = i
                 /\ forall earlier r', In earlier before -> worth earlier = Some r' ->
                                       id r' <> i) as later.
    { intros [before [row [after [-> [is_r [is_i none]]]]]] r0 wx other.
      exists (x :: before), row, after. repeat split; try assumption.
      intros earlier r' [<-|inb] we; [congruence | now apply (none earlier)]. }
    destruct (worth x) as [r0|] eqn:wx; cbn [present app].
    + rewrite firstWithId_cons. destruct (id r0 =? i) eqn:same.
      * apply String.eqb_eq in same. split.
        -- intros [= <-]. exists [], x, rest. repeat split; try assumption.
           intros ? ? [].
        -- intros [[|y before] [row [after [split_rows [is_r [_ none]]]]]].
           ++ injection split_rows as <- _. congruence.
           ++ injection split_rows as <- _. exfalso.
              now apply (none x r0 (or_introl eq_refl) wx).
      * apply String.eqb_neq in same. rewrite IH. split.
        -- intros found. apply (later found r0); [reflexivity | exact same].
        -- intros [[|y before] [row [after [split_rows [is_r [is_i none]]]]]].
           ++ injection split_rows as <- _. congruence.
           ++ injection split_rows as <- ->. exists before, row, after.
              repeat split; try assumption.
              intros earlier r' inb. apply none. now right.
    + rewrite IH. split.
      * intros [before [row [after [-> [is_r [is_i none]]]]]].
        exists (x :: before), row, after. repeat split; try assumption.
        intros earlier r' [<-|inb] we; [congruence | now apply (none earlier)].
      * intros [[|y before] [row [after [split_rows [is_r [is_i none]]]]]].
        -- injection split_rows as <- _. congruence.
        -- injection split_rows as <- ->. exists before, row, after.
           repeat split; try assumption.
           intros earlier r' inb. apply none. now right.
Qed.

(** C2, as stated, fails on its last part: the table of the sample
    library holds two rows with the id LLS:GEN, and the first of them,
    with an empty title, is among the rows the query returns; the record
    kept for LLS:GEN is built from the second of them, and no record
    with the first row's empty title is kept. *)
Lemma C2_first_seen_row_is_not_kept :
  findResourceTable Sample.library = Ok Sample.librarySchema
  /\ findTable Sample.library "Resource" = Some Sample.resourceTable
  /\ nth_error (tbl_rows Sample.resourceTable) 1
     = Some [SqlText "LLS:GEN"; SqlText ""; SqlNull]
  /\ nth_error (tbl_rows Sample.resourceTable) 2
     = Some [SqlText "LLS:GEN"; SqlText "Genesis"; SqlNull]
  /\ (exists first,
        exec Sample.library (queryOf Sample.librarySchema) = Ok [first]
        /\ nth_error (values first) 1
           = Some [SqlText "LLS:GEN"; SqlText ""; SqlNull]
        /\ nth_error (values first) 2
           = Some [SqlText "LLS:GEN"; SqlText "Genesis"; SqlNull])
  /\ exists items,
       queryResources Sample.host Sample.library Sample.librarySchema = Ok items
       /\ In {| id := "LLS:GEN"; title := "Genesis";
                author := None; abbrev := None |} items
       /\ forall r, In r items -> id r = "LLS:GEN" -> title r <> "".
Proof.
  split; [reflexivity|]. split; [reflexivity|].
  split; [reflexivity|]. split; [reflexivity|].
  split.
  - eexists. split; [reflexivity|]. split; reflexivity.
  - exists Sample.extracted. split; [vm_compute; reflexivity|].
    split; [right; left; reflexivity|].
    intros r [<-|[<-|[<-|[]]]]; cbn [id title]; discriminate.
Qed.

(** C2, amended: on every database and schema inferred from it,
    extraction returns a record sequence whose ids are pairwise distinct
    and whose ids and titles are all non-empty.  A row of the table
    yields a record exactly when its id cell and its title cell are not
    null and their texts are not empty, and the record then carries
    those texts.  When several rows share an id, the record kept is the
    one built from the first row, in table order, that yields a record
    with that id: rows with a null or empty id or title are passed over
    before duplicates are looked at.  Every id some row yields a record
    for is kept. *)
Theorem C2_records_distinct_usable_first_usable_row
    (h : Host) (db : Database) (columns : TableInfo) :
  findResourceTable db = Ok columns ->
  exists t items,
    findTable db (tableName columns) = Some t
    /\ queryResources h db columns = Ok items
    /\ NoDup (map id items)
    /\ (forall r, In r items -> id r <> "" /\ title r <> "")
    /\ (forall r,
          In r items <->
          exists before row after,
            tbl_rows t = (before ++ row :: after)%list
            /\ recordOfRow t columns row = Some r
            /\ forall earlier r',
                 In earlier before ->
                 recordOfRow t columns earlier = Some r' ->
                 id r' <> id r)
    /\ (forall row idText titleText,
          In row (tbl_rows t) ->
          fieldOf t row (Some (idColumn columns)) = Some idText ->
          fieldOf t row (Some (titleColumn columns)) = Some titleText ->
          idText <> "" -> titleText <> "" ->
          recordOfRow t columns row
          = Some {| id := idText; title := titleText;
                    author := fieldOf t row (authorColumn columns);
                    abbrev := fieldOf t row (abbrevColumn columns) |}
          /\ exists r, In r items /\ id r = idText)
    /\ (forall row r,
          recordOfRow t columns row = Some r ->
          fieldOf t row (Some (idColumn columns)) = Some (id r)
          /\ fieldOf t row (Some (titleColumn columns)) = Some (title r)
          /\ fieldOf t row (authorColumn columns) = author r
          /\ fieldOf t row (abbrevColumn columns) = abbrev r).
Proof.
  intros inferred.
  destruct (queryResources_total h db columns inferred) as [items returned].
  destruct (findResourceTable_inv db columns inferred)
    as [cols [pragma _]].
  rewrite pragmaColumns_spec in pragma.
  destruct (findTable db (tableName columns)) as [t|] eqn:found; [|discriminate].
  exists t, items. split; [reflexivity|]. split; [assumption|].
  destruct (queryResources_records h db columns items returned)
    as [kept [-> ->]].
  rewrite (usableRecords_rows db columns t inferred found).
  set (records := flat_map (fun row => present (recordOfRow t columns row))
                           (tbl_rows t)).
  pose proof (sort_perm (compareTitles h) (keepFirst [] records)) as perm.
  assert (forall r, In r (sort (compareTitles h) (keepFirst [] records))
                    <-> firstWithId (id r) records = Some r) as kept.
  { intros r. split.
    - intros inr. apply (Permutation_in _ (Permutation_sym perm)) in inr.
      now apply keepFirst_In in inr.
    - intros first. apply (Permutation_in _ perm).
      now apply (keepFirst_complete [] records (id r)). }
  assert (forall row r, recordOfRow t columns row = Some r ->
                        id r <> "" /\ title r <> "") as usable.
  { intros row r. unfold recordOfRow.
    destruct (fieldOf t row (Some (idColumn columns))) as [idText|]; [|discriminate].
    destruct (fieldOf t row (Some (titleColumn columns))) as [titleText|];
      [|discriminate].
    destruct (idText =? "") eqn:noId; [discriminate|].
    destruct (titleText =? "") eqn:noTitle; [discriminate|].
    cbn [orb]. intros [= <-]. cbn [id title].
    now apply String.eqb_neq in noId, noTitle. }
  split; [|split; [|split; [|split]]].
  - eapply Permutation_NoDup; [apply Permutation_map, perm|].
    apply keepFirst_NoDup.
  - intros r inr. apply kept, find_some in inr. destruct inr as [inrecords _].
    unfold records in inrecords. apply in_flat_map in inrecords.
    destruct inrecords as [row [_ worth]].
    destruct (recordOfRow t columns row) as [r0|] eqn:built; [|destruct worth].
    destruct worth as [<-|[]]. exact (usable row r0 built).
  - intros r. rewrite kept. unfold records. rewrite firstWithId_rows. split.
    + intros [before [row [after [split_rows [built [_ none]]]]]].
      now exists before, row, after.
    + intros [before [row [after [split_rows [built none]]]]].
      exists before, row, after. now repeat split.
  - intros row idText titleText inrow hasId hasTitle someId someTitle.
    assert (recordOfRow t columns row
            = Some {| id := idText; title := titleText;
                      author := fieldOf t row (authorColumn columns);
                      abbrev := fieldOf t row (abbrevColumn columns) |}) as built.
    { unfold recordOfRow. rewrite hasId, hasTitle.
      apply String.eqb_neq in someId, someTitle.
      now rewrite someId, someTitle. }
    split; [exact built|].
    destruct (firstWithId idText records) as [r|] eqn:first.
    + exists r. pose proof (find_some _ _ first) as [_ same].
      apply String.eqb_eq in same. split; [|exact same].
      apply kept. now rewrite same.
    + exfalso.
      pose proof (find_none _ _ first
                    {| id := idText; title := titleText;
                       author := fieldOf t row (authorColumn columns);
                       abbrev := fieldOf t row (abbrevColumn columns) |}) as absent.
      cbn [id] in absent. rewrite String.eqb_refl in absent.
      enough (true = false) by discriminate. apply absent.
      unfold records. apply in_flat_map. exists row. split; [assumption|].
      rewrite built. now left.
  - intros row r. unfold recordOfRow.
    destruct (fieldOf t row (Some (idColumn columns))) as [idText|]; [|discriminate].
    destruct (fieldOf t row (Some (titleColumn columns))) as [titleText|];
      [|discriminate].
    destruct ((idText =? "") || (titleText =? "")); [discriminate|].
    intros [= <-]. cbn [id title author abbrev]. now repeat split.
Qed.

Lemma C2_records_distinct_usable_first_usable_row_witness :
  exists t items,
    findTable Sample.library (tableName Sample.librarySchema) = Some t
    /\ queryResources Sample.host Sample.library Sample.librarySchema = Ok items
    /\ NoDup (map id items)
    /\ (forall r, In r items -> id r <> "" /\ title r <> "")
    /\ (forall r,
          In r items <->
          exists before row after,
            tbl_rows t = (before ++ row :: after)%list
            /\ recordOfRow t Sample.librarySchema row = Some r
            /\ forall earlier r',
                 In earlier before ->
                 recordOfRow t Sample.librarySchema earlier = Some r' ->
                 id r' <> id r)
    /\ (forall row idText titleText,
          In row (tbl_rows t) ->
          fieldOf t row (Some (idColumn Sample.librarySchema)) = Some idText ->
          fieldOf t row (Some (titleColumn Sample.librarySchema)) = Some titleText ->
          idText <> "" -> titleText <> "" ->
          recordOfRow t Sample.librarySchema row
          = Some {| id := idText; title := titleText;
                    author := fieldOf t row (authorColumn Sample.librarySchema);
                    abbrev := fieldOf t row (abbrevColumn Sample.librarySchema) |}
          /\ exists r, In r items /\ id r = idText)
    /\ (forall row r,
          recordOfRow t Sample.librarySchema row = Some r ->
          fieldOf t row (Some (idColumn Sample.librarySchema)) = Some (id r)
          /\ fieldOf t row (Some (titleColumn Sample.librarySchema)) = Some (title r)
          /\ fieldOf t row (authorColumn Sample.librarySchema) = author r
          /\ fieldOf t row (abbrevColumn Sample.librarySchema) = abbrev r).
Proof.
  apply (C2_records_distinct_usable_first_usable_row
           Sample.host Sample.library Sample.librarySchema).
  reflexivity.
Defined.
